(** * Calendar-to-WhatsApp automation: change detection, summaries, scheduling

    A shallow embedding of the reconciliation-and-notification core of the
    repository (src/server/services/calendarService.ts, automationService.ts,
    whatsappService.ts, src/server/models/CalendarEvent.ts and the
    CalendarEventFactory), followed by the properties stated about it.

    Conventions of the embedding:
    - a JavaScript [Date] is its [getTime()] value, an integer number of
      milliseconds ([Z]); date strings of the remote feed are taken as already
      parsed to such instants;
    - a JavaScript number obtained by dividing two integers is the exact
      rational ([Q]);
    - [undefined]/[null] of an optional field is [None], except in the
      optional fields of [CreateEventData] that [upsert] compares with [!==],
      where an omitted field and [null] are kept apart ([Optional]);
    - strings are byte strings; [toLowerCase] folds the ASCII letters;
    - the [calendar_events] table is the list of its rows, in insertion order,
      and no statement of the database fails;
    - the default of the [last_modified] column, which the repository
      declares in two ways, is a parameter ([Schema]);
    - [CURRENT_TIMESTAMP] and [new Date()] are an explicit parameter [now]. *)

From Stdlib Require Import ZArith QArith String Ascii List Lia.
From stdpp Require Import base option list sorting strings pretty gmap.

Open Scope Z_scope.

(* ------------------------------------------------------------------------- *)
(** ** JavaScript operators used by the sources *)

Module Js.

(** [s || d] on an optional string: [undefined], [null] and the empty
    string are falsy. *)
Definition or_str (s : option string) (d : string) : string :=
  match s with
  | Some EmptyString => d
  | Some x => x
  | None => d
  end.

(** [a.dateTime || a.date || new Date()] on already parsed instants. *)
Definition or_date (dateTime date : option Z) (now : Z) : Z :=
  match dateTime with
  | Some t => t
  | None => match date with Some d => d | None => now end
  end.

(** [String.prototype.toLowerCase] on the ASCII letters. *)
Definition lower_ascii (c : ascii) : ascii :=
  let n := nat_of_ascii c in
  if andb (Nat.leb 65 n) (Nat.leb n 90) then ascii_of_nat (n + 32) else c.

Fixpoint toLowerCase (s : string) : string :=
  match s with
  | EmptyString => EmptyString
  | String c t => String (lower_ascii c) (toLowerCase t)
  end.

(** [text.includes(keyword)]. *)
Fixpoint includes (text keyword : string) : bool :=
  if String.prefix keyword text then true
  else match text with
       | EmptyString => false
       | String _ t => includes t keyword
       end.

(** An optional property of type [A | null]: left out ([undefined]), or
    given as [null] ([given None]) or as a value. *)
Inductive Optional (A : Type) : Type :=
  | undefined
  | given (value : option A).

Arguments undefined {A}.
Arguments given {A} value.

(** What a query parameter stores in a column: the driver sends [undefined]
    as [NULL]. *)
Definition to_column {A} (x : Optional A) : option A :=
  match x with
  | undefined => None
  | given value => value
  end.

(** [column !== x] for a column value ([null] or a string) and an optional
    property: [null !== undefined] holds. *)
Definition strict_ne (column : option string) (x : Optional string) : bool :=
  match x with
  | undefined => true
  | given value => negb (bool_decide (column = value))
  end.

End Js.

(* ------------------------------------------------------------------------- *)
(** ** Enumerations (types/enums) and records (types/interfaces.ts) *)

Inductive EventType := WORK | PERSONAL | FREE | UNKNOWN.

(** The string value of each member of the TypeScript string enum. *)
Definition EventType_value (t : EventType) : string :=
  match t with
  | WORK => "work"
  | PERSONAL => "personal"
  | FREE => "free"
  | UNKNOWN => "unknown"
  end.

Inductive EventStatus := CONFIRMED | TENTATIVE | CANCELLED.

Definition EventStatus_value (s : EventStatus) : string :=
  match s with
  | CONFIRMED => "confirmed"
  | TENTATIVE => "tentative"
  | CANCELLED => "cancelled"
  end.

(** A raw event of the remote feed ([GoogleCalendarEvent], used as [any]). *)
Record GoogleEvent := {
  g_id : string;
  g_summary : option string;
  g_description : option string;
  g_location : option string;
  g_start_dateTime : option Z;
  g_start_date : option Z;
  g_end_dateTime : option Z;
  g_end_date : option Z;
  g_status : option string;
  g_updated : option Z;
  g_attendees : option (list string)
}.

(** A snapshot row ([CalendarEvent]); [createFromDatabaseRow] copies the
    columns of a row into this shape. *)
Record CalendarEvent := {
  ce_user_id : Z;
  ce_event_id : string;
  ce_summary : string;
  ce_description : option string;
  ce_location : option string;
  ce_start_time : Z;
  ce_end_time : Z;
  ce_all_day : bool;
  ce_event_type : string;
  ce_status : string;
  ce_attendees : list string;
  ce_last_modified : option Z
}.

(** The argument of [upsert] ([CreateEventData]). *)
Record CreateEventData := {
  ed_userId : Z;
  ed_eventId : string;
  ed_summary : string;
  ed_description : Js.Optional string;
  ed_location : Js.Optional string;
  ed_startTime : Z;
  ed_endTime : Z;
  ed_allDay : bool;
  ed_eventType : string;
  ed_status : string;
  ed_attendees : option (list string)
}.

#[global] Instance GoogleEvent_eq_dec : EqDecision GoogleEvent.
Proof. solve_decision. Defined.

#[global] Instance CalendarEvent_eq_dec : EqDecision CalendarEvent.
Proof. solve_decision. Defined.

(* ------------------------------------------------------------------------- *)
(** ** CalendarEventFactory *)

Module CalendarEventFactory.

Definition workKeywords : list string :=
  [ "meeting"; "call"; "interview"; "presentation"; "conference"; "workshop";
    "training"; "review"; "planning"; "standup"; "sprint"; "demo"; "client";
    "business"; "work"; "office"; "team"; "project"; "deadline"; "deliverable" ].

Definition personalKeywords : list string :=
  [ "birthday"; "anniversary"; "dinner"; "lunch"; "coffee"; "date"; "party";
    "celebration"; "family"; "friend"; "personal"; "vacation"; "holiday";
    "doctor"; "dentist"; "appointment"; "gym"; "workout"; "exercise" ].

(** [`${summary} ${description || ''}`.toLowerCase()] *)
Definition categorizeText (summary : string) (description : option string) : string :=
  Js.toLowerCase (summary +:+ " " +:+ Js.or_str description "").

Definition categorizeEvent (summary : string) (description : option string) : EventType :=
  let text := categorizeText summary description in
  if existsb (fun keyword => Js.includes text keyword) workKeywords then WORK
  else if existsb (fun keyword => Js.includes text keyword) personalKeywords then PERSONAL
  else UNKNOWN.

Definition mapGoogleStatus (googleStatus : option string) : EventStatus :=
  match googleStatus with
  | None => CONFIRMED
  | Some s =>
      let l := Js.toLowerCase s in
      if String.eqb l "confirmed" then CONFIRMED
      else if String.eqb l "tentative" then TENTATIVE
      else if String.eqb l "cancelled" then CANCELLED
      else CONFIRMED
  end.

Definition is_none {A} (o : option A) : bool :=
  match o with Some _ => false | None => true end.

(** [createFromGoogleEvent]; the typed [GoogleCalendarEvent] has a
    [summary], and [start.date!] / [end.date!] are asserted present when
    the [dateTime] is not, so the result exists only for such events. *)
Definition createFromGoogleEvent (userId : Z) (googleEvent : GoogleEvent)
  : option CreateEventData :=
  summary ← g_summary googleEvent;
  startTime ← (match g_start_dateTime googleEvent with
               | Some t => Some t
               | None => g_start_date googleEvent
               end);
  endTime ← (match g_end_dateTime googleEvent with
             | Some t => Some t
             | None => g_end_date googleEvent
             end);
  Some {| ed_userId := userId;
          ed_eventId := g_id googleEvent;
          ed_summary := summary;
          ed_description :=
            Js.given match g_description googleEvent with
                     | Some EmptyString => None
                     | d => d
                     end;
          ed_location :=
            Js.given match g_location googleEvent with
                     | Some EmptyString => None
                     | l => l
                     end;
          ed_startTime := startTime;
          ed_endTime := endTime;
          ed_allDay := andb (is_none (g_start_dateTime googleEvent))
                            (is_none (g_end_dateTime googleEvent));
          ed_eventType :=
            EventType_value (categorizeEvent summary (g_description googleEvent));
          ed_status := EventStatus_value (mapGoogleStatus (g_status googleEvent));
          ed_attendees := Some (default [] (g_attendees googleEvent)) |}.

End CalendarEventFactory.

(* ------------------------------------------------------------------------- *)
(** ** The table declaration *)

(** The [INSERT] of [upsert] does not list [last_modified]: a new row takes
    the default of the column. The repository declares the table twice: the
    [CREATE TABLE] of the migration script gives the column
    [DEFAULT CURRENT_TIMESTAMP], the Prisma schema declares it
    [DateTime?] without a default. *)
Inductive ColumnDefault := DEFAULT_CURRENT_TIMESTAMP | NO_DEFAULT.

Class Schema := { last_modified_default : ColumnDefault }.

Definition migration_schema : Schema :=
  {| last_modified_default := DEFAULT_CURRENT_TIMESTAMP |}.

Definition prisma_schema : Schema :=
  {| last_modified_default := NO_DEFAULT |}.

(* ------------------------------------------------------------------------- *)
(** ** CalendarEventModel: the snapshot store *)

Module CalendarEventModel.

(** The [calendar_events] table. *)
Definition Table := list CalendarEvent.

Definition has_key (userId : Z) (eventId : string) (row : CalendarEvent) : bool :=
  andb (Z.eqb (ce_user_id row) userId) (String.eqb (ce_event_id row) eventId).

(** [ORDER BY start_time ASC] *)
Definition start_time_le (a b : CalendarEvent) : Prop :=
  ce_start_time a <= ce_start_time b.

#[global] Instance start_time_le_dec a b : Decision (start_time_le a b).
Proof. unfold start_time_le. apply _. Defined.

Definition order_by_start_time (rows : list CalendarEvent) : list CalendarEvent :=
  merge_sort start_time_le rows.

(** [SELECT * ... WHERE user_id = $1 AND start_time >= $2 AND
    start_time < $3 AND status != 'cancelled' ORDER BY start_time ASC] *)
Definition findByUserIdAndDateRange (db : Table) (userId startDate endDate : Z)
  : list CalendarEvent :=
  order_by_start_time
    (List.filter
       (fun row =>
          andb (andb (Z.eqb (ce_user_id row) userId)
                     (andb (Z.leb startDate (ce_start_time row))
                           (Z.ltb (ce_start_time row) endDate)))
               (negb (String.eqb (ce_status row) (EventStatus_value CANCELLED))))
       db).

(** [SELECT * ... WHERE user_id = $1 AND event_id = $2], first row. *)
Definition findByUserIdAndEventId (db : Table) (userId : Z) (eventId : string)
  : option CalendarEvent :=
  List.find (has_key userId eventId) db.

(** The comparison of [upsert] between the stored row and the incoming
    data. The stored [description] and [location] are [null] or a string and
    are compared with [!==] against the property of the data, which may be
    left out; [JSON.stringify] of two arrays of strings agree exactly when
    the arrays do. *)
Definition hasChanged_against (existingEvent : CalendarEvent) (eventData : CreateEventData)
  : bool :=
  negb (String.eqb (ce_summary existingEvent) (ed_summary eventData))
  || Js.strict_ne (ce_description existingEvent) (ed_description eventData)
  || Js.strict_ne (ce_location existingEvent) (ed_location eventData)
  || negb (Z.eqb (ce_start_time existingEvent) (ed_startTime eventData))
  || negb (Z.eqb (ce_end_time existingEvent) (ed_endTime eventData))
  || negb (String.eqb (ce_status existingEvent) (ed_status eventData))
  || negb (bool_decide (ce_attendees existingEvent = default [] (ed_attendees eventData))).

(** The [DO UPDATE SET ...] clause applied to a conflicting row. *)
Definition do_update (now : Z) (hasChanged : bool) (eventData : CreateEventData)
    (row : CalendarEvent) : CalendarEvent :=
  {| ce_user_id := ce_user_id row;
     ce_event_id := ce_event_id row;
     ce_summary := ed_summary eventData;
     ce_description := Js.to_column (ed_description eventData);
     ce_location := Js.to_column (ed_location eventData);
     ce_start_time := ed_startTime eventData;
     ce_end_time := ed_endTime eventData;
     ce_all_day := ed_allDay eventData;
     ce_event_type := ed_eventType eventData;
     ce_status := ed_status eventData;
     ce_attendees := default [] (ed_attendees eventData);
     ce_last_modified := if hasChanged then Some now else ce_last_modified row |}.

Section Insert.

Context {schema : Schema}.

(** The value of [last_modified] in a row inserted at [now]. *)
Definition last_modified_on_insert (now : Z) : option Z :=
  match last_modified_default with
  | DEFAULT_CURRENT_TIMESTAMP => Some now
  | NO_DEFAULT => None
  end.

(** The row of the [INSERT]; [last_modified] takes its column default. *)
Definition inserted_row (now : Z) (eventData : CreateEventData) : CalendarEvent :=
  {| ce_user_id := ed_userId eventData;
     ce_event_id := ed_eventId eventData;
     ce_summary := ed_summary eventData;
     ce_description := Js.to_column (ed_description eventData);
     ce_location := Js.to_column (ed_location eventData);
     ce_start_time := ed_startTime eventData;
     ce_end_time := ed_endTime eventData;
     ce_all_day := ed_allDay eventData;
     ce_event_type := ed_eventType eventData;
     ce_status := ed_status eventData;
     ce_attendees := default [] (ed_attendees eventData);
     ce_last_modified := last_modified_on_insert now |}.

(** [INSERT ... ON CONFLICT (user_id, event_id) DO UPDATE ...]. *)
Definition insert_on_conflict (now : Z) (hasChanged : bool) (eventData : CreateEventData)
    (db : Table) : Table :=
  if existsb (has_key (ed_userId eventData) (ed_eventId eventData)) db
  then List.map (fun row =>
              if has_key (ed_userId eventData) (ed_eventId eventData) row
              then do_update now hasChanged eventData row
              else row) db
  else db ++ [inserted_row now eventData].

(** [upsert]: the table afterwards. *)
Definition upsert (now : Z) (eventData : CreateEventData) (db : Table) : Table :=
  let existingEvent :=
    findByUserIdAndEventId db (ed_userId eventData) (ed_eventId eventData) in
  let hasChanged :=
    match existingEvent with
    | Some e => hasChanged_against e eventData
    | None => true
    end in
  insert_on_conflict now hasChanged eventData db.

(** [upsert]: the row it returns ([RETURNING *]). *)
Definition upsert_returning (now : Z) (eventData : CreateEventData) (db : Table)
  : option CalendarEvent :=
  findByUserIdAndEventId (upsert now eventData db)
                         (ed_userId eventData) (ed_eventId eventData).

End Insert.

(** The [SET status = 'cancelled', last_modified = CURRENT_TIMESTAMP]
    clause applied to a row. *)
Definition cancel_row (now : Z) (row : CalendarEvent) : CalendarEvent :=
  {| ce_user_id := ce_user_id row;
     ce_event_id := ce_event_id row;
     ce_summary := ce_summary row;
     ce_description := ce_description row;
     ce_location := ce_location row;
     ce_start_time := ce_start_time row;
     ce_end_time := ce_end_time row;
     ce_all_day := ce_all_day row;
     ce_event_type := ce_event_type row;
     ce_status := EventStatus_value CANCELLED;
     ce_attendees := ce_attendees row;
     ce_last_modified := Some now |}.

(** [markAsCancelled]: [UPDATE ... SET ... WHERE user_id = $2 AND
    event_id = $3]. *)
Definition markAsCancelled (now : Z) (userId : Z) (eventId : string) (db : Table) : Table :=
  List.map (fun row => if has_key userId eventId row then cancel_row now row else row) db.

(** [markAsCancelled] builds its result from [result.rows[0]]; with no
    matching row [createFromDatabaseRow(undefined)] throws. *)
Definition markAsCancelled_returning (now : Z) (userId : Z) (eventId : string) (db : Table)
  : option CalendarEvent :=
  findByUserIdAndEventId (markAsCancelled now userId eventId db) userId eventId.

End CalendarEventModel.

(* ------------------------------------------------------------------------- *)
(** ** Calls that may throw *)

(** The result of awaiting a call: the value it resolves to, or the error it
    rejects with. *)
Inductive Outcome (A : Type) : Type :=
  | Returns (value : A)
  | Throws (error : string).

Arguments Returns {A} value.
Arguments Throws {A} error.

(** The [users] row as the services read it. *)
Record User := {
  u_id : Z;
  u_name : string;
  u_automation_enabled : bool;
  u_daily_summary_time : string;
  u_timezone : option string;
  u_whatsapp_recipients : option (list string)
}.

(* ------------------------------------------------------------------------- *)
(** ** CalendarService *)

Module CalendarService.

Import CalendarEventModel.

Definition nl : string := String (ascii_of_nat 10) EmptyString.

(** [fetchEvents]: [response.data.items || []] when the client and the
    listing succeed, [null] when either throws. *)
Definition fetchEvents (response : Outcome (option (list GoogleEvent)))
  : option (list GoogleEvent) :=
  match response with
  | Returns items => Some (default [] items)
  | Throws _ => None
  end.

(** The [eventData] object that [syncEvents] builds for one event. *)
Definition eventData_of (now : Z) (userId : Z) (event : GoogleEvent) : CreateEventData :=
  {| ed_userId := userId;
     ed_eventId := g_id event;
     ed_summary := Js.or_str (g_summary event) "No Title";
     ed_description := Js.given (Some (Js.or_str (g_description event) ""));
     ed_startTime := Js.or_date (g_start_dateTime event) (g_start_date event) now;
     ed_endTime := Js.or_date (g_end_dateTime event) (g_end_date event) now;
     ed_location := Js.given (Some (Js.or_str (g_location event) ""));
     ed_status := Js.or_str (g_status event) "confirmed";
     ed_allDay := CalendarEventFactory.is_none (g_start_dateTime event);
     ed_eventType := "WORK";
     ed_attendees := Some (default [] (g_attendees event)) |}.

(** [syncEvents]: one [upsert] per event, in order. *)
Definition syncEvents {schema : Schema} (now : Z) (userId : Z) (events : list GoogleEvent)
    (db : Table) : Table :=
  fold_left (fun db event => upsert now (eventData_of now userId event) db) events db.

(** *** Free blocks of [getTodaySummary] *)

Record FreeBlock := { fb_start : Z; fb_end : Z }.

(** One iteration of [for (const event of timedEvents)]: the state is
    [(currentTime, freeBlocks)]. *)
Definition free_step (now : Z) (st : Z * list FreeBlock) (event : GoogleEvent)
  : Z * list FreeBlock :=
  let '(currentTime, freeBlocks) := st in
  let eventStart := default now (g_start_dateTime event) in
  let eventEnd := default now (g_end_dateTime event) in
  let freeBlocks :=
    if currentTime <? eventStart
    then freeBlocks ++ [ {| fb_start := currentTime; fb_end := eventStart |} ]
    else freeBlocks in
  (eventEnd, freeBlocks).

Definition computeFreeBlocks (now startOfDay endOfDay : Z) (timedEvents : list GoogleEvent)
  : list FreeBlock :=
  let '(currentTime, freeBlocks) :=
    fold_left (free_step now) timedEvents (startOfDay, []) in
  if currentTime <? endOfDay
  then freeBlocks ++ [ {| fb_start := currentTime; fb_end := endOfDay |} ]
  else freeBlocks.

(** The value of [currentTime] after the loop over a prefix of the
    events. *)
Definition cursor_after (now startOfDay : Z) (timedEvents : list GoogleEvent) : Z :=
  fst (fold_left (free_step now) timedEvents (startOfDay, [])).

(** The free-block computation in the words of the specification: the
    cursor advances to [max(cursor, eventEnd)]. *)
Definition spec_free_step (now : Z) (st : Z * list FreeBlock) (event : GoogleEvent)
  : Z * list FreeBlock :=
  let '(cursor, freeBlocks) := st in
  let eventStart := default now (g_start_dateTime event) in
  let eventEnd := default now (g_end_dateTime event) in
  let freeBlocks :=
    if cursor <? eventStart
    then freeBlocks ++ [ {| fb_start := cursor; fb_end := eventStart |} ]
    else freeBlocks in
  (Z.max cursor eventEnd, freeBlocks).

Definition spec_computeFreeBlocks (now startOfDay endOfDay : Z)
    (timedEvents : list GoogleEvent) : list FreeBlock :=
  let '(cursor, freeBlocks) :=
    fold_left (spec_free_step now) timedEvents (startOfDay, []) in
  if cursor <? endOfDay
  then freeBlocks ++ [ {| fb_start := cursor; fb_end := endOfDay |} ]
  else freeBlocks.

Definition spec_cursor_after (now startOfDay : Z) (timedEvents : list GoogleEvent) : Z :=
  fst (fold_left (spec_free_step now) timedEvents (startOfDay, [])).

(** *** Rendering of [getTodaySummary] *)

(** [`${x}`] of an optional string. *)
Definition template (x : option string) : string := default "undefined" x.

Definition start_dateTime_le (a b : GoogleEvent) : Prop :=
  default 0 (g_start_dateTime a) <= default 0 (g_start_dateTime b).

#[global] Instance start_dateTime_le_dec a b : Decision (start_dateTime_le a b).
Proof. unfold start_dateTime_le. apply _. Defined.

(** [Array.prototype.sort] with the comparator [aTime - bTime]: ascending
    by start, and stable, so events with the same start keep their order.
    [insert_by_start event sorted] puts [event], which comes before the
    events of [sorted] in the array, in front of the first one that does not
    start earlier. *)
Fixpoint insert_by_start (event : GoogleEvent) (sorted : list GoogleEvent)
  : list GoogleEvent :=
  match sorted with
  | [] => [event]
  | first :: rest =>
      if decide (start_dateTime_le event first) then event :: sorted
      else first :: insert_by_start event rest
  end.

Fixpoint sort_by_start (events : list GoogleEvent) : list GoogleEvent :=
  match events with
  | [] => []
  | event :: rest => insert_by_start event (sort_by_start rest)
  end.

(** [events.filter(event => event.start?.dateTime).sort(...)] *)
Definition timedEvents_of (events : list GoogleEvent) : list GoogleEvent :=
  sort_by_start
    (List.filter (fun event => negb (CalendarEventFactory.is_none (g_start_dateTime event)))
                 events).

Record TodaySummary := {
  ts_summary : string;
  ts_eventCount : nat;
  ts_firstMeeting : option Z;
  ts_lastMeeting : option Z
}.

Section Rendering.

(** [toLocaleTimeString('en-US', {hour: '2-digit', minute: '2-digit',
    hour12: true})] and [toLocaleDateString('en-US', {weekday, month,
    day})] of the runtime, and the local midnight and 23:59:59 of the day
    of an instant. *)
Variable toLocaleTimeString : Z -> string.
Variable toLocaleDateString : Z -> string.
Variable startOfDay endOfDay : Z -> Z.

Definition timeStr (startT endT : Z) : string :=
  toLocaleTimeString startT +:+ " - " +:+ toLocaleTimeString endT.

(** The body of [timedEvents.forEach] in the BUSY section. *)
Definition render_busy (now : Z) (summary : string) (event : GoogleEvent) : string :=
  let startT := default now (g_start_dateTime event) in
  let endT := default now (g_end_dateTime event) in
  let location :=
    match g_location event with
    | Some EmptyString | None => ""
    | Some l => nl +:+ "📍 " +:+ l
    end in
  summary +:+ "🕐 " +:+ timeStr startT endT +:+ nl
          +:+ "📝 " +:+ template (g_summary event) +:+ location +:+ nl +:+ nl.

Definition durationMinutes (block : FreeBlock) : Q :=
  (inject_Z (fb_end block - fb_start block) / inject_Z (1000 * 60))%Q.

(** The body of [freeBlocks.forEach] in the FREE section. *)
Definition render_free (summary : string) (block : FreeBlock) : string :=
  if Qle_bool 15 (durationMinutes block)
  then summary +:+ "🆓 " +:+ timeStr (fb_start block) (fb_end block) +:+ nl
  else summary.

(** The FREE section appended to [summary]. *)
Definition render_free_section (summary : string) (freeBlocks : list FreeBlock) : string :=
  match freeBlocks with
  | [] => summary
  | _ => fold_left render_free freeBlocks (summary +:+ "⏰ FREE:" +:+ nl) +:+ nl
  end.

Definition header (user : User) (today : Z) : string :=
  u_name user +:+ "'s Schedule – " +:+ toLocaleDateString today.

Definition getTodaySummary (found : Outcome (option User)) (now : Z)
    (events : option (list GoogleEvent)) : TodaySummary :=
  let failed := {| ts_summary := "Failed to retrieve today's schedule.";
                   ts_eventCount := 0; ts_firstMeeting := None; ts_lastMeeting := None |} in
  match found with
  | Throws _ | Returns None => failed
  | Returns (Some user) =>
      let today := now in
      match events with
      | None | Some [] =>
          {| ts_summary := header user today +:+ nl +:+ nl
                             +:+ "No events scheduled for today.";
             ts_eventCount := 0; ts_firstMeeting := None; ts_lastMeeting := None |}
      | Some events =>
          let timedEvents := timedEvents_of events in
          match timedEvents with
          | [] =>
              {| ts_summary := header user today +:+ nl +:+ nl
                                 +:+ "No timed events scheduled for today.";
                 ts_eventCount := 0; ts_firstMeeting := None; ts_lastMeeting := None |}
          | _ =>
              let summary := header user today +:+ nl +:+ nl in
              let freeBlocks :=
                computeFreeBlocks now (startOfDay today) (endOfDay today) timedEvents in
              let summary := summary +:+ "📅 BUSY:" +:+ nl in
              let summary := fold_left (render_busy now) timedEvents summary in
              let summary := render_free_section summary freeBlocks in
              let summary :=
                summary +:+ "Total appointments: " +:+ pretty (length timedEvents) in
              {| ts_summary := summary;
                 ts_eventCount := length timedEvents;
                 ts_firstMeeting := head timedEvents ≫= g_start_dateTime;
                 ts_lastMeeting := last timedEvents ≫= g_end_dateTime |}
          end
      end
  end.

End Rendering.

(** *** Change detection *)

Inductive Change :=
  | added (event : GoogleEvent)
  | modified (event : GoogleEvent)
  | deleted (event : CalendarEvent).

#[global] Instance Change_eq_dec : EqDecision Change.
Proof. solve_decision. Defined.

(** [a > b] on JavaScript numbers. *)
Definition gt (a b : Q) : bool := negb (Qle_bool a b).

(** The [contentChanged] expression of [checkForChanges]. *)
Definition contentChanged (now : Z) (storedEvent : CalendarEvent) (googleEvent : GoogleEvent)
  : bool :=
  negb (bool_decide (Some (ce_summary storedEvent) = g_summary googleEvent))
  || negb (bool_decide (ce_description storedEvent
                        = Some (Js.or_str (g_description googleEvent) "")))
  || negb (bool_decide (ce_location storedEvent
                        = Some (Js.or_str (g_location googleEvent) "")))
  || negb (Z.eqb (ce_start_time storedEvent)
                 (Js.or_date (g_start_dateTime googleEvent) (g_start_date googleEvent) now))
  || negb (Z.eqb (ce_end_time storedEvent)
                 (Js.or_date (g_end_dateTime googleEvent) (g_end_date googleEvent) now))
  || negb (String.eqb (ce_status storedEvent) (Js.or_str (g_status googleEvent) "confirmed")).

(** [storedEvents.find(e => e.event_id === googleEvent.id)] *)
Definition find_stored (storedEvents : list CalendarEvent) (googleEvent : GoogleEvent)
  : option CalendarEvent :=
  List.find (fun e => String.eqb (ce_event_id e) (g_id googleEvent)) storedEvents.

(** The body of the first loop of [checkForChanges]. *)
Definition check_event (now : Z) (storedEvents : list CalendarEvent)
    (changes : list Change) (googleEvent : GoogleEvent) : list Change :=
  match find_stored storedEvents googleEvent with
  | None => changes ++ [added googleEvent]
  | Some storedEvent =>
      match g_updated googleEvent, ce_last_modified storedEvent with
      | Some googleUpdated, Some storedUpdated =>
          if storedUpdated <? googleUpdated then
            let timeDiff := googleUpdated - storedUpdated in
            let minutesDiff := (inject_Z timeDiff / inject_Z (1000 * 60))%Q in
            if gt minutesDiff 5 then
              if contentChanged now storedEvent googleEvent
              then changes ++ [modified googleEvent]
              else changes
            else changes
          else changes
      | _, _ => changes
      end
  end.

(** The body of the second loop of [checkForChanges]. *)
Definition check_deleted (googleEvents : list GoogleEvent)
    (changes : list Change) (storedEvent : CalendarEvent) : list Change :=
  match List.find (fun e => String.eqb (g_id e) (ce_event_id storedEvent)) googleEvents with
  | None => changes ++ [deleted storedEvent]
  | Some _ => changes
  end.

(** [checkForChanges], given what [fetchEvents] returned. *)
Definition checkForChanges (now : Z) (fetched : option (list GoogleEvent))
    (db : Table) (userId : Z) : list Change :=
  let today := now in
  let tomorrow := today + 24 * 60 * 60 * 1000 in
  match fetched with
  | None => []
  | Some googleEvents =>
      let storedEvents := findByUserIdAndDateRange db userId today tomorrow in
      let changes := fold_left (check_event now storedEvents) googleEvents [] in
      fold_left (check_deleted googleEvents) storedEvents changes
  end.

End CalendarService.

(* ------------------------------------------------------------------------- *)
(** ** WhatsAppService *)

Module WhatsAppService.

Import CalendarService.

Record Credentials := {
  accountSid : string;
  authToken : string;
  fromNumber : string
}.

(** What the outside world has seen: the invocations of [sendMessage]
    (recipient, message) and the requests posted to the provider
    (To, Body), oldest first. *)
Record Channel := {
  calls : list (string * string);
  posts : list (string * string)
}.

(** [string | string[]] *)
Inductive Recipients :=
  | one (recipient : string)
  | many (recipients : list string).

Definition is_empty (s : string) : bool :=
  match s with EmptyString => true | _ => false end.

Section Transport.

Variable credentials : Credentials.

(** [axios.post]: whether the request resolves ([true]) or rejects
    ([false]), which may depend on the requests posted before it. *)
Variable post : list (string * string) -> string -> string -> bool.

(** [toLocaleTimeString('en-US', {hour: 'numeric', minute: '2-digit',
    hour12: true})] *)
Variable toLocaleTimeString : Z -> string.

(** [sendMessage]: every error is caught and turned into [false]. *)
Definition sendMessage (recipient message : string) (ch : Channel) : bool * Channel :=
  let called := calls ch ++ [(recipient, message)] in
  if is_empty (accountSid credentials) || is_empty (authToken credentials)
     || is_empty (fromNumber credentials)
  then (false, {| calls := called; posts := posts ch |})
  else
    let formattedRecipient :=
      if String.prefix "whatsapp:" recipient then recipient
      else "whatsapp:" +:+ recipient in
    (post (posts ch) formattedRecipient message,
     {| calls := called; posts := posts ch ++ [(formattedRecipient, message)] |}).

(** [recipientArray.map(recipient => this.sendMessage(recipient, message))]
    under [Promise.allSettled]: every call is started, in order, and its
    outcome collected. *)
Fixpoint send_all (recipientArray : list string) (message : string) (ch : Channel)
  : list bool * Channel :=
  match recipientArray with
  | [] => ([], ch)
  | recipient :: rest =>
      let '(result, ch) := sendMessage recipient message ch in
      let '(results, ch) := send_all rest message ch in
      (result :: results, ch)
  end.

Definition recipientArray_of (recipients : Recipients) : list string :=
  match recipients with
  | one recipient => [recipient]
  | many l => l
  end.

Definition successCount (results : list bool) : nat :=
  length (List.filter (fun result => result) results).

Definition fan_out (recipients : Recipients) (message : string) (ch : Channel)
  : bool * Channel :=
  let '(results, ch) := send_all (recipientArray_of recipients) message ch in
  (Nat.ltb 0 (successCount results), ch).

Definition sendDailySummary (recipients : Recipients) (summary : string) (ch : Channel)
  : bool * Channel :=
  let message := "📅 *Daily Schedule Summary*" +:+ nl +:+ nl +:+ summary in
  fan_out recipients message ch.

(** One iteration of [for (const change of changes)]. *)
Definition render_change (message : string) (change : Change) : string :=
  let message :=
    match change with
    | added event =>
        let message :=
          message +:+ "➕ *New Event:* " +:+ template (g_summary event) +:+ nl in
        match g_start_dateTime event with
        | Some t => message +:+ "⏰ Time: " +:+ toLocaleTimeString t +:+ nl
        | None => message
        end
    | modified event =>
        message +:+ "✏️ *Modified Event:* " +:+ template (g_summary event) +:+ nl
    | deleted event =>
        message +:+ "❌ *Cancelled Event:* " +:+ ce_summary event +:+ nl
    end in
  message +:+ nl.

Definition sendChangeNotification (recipients : Recipients) (changes : list Change)
    (ch : Channel) : bool * Channel :=
  let message :=
    fold_left render_change changes ("🔄 *Calendar Changes Detected*" +:+ nl +:+ nl) in
  fan_out recipients message ch.

Definition sendErrorNotification (recipient errorMessage : string) (ch : Channel)
  : bool * Channel :=
  let message :=
    "⚠️ *System Error*" +:+ nl +:+ nl +:+ "An error occurred: " +:+ errorMessage
    +:+ nl +:+ nl +:+ "Please check your settings or contact support." in
  sendMessage recipient message ch.

End Transport.

End WhatsAppService.

(* ------------------------------------------------------------------------- *)
(** ** AutomationService *)

Module AutomationService.

Import CalendarEventModel CalendarService.

(** *** The per-user timers *)

(** A task created by [cron.schedule]; its handle is its position in the
    list of all tasks ever created. *)
Record CronTask := {
  ct_userId : Z;
  ct_daily_summary_time : string;
  ct_timezone : string;
  ct_running : bool
}.

(** [jobs] is the [Map] of the service, keyed by the user id (whose
    [toString()] is the key in the source); [cron] is the scheduler
    library's side: every task created so far. *)
Record Scheduler := {
  jobs : gmap Z nat;
  cron : list CronTask
}.

Definition initial : Scheduler := {| jobs := ∅; cron := [] |}.

(** [job.stop()] *)
Definition stop_task (task : CronTask) : CronTask :=
  {| ct_userId := ct_userId task;
     ct_daily_summary_time := ct_daily_summary_time task;
     ct_timezone := ct_timezone task;
     ct_running := false |}.

Definition stopUserAutomation (userId : Z) (st : Scheduler) : Scheduler :=
  match jobs st !! userId with
  | Some job => {| jobs := delete userId (jobs st);
                   cron := alter stop_task job (cron st) |}
  | None => st
  end.

(** The timers of a user that are running. *)
Definition active_timers (st : Scheduler) (userId : Z) : list CronTask :=
  List.filter (fun task => ct_running task && Z.eqb (ct_userId task) userId) (cron st).

Section Cron.

(** Whether splitting [daily_summary_time] and [cron.schedule] on the
    resulting expression and time zone go through; they throw otherwise. *)
Variable cron_accepts : string -> string -> bool.

Definition startUserAutomation (found : Outcome (option User)) (userId : Z)
    (st : Scheduler) : Scheduler :=
  match found with
  | Throws _ => st
  | Returns None => st
  | Returns (Some user) =>
      if negb (u_automation_enabled user) then st
      else
        let st := stopUserAutomation userId st in
        let timezone := Js.or_str (u_timezone user) "America/New_York" in
        if cron_accepts (u_daily_summary_time user) timezone then
          let job := length (cron st) in
          {| jobs := <[userId := job]> (jobs st);
             cron := cron st ++ [ {| ct_userId := userId;
                                     ct_daily_summary_time := u_daily_summary_time user;
                                     ct_timezone := timezone;
                                     ct_running := true |} ] |}
        else st
  end.

(** [stopAllAutomations], on the per-user timers. *)
Definition stopAllAutomations (st : Scheduler) : Scheduler :=
  {| jobs := ∅;
     cron := foldr (fun entry tasks => alter stop_task (snd entry) tasks)
                   (cron st) (map_to_list (jobs st)) |}.

Inductive Call :=
  | call_start (found : Outcome (option User)) (userId : Z)
  | call_stop (userId : Z)
  | call_stopAll.

Definition run_call (st : Scheduler) (c : Call) : Scheduler :=
  match c with
  | call_start found userId => startUserAutomation found userId st
  | call_stop userId => stopUserAutomation userId st
  | call_stopAll => stopAllAutomations st
  end.

(** The scheduler after a sequence of calls on a fresh service. *)
Definition run (calls : list Call) : Scheduler := fold_left run_call calls initial.

End Cron.

(** *** Change polling *)

Record World := {
  w_db : Table;
  w_channel : WhatsAppService.Channel
}.

(** [processChanges]: the loop stops at the first call that throws (the
    enclosing [try] logs the error); [markAsCancelled] throws when it
    updated no row. *)
Fixpoint processChanges {schema : Schema} (now : Z) (userId : Z) (changes : list Change)
    (db : Table) : Table :=
  match changes with
  | [] => db
  | added event :: rest | modified event :: rest =>
      processChanges now userId rest (syncEvents now userId [event] db)
  | deleted event :: rest =>
      let db' := markAsCancelled now userId (ce_event_id event) db in
      match markAsCancelled_returning now userId (ce_event_id event) db with
      | Some _ => processChanges now userId rest db'
      | None => db'
      end
  end.

Section Polling.

Context {schema : Schema}.
Variable credentials : WhatsAppService.Credentials.
Variable post : list (string * string) -> string -> string -> bool.
Variable toLocaleTimeString : Z -> string.

(** [process.env['DEFAULT_WHATSAPP_RECIPIENT']] *)
Variable DEFAULT_WHATSAPP_RECIPIENT : option string.

(** [user.whatsapp_recipients || [DEFAULT_WHATSAPP_RECIPIENT || '']] *)
Definition recipients_of (user : User) : list string :=
  match u_whatsapp_recipients user with
  | Some l => l
  | None => [Js.or_str DEFAULT_WHATSAPP_RECIPIENT ""]
  end.

(** [checkUserForChanges], given the answer of the remote feed. *)
Definition checkUserForChanges (now : Z) (user : User)
    (response : Outcome (option (list GoogleEvent))) (w : World) : World :=
  let changes := checkForChanges now (fetchEvents response) (w_db w) (u_id user) in
  if Nat.ltb 0 (length changes) then
    let '(_, channel) :=
      WhatsAppService.sendChangeNotification credentials post toLocaleTimeString
        (WhatsAppService.many (recipients_of user)) changes (w_channel w) in
    {| w_db := processChanges now (u_id user) changes (w_db w);
       w_channel := channel |}
  else w.

End Polling.

(** *** The daily summary and its manual trigger *)

(** What a run did towards the recipients. *)
Inductive Action :=
  | summary_sent (recipients : list string) (summary : string) (result : bool)
  | error_notified (recipient : string) (errorMessage : string).

(** A computation that logs actions and returns or throws. *)
Definition Task (A : Type) : Type := list Action * Outcome A.

Definition ret {A} (a : A) : Task A := ([], Returns a).

Definition bind {A B} (m : Task A) (k : A -> Task B) : Task B :=
  match m with
  | (log, Returns a) => let '(log', r) := k a in (log ++ log', r)
  | (log, Throws error) => (log, Throws error)
  end.

(** [await] of a collaborator's promise. *)
Definition await {A} (o : Outcome A) : Task A := ([], o).

Definition emit (a : Action) : Task unit := ([a], Returns tt).

(** [try { body } catch (error) { handler }] *)
Definition try_catch {A} (body : Task A) (handler : string -> Task A) : Task A :=
  match body with
  | (log, Returns a) => (log, Returns a)
  | (log, Throws error) => let '(log', r) := handler error in (log ++ log', r)
  end.

(** The collaborators of one run of [sendDailySummary]: the two user
    lookups, the summary builder and the two senders. Each may resolve or
    reject. *)
Record Collaborators := {
  findById : Outcome (option User);
  getTodaySummary : Outcome string;
  whatsapp_sendDailySummary : list string -> string -> Outcome bool;
  findById_in_catch : Outcome (option User);
  whatsapp_sendErrorNotification : string -> string -> Outcome bool
}.

Record TriggerResult := {
  success : bool;
  message : option string;
  error : option string
}.

Section Summary.

Variable DEFAULT_WHATSAPP_RECIPIENT : option string.

Definition sendDailySummary (c : Collaborators) (userId : Z) : Task unit :=
  try_catch
    (bind (await (findById c)) (fun user =>
       match user with
       | None => ret tt
       | Some user =>
           if negb (u_automation_enabled user) then ret tt
           else
             bind (await (getTodaySummary c)) (fun summary =>
             let recipients := recipients_of DEFAULT_WHATSAPP_RECIPIENT user in
             bind (await (whatsapp_sendDailySummary c recipients summary)) (fun result =>
             emit (summary_sent recipients summary result)))
       end))
    (fun error =>
       try_catch
         (bind (await (findById_in_catch c)) (fun user =>
            match user with
            | None => ret tt
            | Some user =>
                let recipients := recipients_of DEFAULT_WHATSAPP_RECIPIENT user in
                match recipients with
                | recipient :: _ =>
                    if WhatsAppService.is_empty recipient then ret tt
                    else
                      bind (await (whatsapp_sendErrorNotification c recipient error))
                           (fun _ => emit (error_notified recipient error))
                | [] => ret tt
                end
            end))
         (fun notifyError => ret tt)).

Definition triggerDailySummary (c : Collaborators) (userId : Z) : Task TriggerResult :=
  try_catch
    (bind (sendDailySummary c userId) (fun _ =>
       ret {| success := true;
              message := Some "Daily summary sent successfully";
              error := None |}))
    (fun error =>
       ret {| success := false; message := None; error := Some error |}).

End Summary.

End AutomationService.

From Stdlib Require Import Qround.

(* ------------------------------------------------------------------------- *)
(** ** CalendarEventModel: the other queries *)

Module CalendarEventQueries.

Import CalendarEventModel.

(** [findUpcomingEvents(userId, hours = 24)] *)
Definition findUpcomingEvents (db : Table) (userId now hours : Z) : list CalendarEvent :=
  let endTime := now + hours * 60 * 60 * 1000 in
  findByUserIdAndDateRange db userId now endTime.

(** [deleteByUserIdAndEventId]: the table after the [DELETE], and
    [(result.rowCount ?? 0) > 0]. *)
Definition deleteByUserIdAndEventId (db : Table) (userId : Z) (eventId : string)
  : Table * bool :=
  let rowCount := length (List.filter (has_key userId eventId) db) in
  (List.filter (fun row => negb (has_key userId eventId row)) db, Nat.ltb 0 rowCount).

(** [countByUserId]: [SELECT COUNT( * ) ... WHERE user_id = $1]. *)
Definition countByUserId (db : Table) (userId : Z) : nat :=
  length (List.filter (fun row => Z.eqb (ce_user_id row) userId) db).

End CalendarEventQueries.

(* ------------------------------------------------------------------------- *)
(** ** CalendarEventFactory: the helpers on stored events *)

Module CalendarEventHelpers.

(** [Math.round]: the nearest integer, halves towards plus infinity. *)
Definition Math_round (x : Q) : Z := Qfloor (x + (1 # 2))%Q.

(** [isUpcoming(event, hours = 24)] *)
Definition isUpcoming (now : Z) (event : CalendarEvent) (hours : Z) : bool :=
  let timeDiff := ce_start_time event - now in
  let hoursDiff := (inject_Z timeDiff / inject_Z (1000 * 60 * 60))%Q in
  Qle_bool 0 hoursDiff && Qle_bool hoursDiff (inject_Z hours).

Definition getDuration (event : CalendarEvent) : Z :=
  ce_end_time event - ce_start_time event.

Definition getDurationInMinutes (event : CalendarEvent) : Z :=
  Math_round (inject_Z (getDuration event) / inject_Z (1000 * 60))%Q.

Definition filterByDateRange (events : list CalendarEvent) (startDate endDate : Z)
  : list CalendarEvent :=
  List.filter
    (fun event =>
       let eventStart := ce_start_time event in
       (startDate <=? eventStart) && (eventStart <? endDate))
    events.

End CalendarEventHelpers.

(* ------------------------------------------------------------------------- *)
(** ** WhatsAppService: phone numbers *)

Module PhoneNumber.

Definition is_digit (c : ascii) : bool :=
  let n := nat_of_ascii c in
  Nat.leb 48 n && Nat.leb n 57.

(** [phoneNumber.replace(/\D/g, '')] *)
Fixpoint cleanNumber (phoneNumber : string) : string :=
  match phoneNumber with
  | EmptyString => EmptyString
  | String c rest =>
      if is_digit c then String c (cleanNumber rest) else cleanNumber rest
  end.

Definition validatePhoneNumber (phoneNumber : string) : bool :=
  let cleanNumber := cleanNumber phoneNumber in
  Nat.leb 10 (String.length cleanNumber) && Nat.leb (String.length cleanNumber) 15.

Definition formatPhoneNumber (phoneNumber : string) : string :=
  let cleanNumber := cleanNumber phoneNumber in
  if Nat.eqb (String.length cleanNumber) 10 then "+1" +:+ cleanNumber
  else if Nat.eqb (String.length cleanNumber) 11 && String.prefix "1" cleanNumber
       then "+" +:+ cleanNumber
  else if String.prefix "+" cleanNumber then cleanNumber
  else "+" +:+ cleanNumber.

End PhoneNumber.

(* ------------------------------------------------------------------------- *)
(** ** AutomationService: the sweep, the status and the start of all users *)

Module AutomationSweep.

Import CalendarEventModel CalendarService AutomationService.

(** The timers made by [setInterval]: [changeCheckInterval] is the field of
    the service, [intervals] the runtime's side, one flag per interval ever
    set, [true] while it fires. *)
Record Intervals := {
  changeCheckInterval : option nat;
  intervals : list bool
}.

Definition startChangeDetection (t : Intervals) : Intervals :=
  {| changeCheckInterval := Some (length (intervals t));
     intervals := intervals t ++ [true] |}.

Definition stopChangeDetection (t : Intervals) : Intervals :=
  match changeCheckInterval t with
  | Some handle => {| changeCheckInterval := None;
                      intervals := <[handle := false]> (intervals t) |}
  | None => t
  end.

(** The intervals that still fire. *)
Definition active_intervals (t : Intervals) : nat :=
  length (List.filter (fun active => active) (intervals t)).

Record AutomationStatus := {
  automationEnabled : bool;
  dailySummaryTime : string;
  timezone : option string;
  jobActive : bool;
  changeDetectionActive : bool
}.

(** [getAutomationStatus], for a lookup that resolved: the status, or
    [{error: 'User not found'}]. *)
Definition getAutomationStatus (found : option User) (userId : Z)
    (st : Scheduler) (t : Intervals) : AutomationStatus + string :=
  match found with
  | None => inr "User not found"
  | Some user =>
      inl {| automationEnabled := u_automation_enabled user;
             dailySummaryTime := u_daily_summary_time user;
             timezone := u_timezone user;
             jobActive := bool_decide (is_Some (jobs st !! userId));
             changeDetectionActive := bool_decide (is_Some (changeCheckInterval t)) |}
  end.

Section Sweep.

Context {schema : Schema}.
Variable cron_accepts : string -> string -> bool.
Variable credentials : WhatsAppService.Credentials.
Variable post : list (string * string) -> string -> string -> bool.
Variable toLocaleTimeString : Z -> string.
Variable DEFAULT_WHATSAPP_RECIPIENT : option string.

(** [startAllAutomations]: [enabledUsers] is the answer of
    [findAutomationEnabled], [findById] the answers of the lookups that each
    [startUserAutomation] makes. *)
Definition startAllAutomations (enabledUsers : Outcome (list User))
    (findById : Z -> Outcome (option User)) (st : Scheduler) (t : Intervals)
  : Scheduler * Intervals :=
  match enabledUsers with
  | Throws _ => (st, t)
  | Returns users =>
      (fold_left
         (fun st user => startUserAutomation cron_accepts (findById (u_id user)) (u_id user) st)
         users st,
       startChangeDetection t)
  end.

(** [checkAllUsersForChanges]: one pass per enabled user, in order;
    [feed] gives the answer of the remote source for each user. *)
Definition checkAllUsersForChanges (now : Z) (enabledUsers : Outcome (list User))
    (feed : Z -> Outcome (option (list GoogleEvent))) (w : World) : World :=
  match enabledUsers with
  | Throws _ => w
  | Returns users =>
      fold_left
        (fun w user =>
           checkUserForChanges credentials post toLocaleTimeString
             DEFAULT_WHATSAPP_RECIPIENT now user (feed (u_id user)) w)
        users w
  end.

End Sweep.

End AutomationSweep.

(* ------------------------------------------------------------------------- *)
(** ** Vocabulary of the statements *)

(** [keyword] occurs in [text] as a contiguous substring. *)
Definition occurs_in (keyword text : string) : Prop :=
  exists before after, text = before +:+ keyword +:+ after.

(** The comparison of [upsert] as the specification words it: the compared
    content of the incoming event (summary, description, location, start
    time, end time, status, attendees), as the table holds it, differs from
    the stored row. *)
Definition spec_content_differs (stored : CalendarEvent) (eventData : CreateEventData)
  : Prop :=
  ce_summary stored <> ed_summary eventData
  \/ ce_description stored <> Js.to_column (ed_description eventData)
  \/ ce_location stored <> Js.to_column (ed_location eventData)
  \/ ce_start_time stored <> ed_startTime eventData
  \/ ce_end_time stored <> ed_endTime eventData
  \/ ce_status stored <> ed_status eventData
  \/ ce_attendees stored <> default [] (ed_attendees eventData).

(** The field-level comparison of the change detector as the specification
    words it: the fresh event, brought into the shape in which snapshots are
    stored (a missing summary is ['No Title'], a missing description or
    location the empty string, a missing status ['confirmed']), differs from
    the stored snapshot on one of summary, description, location, start time,
    end time, status. *)
Definition spec_fields_differ (now : Z) (stored : CalendarEvent) (googleEvent : GoogleEvent)
  : Prop :=
  ce_summary stored <> Js.or_str (g_summary googleEvent) "No Title"
  \/ ce_description stored <> Some (Js.or_str (g_description googleEvent) "")
  \/ ce_location stored <> Some (Js.or_str (g_location googleEvent) "")
  \/ ce_start_time stored
     <> Js.or_date (g_start_dateTime googleEvent) (g_start_date googleEvent) now
  \/ ce_end_time stored
     <> Js.or_date (g_end_dateTime googleEvent) (g_end_date googleEvent) now
  \/ ce_status stored <> Js.or_str (g_status googleEvent) "confirmed".

(** The remote [updated] instant is later than the stored [last_modified]
    by more than five minutes. *)
Definition past_debounce (stored : CalendarEvent) (googleEvent : GoogleEvent) : Prop :=
  exists googleUpdated storedUpdated,
    g_updated googleEvent = Some googleUpdated
    /\ ce_last_modified stored = Some storedUpdated
    /\ googleUpdated - storedUpdated > 5 * 60 * 1000.

(** No event ends before the cursor has reached it: the first event ends at
    or after [cursor], and each event ends at or after the one before. *)
Fixpoint ends_in_order (now cursor : Z) (timedEvents : list GoogleEvent) : Prop :=
  match timedEvents with
  | [] => True
  | event :: rest =>
      cursor <= default now (g_end_dateTime event)
      /\ ends_in_order now (default now (g_end_dateTime event)) rest
  end.

(** A free block lasts at least 15 minutes. *)
Definition above_floor (block : CalendarService.FreeBlock) : bool :=
  15 * 60 * 1000 <=? CalendarService.fb_end block - CalendarService.fb_start block.

(** The lines of the FREE section for the given blocks, one per block. *)
Fixpoint free_lines (toLocaleTimeString : Z -> string)
    (blocks : list CalendarService.FreeBlock) : string :=
  match blocks with
  | [] => ""
  | block :: rest =>
      ("🆓 " +:+ CalendarService.timeStr toLocaleTimeString
                   (CalendarService.fb_start block) (CalendarService.fb_end block)
             +:+ CalendarService.nl)
      +:+ free_lines toLocaleTimeString rest
  end.

(** The three credentials are set. *)
Definition configured (credentials : WhatsAppService.Credentials) : bool :=
  negb (WhatsAppService.is_empty (WhatsAppService.accountSid credentials)
        || WhatsAppService.is_empty (WhatsAppService.authToken credentials)
        || WhatsAppService.is_empty (WhatsAppService.fromNumber credentials)).

(** The request that [sendMessage] posts for a recipient. *)
Definition request_of (message recipient : string) : string * string :=
  (if String.prefix "whatsapp:" recipient then recipient else "whatsapp:" +:+ recipient,
   message).

(** [result] is the outcome of a fan-out of [message] over [recipientArray]
    from the channel [ch]: [sendMessage] was invoked once per recipient, in
    order; with credentials one request per recipient was posted, whatever the
    fate of the others; and the result is [true] exactly when the provider
    accepted the request of at least one recipient. *)
Definition fans_out (credentials : WhatsAppService.Credentials)
    (post : list (string * string) -> string -> string -> bool)
    (recipientArray : list string) (message : string)
    (ch : WhatsAppService.Channel) (result : bool * WhatsAppService.Channel) : Prop :=
  WhatsAppService.calls (snd result)
  = WhatsAppService.calls ch ++ List.map (fun recipient => (recipient, message)) recipientArray
  /\ WhatsAppService.posts (snd result)
     = WhatsAppService.posts ch
       ++ (if configured credentials then List.map (request_of message) recipientArray else [])
  /\ (fst result = true
      <-> configured credentials = true
          /\ exists i recipient,
               recipientArray !! i = Some recipient
               /\ post (WhatsAppService.posts ch
                        ++ List.map (request_of message) (take i recipientArray))
                       (fst (request_of message recipient)) message = true).

(** The [jobs] map and the running tasks of the scheduler library agree:
    every running task is the registered job of its user, and every
    registered job is a running task of that user. *)
Definition consistent (st : AutomationService.Scheduler) : Prop :=
  (forall job task,
     AutomationService.cron st !! job = Some task ->
     AutomationService.ct_running task = true ->
     AutomationService.jobs st !! AutomationService.ct_userId task = Some job)
  /\ (forall userId job,
        AutomationService.jobs st !! userId = Some job ->
        exists task,
          AutomationService.cron st !! job = Some task
          /\ AutomationService.ct_userId task = userId
          /\ AutomationService.ct_running task = true).

(* ------------------------------------------------------------------------- *)
(** ** Example data *)

Definition example_stored : CalendarEvent :=
  {| ce_user_id := 1; ce_event_id := "e1"; ce_summary := "Standup";
     ce_description := Some ""; ce_location := Some "";
     ce_start_time := 3600000; ce_end_time := 7200000; ce_all_day := false;
     ce_event_type := "WORK"; ce_status := "confirmed";
     ce_attendees := []; ce_last_modified := Some 0 |}.

(** The remote copy of [example_stored], retitled, touched at [updated]. *)
Definition example_fresh (updated : Z) : GoogleEvent :=
  {| g_id := "e1"; g_summary := Some "Standup (moved)";
     g_description := None; g_location := None;
     g_start_dateTime := Some 3600000; g_start_date := None;
     g_end_dateTime := Some 7200000; g_end_date := None;
     g_status := Some "confirmed"; g_updated := Some updated; g_attendees := None |}.

(** The remote copy of [example_stored] with the same content, touched at
    [updated]. *)
Definition example_touched (updated : Z) : GoogleEvent :=
  {| g_id := "e1"; g_summary := Some "Standup";
     g_description := None; g_location := None;
     g_start_dateTime := Some 3600000; g_start_date := None;
     g_end_dateTime := Some 7200000; g_end_date := None;
     g_status := None; g_updated := Some updated; g_attendees := None |}.

(** The snapshot that the sync path stores for an event without a title. *)
Definition untitled_stored : CalendarEvent :=
  {| ce_user_id := 1; ce_event_id := "e3"; ce_summary := "No Title";
     ce_description := Some ""; ce_location := Some "";
     ce_start_time := 3600000; ce_end_time := 7200000; ce_all_day := false;
     ce_event_type := "WORK"; ce_status := "confirmed";
     ce_attendees := []; ce_last_modified := Some 0 |}.

(** The remote event without a title, touched at [updated]. *)
Definition untitled_touched (updated : Z) : GoogleEvent :=
  {| g_id := "e3"; g_summary := None;
     g_description := None; g_location := None;
     g_start_dateTime := Some 3600000; g_start_date := None;
     g_end_dateTime := Some 7200000; g_end_date := None;
     g_status := Some "confirmed"; g_updated := Some updated; g_attendees := None |}.

(** Data for [upsert] that leaves out the description. *)
Definition data_without_description : CreateEventData :=
  {| ed_userId := 1; ed_eventId := "e4"; ed_summary := "Lunch";
     ed_description := Js.undefined; ed_location := Js.given (Some "Canteen");
     ed_startTime := 1000; ed_endTime := 2000; ed_allDay := false;
     ed_eventType := "personal"; ed_status := "confirmed";
     ed_attendees := Some [] |}.

Definition example_user : User :=
  {| u_id := 1; u_name := "Ada"; u_automation_enabled := true;
     u_daily_summary_time := "08:00"; u_timezone := Some "Europe/Paris";
     u_whatsapp_recipients := Some ["+15550001"; "+15550002"; "+15550003"] |}.

Definition example_credentials : WhatsAppService.Credentials :=
  {| WhatsAppService.accountSid := "AC1";
     WhatsAppService.authToken := "token";
     WhatsAppService.fromNumber := "whatsapp:+15550000" |}.

(** A provider that rejects the requests to one recipient. *)
Definition example_post (history : list (string * string)) (to body : string) : bool :=
  negb (String.eqb to "whatsapp:+15550002").

Definition example_time (t : Z) : string := pretty t.

Definition example_world : AutomationService.World :=
  {| AutomationService.w_db := [example_stored];
     AutomationService.w_channel :=
       {| WhatsAppService.calls := []; WhatsAppService.posts := [] |} |}.

Definition example_event (id : string) (startT endT : Z) : GoogleEvent :=
  {| g_id := id; g_summary := Some id; g_description := None; g_location := None;
     g_start_dateTime := Some startT; g_start_date := None;
     g_end_dateTime := Some endT; g_end_date := None;
     g_status := Some "confirmed"; g_updated := None; g_attendees := None |}.

(** Milliseconds since local midnight. *)
Definition hm (hours minutes : Z) : Z := (hours * 60 + minutes) * 60 * 1000.

(** 09:00-12:00 with 10:00-11:00 nested in it. *)
Definition nested_day : list GoogleEvent :=
  [ example_event "long" (hm 9 0) (hm 12 0); example_event "short" (hm 10 0) (hm 11 0) ].

(** 09:00-10:00, then a 14-minute gap, 10:14-11:00, then a 15-minute gap,
    11:15-23:59:59. *)
Definition gaps_day : list GoogleEvent :=
  [ example_event "a" (hm 9 0) (hm 10 0);
    example_event "b" (hm 10 14) (hm 11 0);
    example_event "c" (hm 11 15) (hm 23 59 + 59000) ].

(** The example user with automation switched off. *)
Definition disabled_user : User :=
  {| u_id := 1; u_name := "Ada"; u_automation_enabled := false;
     u_daily_summary_time := "08:00"; u_timezone := Some "Europe/Paris";
     u_whatsapp_recipients := Some ["+15550001"] |}.

(** A scheduler library that accepts every schedule. *)
Definition accept_all (daily_summary_time timezone : string) : bool := true.

(** A run in which the summary reaches the recipients. *)
Definition delivered_run : AutomationService.Collaborators :=
  {| AutomationService.findById := Returns (Some example_user);
     AutomationService.getTodaySummary := Returns "schedule";
     AutomationService.whatsapp_sendDailySummary := fun _ _ => Returns true;
     AutomationService.findById_in_catch := Returns (Some example_user);
     AutomationService.whatsapp_sendErrorNotification := fun _ _ => Returns true |}.

(** A run in which the user does not exist. *)
Definition missing_user_run : AutomationService.Collaborators :=
  {| AutomationService.findById := Returns None;
     AutomationService.getTodaySummary := Returns "schedule";
     AutomationService.whatsapp_sendDailySummary := fun _ _ => Returns true;
     AutomationService.findById_in_catch := Returns None;
     AutomationService.whatsapp_sendErrorNotification := fun _ _ => Returns true |}.

(** A run in which every collaborator throws. *)
Definition failing_run : AutomationService.Collaborators :=
  {| AutomationService.findById := Throws "connection lost";
     AutomationService.getTodaySummary := Throws "no summary";
     AutomationService.whatsapp_sendDailySummary := fun _ _ => Throws "send failed";
     AutomationService.findById_in_catch := Throws "connection lost";
     AutomationService.whatsapp_sendErrorNotification := fun _ _ => Throws "send failed" |}.

(* ------------------------------------------------------------------------- *)
(** ** Vocabulary of the further statements *)

(** The [(user_id, event_id)] pairs of the rows, in table order. *)
Definition keys (db : CalendarEventModel.Table) : list (Z * string) :=
  List.map (fun row => (ce_user_id row, ce_event_id row)) db.

(** The rows of one user, in table order. *)
Definition rows_of (userId : Z) (db : CalendarEventModel.Table) : CalendarEventModel.Table :=
  List.filter (fun row => Z.eqb (ce_user_id row) userId) db.

(** The world with the table restricted to the rows of one user. *)
Definition world_of (userId : Z) (w : AutomationService.World) : AutomationService.World :=
  {| AutomationService.w_db := rows_of userId (AutomationService.w_db w);
     AutomationService.w_channel := AutomationService.w_channel w |}.

(** The events are listed by ascending start. *)
Definition starts_in_order (now : Z) (timedEvents : list GoogleEvent) : Prop :=
  StronglySorted
    (fun a b => default now (g_start_dateTime a) <= default now (g_start_dateTime b))
    timedEvents.

(** A free block and an event do not overlap. *)
Definition apart (now : Z) (block : CalendarService.FreeBlock) (event : GoogleEvent) : Prop :=
  default now (g_end_dateTime event) <= CalendarService.fb_start block
  \/ CalendarService.fb_end block <= default now (g_start_dateTime event).


(* ------------------------------------------------------------------------- *)
(** ** Further example data *)

(** A second user, without a time zone or recipients of its own. *)
Definition other_user : User :=
  {| u_id := 2; u_name := "Bo"; u_automation_enabled := true;
     u_daily_summary_time := "09:30"; u_timezone := None;
     u_whatsapp_recipients := None |}.

(** A stored event of the second user. *)
Definition other_stored : CalendarEvent :=
  {| ce_user_id := 2; ce_event_id := "e9"; ce_summary := "Review";
     ce_description := Some ""; ce_location := Some "";
     ce_start_time := 3600000; ce_end_time := 7200000; ce_all_day := false;
     ce_event_type := "WORK"; ce_status := "confirmed";
     ce_attendees := []; ce_last_modified := Some 0 |}.

(** A stored event of the first user that starts 25 hours after instant 0. *)
Definition late_stored : CalendarEvent :=
  {| ce_user_id := 1; ce_event_id := "e7"; ce_summary := "Retro";
     ce_description := Some ""; ce_location := Some "";
     ce_start_time := 90000000; ce_end_time := 93600000; ce_all_day := false;
     ce_event_type := "WORK"; ce_status := "confirmed";
     ce_attendees := []; ce_last_modified := Some 0 |}.

(** A table with rows of both users. *)
Definition shared_world : AutomationService.World :=
  {| AutomationService.w_db := [example_stored; other_stored; late_stored];
     AutomationService.w_channel :=
       {| WhatsAppService.calls := []; WhatsAppService.posts := [] |} |}.

(** An event that began at instant 50. *)
Definition started_event : GoogleEvent := example_event "e5" 50 200.

(* ========================================================================= *)
(** * Properties *)

(** Case analysis on every [match] of the goal, outermost first. *)
Ltac destruct_matches :=
  repeat (match goal with |- context [match ?x with _ => _ end] => destruct x end).

(* ------------------------------------------------------------------------- *)
(** ** Strings *)

Lemma append_cons (x : ascii) (a b : string) : String x a +:+ b = String x (a +:+ b).
Proof. reflexivity. Qed.

Lemma append_nil_l (a : string) : "" +:+ a = a.
Proof. reflexivity. Qed.

Lemma append_assoc (a b c : string) : (a +:+ b) +:+ c = a +:+ (b +:+ c).
Proof.
  induction a as [|x a IH]; [reflexivity|].
  rewrite !append_cons. f_equal. exact IH.
Qed.

Lemma append_nil_r (a : string) : a +:+ "" = a.
Proof.
  induction a as [|x a IH]; [reflexivity|].
  rewrite append_cons. f_equal. exact IH.
Qed.

Lemma prefix_true_iff (keyword text : string) :
  String.prefix keyword text = true <-> exists after, text = keyword +:+ after.
Proof.
  revert text. induction keyword as [|c k IH]; intros text.
  - destruct text; simpl; split; eauto.
  - destruct text as [|c' t]; simpl.
    + split; [discriminate | intros [after H]; discriminate].
    + destruct (ascii_dec c c') as [->|Hne].
      * rewrite IH. split; intros [after H]; exists after;
          rewrite append_cons in *; congruence.
      * split; [discriminate | intros [after H]; rewrite append_cons in H; congruence].
Qed.

Lemma includes_eq (text keyword : string) :
  Js.includes text keyword =
  if String.prefix keyword text then true
  else match text with
       | EmptyString => false
       | String _ t => Js.includes t keyword
       end.
Proof. destruct text; reflexivity. Qed.

Lemma includes_true_iff (text keyword : string) :
  Js.includes text keyword = true <-> occurs_in keyword text.
Proof.
  induction text as [|c t IH]; rewrite includes_eq.
  - destruct (String.prefix keyword "") eqn:Hp.
    + split; [intros _ | done].
      apply prefix_true_iff in Hp as [after H]. by exists "", after.
    + split; [discriminate |].
      intros [before [after H]]. destruct before.
      * rewrite append_nil_l in H.
        assert (String.prefix keyword "" = true) by (apply prefix_true_iff; eauto).
        congruence.
      * rewrite append_cons in H. discriminate.
  - destruct (String.prefix keyword (String c t)) eqn:Hp.
    + split; [intros _ | done].
      apply prefix_true_iff in Hp as [after H]. by exists "", after.
    + rewrite IH. split.
      * intros [before [after H]]. exists (String c before), after.
        rewrite append_cons. by rewrite H.
      * intros [before [after H]]. destruct before as [|c' before].
        -- rewrite append_nil_l in H.
           assert (String.prefix keyword (String c t) = true)
             by (apply prefix_true_iff; eauto).
           congruence.
        -- rewrite append_cons in H. exists before, after. congruence.
Qed.

Lemma existsb_includes_iff (text : string) (keywords : list string) :
  existsb (fun keyword => Js.includes text keyword) keywords = true
  <-> exists keyword, keyword ∈ keywords /\ occurs_in keyword text.
Proof.
  rewrite existsb_exists. split; intros [k [Hin Hk]]; exists k.
  - by rewrite list_elem_of_In, <- includes_true_iff.
  - by rewrite <- list_elem_of_In, includes_true_iff.
Qed.

(* ------------------------------------------------------------------------- *)
(** ** The snapshot store: rows and keys *)

Section StoreFacts.

Import CalendarEventModel.

Context {schema : Schema}.

Lemma has_key_do_update now hc d row u e :
  has_key u e (do_update now hc d row) = has_key u e row.
Proof. reflexivity. Qed.

Lemma has_key_inserted_row now d :
  has_key (ed_userId d) (ed_eventId d) (inserted_row now d) = true.
Proof.
  unfold has_key; simpl. by rewrite Z.eqb_refl, String.eqb_refl.
Qed.

Lemma has_key_true u e row :
  has_key u e row = true <-> ce_user_id row = u /\ ce_event_id row = e.
Proof.
  unfold has_key. rewrite andb_true_iff, Z.eqb_eq, String.eqb_eq. tauto.
Qed.

Lemma find_map_key (f : CalendarEvent -> CalendarEvent) u e db :
  (forall row, has_key u e (f row) = has_key u e row) ->
  List.find (has_key u e) (List.map f db) = f <$> List.find (has_key u e) db.
Proof.
  intros Hf. induction db as [|row db IH]; simpl; [done|].
  rewrite Hf. destruct (has_key u e row); [done | apply IH].
Qed.

Lemma find_none_existsb (u : Z) (e : string) (db : Table) :
  List.find (has_key u e) db = None <-> existsb (has_key u e) db = false.
Proof.
  induction db as [|row db IH]; simpl; [done|].
  destruct (has_key u e row); simpl; [split; discriminate | apply IH].
Qed.

Lemma find_app_none (u : Z) (e : string) (db : Table) row :
  List.find (has_key u e) db = None ->
  List.find (has_key u e) (db ++ [row]) = List.find (has_key u e) [row].
Proof.
  induction db as [|r db IH]; simpl; [done|].
  destruct (has_key u e r); [discriminate | apply IH].
Qed.

(** What [upsert] returns, by cases on the stored row. *)
Lemma upsert_returning_eq now d db :
  upsert_returning now d db =
  Some match findByUserIdAndEventId db (ed_userId d) (ed_eventId d) with
       | Some stored => do_update now (hasChanged_against stored d) d stored
       | None => inserted_row now d
       end.
Proof.
  unfold upsert_returning, upsert, insert_on_conflict, findByUserIdAndEventId.
  destruct (List.find _ db) as [stored|] eqn:Hfind.
  - assert (existsb (has_key (ed_userId d) (ed_eventId d)) db = true) as ->.
    { destruct (existsb _ db) eqn:Hex; [done|].
      apply find_none_existsb in Hex. congruence. }
    rewrite (find_map_key
               (fun row => if has_key (ed_userId d) (ed_eventId d) row
                           then do_update now (hasChanged_against stored d) d row
                           else row)).
    + rewrite Hfind. simpl. apply find_some in Hfind as [_ ->]. done.
    + intros row. destruct (has_key _ _ row) eqn:Hk; [|done].
      by rewrite has_key_do_update.
  - pose proof Hfind as Hex. apply find_none_existsb in Hex. rewrite Hex.
    rewrite find_app_none by done. simpl. by rewrite has_key_inserted_row.
Qed.

(** After [upsert], every row under the key carries the incoming
    columns. *)
Lemma upsert_rows_of_key now d db row :
  row ∈ upsert now d db ->
  has_key (ed_userId d) (ed_eventId d) row = true ->
  exists hc last,
    row = {| ce_user_id := ed_userId d; ce_event_id := ed_eventId d;
             ce_summary := ed_summary d;
             ce_description := Js.to_column (ed_description d);
             ce_location := Js.to_column (ed_location d);
             ce_start_time := ed_startTime d;
             ce_end_time := ed_endTime d; ce_all_day := ed_allDay d;
             ce_event_type := ed_eventType d; ce_status := ed_status d;
             ce_attendees := default [] (ed_attendees d);
             ce_last_modified := if hc : bool then Some now else last |}.
Proof.
  unfold upsert, insert_on_conflict.
  destruct (existsb _ db) eqn:Hex.
  - intros Hin Hk. apply list_elem_of_fmap in Hin as [r [-> Hr]].
    destruct (has_key _ _ r) eqn:Hkr; [|congruence].
    apply has_key_true in Hkr as [Hu He].
    eexists _, (ce_last_modified r). unfold do_update. by rewrite Hu, He.
  - intros Hin Hk. apply elem_of_app in Hin as [Hin|Hin].
    + apply list_elem_of_In in Hin.
      rewrite <- find_none_existsb in Hex.
      pose proof (find_none _ _ Hex _ Hin). congruence.
    + apply list_elem_of_singleton in Hin as ->.
      by exists false, (last_modified_on_insert now).
Qed.

(** [upsert] leaves the rows of every other key as they are. *)
Lemma upsert_rows_other_key now d db row :
  has_key (ed_userId d) (ed_eventId d) row = false ->
  row ∈ upsert now d db <-> row ∈ db.
Proof.
  intros Hk. unfold upsert, insert_on_conflict.
  destruct (existsb _ db) eqn:Hex.
  - rewrite list_elem_of_fmap. split.
    + intros [r [-> Hr]]. destruct (has_key _ _ r) eqn:Hkr; [|done].
      rewrite has_key_do_update in Hk. congruence.
    + intros Hin. exists row. by rewrite Hk.
  - rewrite elem_of_app, list_elem_of_singleton. split; [|tauto].
    intros [ ? | -> ]; [done|]. rewrite has_key_inserted_row in Hk. discriminate.
Qed.

Lemma upsert_key_present now d db :
  existsb (has_key (ed_userId d) (ed_eventId d)) (upsert now d db) = true.
Proof.
  pose proof (upsert_returning_eq now d db) as H.
  unfold upsert_returning, findByUserIdAndEventId in H.
  destruct (existsb _ (upsert now d db)) eqn:Hex; [done|].
  apply find_none_existsb in Hex. congruence.
Qed.

End StoreFacts.

(* ------------------------------------------------------------------------- *)
(** ** Categorization of events *)

Section Categorization.

Import CalendarEventFactory CalendarEventModel CalendarService.

Context {schema : Schema}.

Lemma syncEvents_cons now userId event events db :
  syncEvents now userId (event :: events) db =
  syncEvents now userId events (upsert now (eventData_of now userId event) db).
Proof. reflexivity. Qed.

(** Every row that [syncEvents] wrote is stored with the type ['WORK']. *)
Lemma syncEvents_stores_WORK now userId events db event :
  event ∈ events ->
  exists row,
    findByUserIdAndEventId (syncEvents now userId events db) userId (g_id event) = Some row
    /\ ce_event_type row = "WORK".
Proof.
  revert db. induction events as [|e events IH]; intros db Hin.
  { by apply elem_of_nil in Hin. }
  rewrite syncEvents_cons.
  destruct (decide (event ∈ events)) as [Hrest|Hrest]; [by apply IH|].
  apply elem_of_cons in Hin as [->|]; [|done].
  set (db1 := upsert now (eventData_of now userId e) db).
  assert (Hinv : existsb (has_key userId (g_id e)) db1 = true
                 /\ forall row, row ∈ db1 -> has_key userId (g_id e) row = true ->
                                ce_event_type row = "WORK").
  { split; [apply (upsert_key_present now (eventData_of now userId e) db)|].
    intros row Hrow Hk.
    destruct (upsert_rows_of_key now (eventData_of now userId e) db row Hrow Hk)
      as [hc [last ->]]. reflexivity. }
  clearbody db1. clear IH Hrest db.
  revert db1 Hinv. induction events as [|e' events IH]; intros db1 [Hex Hall].
  - simpl. unfold findByUserIdAndEventId.
    destruct (List.find _ db1) as [row|] eqn:Hfind.
    + exists row. split; [done|]. apply find_some in Hfind as [Hin Hk].
      apply Hall; [by apply list_elem_of_In | done].
    + apply find_none_existsb in Hfind. congruence.
  - rewrite syncEvents_cons. apply IH. split.
    + destruct (has_key (ed_userId (eventData_of now userId e'))
                        (ed_eventId (eventData_of now userId e'))
                        {| ce_user_id := userId; ce_event_id := g_id e;
                           ce_summary := ""; ce_description := None; ce_location := None;
                           ce_start_time := 0; ce_end_time := 0; ce_all_day := false;
                           ce_event_type := ""; ce_status := ""; ce_attendees := [];
                           ce_last_modified := None |}) eqn:Hsame.
      * apply has_key_true in Hsame as [_ Hid]. simpl in Hid. rewrite Hid.
        apply (upsert_key_present now (eventData_of now userId e') db1).
      * apply existsb_exists in Hex as [row [Hin Hk]].
        apply existsb_exists. exists row. split; [|done].
        apply list_elem_of_In, upsert_rows_other_key; [|by apply list_elem_of_In].
        apply has_key_true in Hk as [Hu He].
        unfold has_key in *. simpl in *. by rewrite Hu, He.
    + intros row Hrow Hk.
      destruct (has_key (ed_userId (eventData_of now userId e'))
                        (ed_eventId (eventData_of now userId e')) row) eqn:Hsame.
      * destruct (upsert_rows_of_key now _ db1 row Hrow Hsame) as [hc [last ->]].
        reflexivity.
      * apply Hall; [|done]. by apply (upsert_rows_other_key now _ db1 row Hsame).
Qed.

(** C4, as the code has it. [categorizeEvent] scans the lower-cased text
    [summary + " " + description] for the work keywords first, then the
    personal keywords, and answers UNKNOWN when neither set occurs (never
    FREE); [createFromGoogleEvent] stores that category. The sync path
    [syncEvents], which persists the detected added and modified events,
    does not categorize: every row it writes has the type ['WORK']. *)
Theorem categorizeEvent_and_sync_path
    (summary : string) (description : option string)
    (now userId : Z) (events : list GoogleEvent) (db : Table) (event : GoogleEvent)
    (Hin : event ∈ events) :
  let text := Js.toLowerCase (summary +:+ " " +:+ Js.or_str description "") in
  let work := exists k, k ∈ workKeywords /\ occurs_in k text in
  let personal := exists k, k ∈ personalKeywords /\ occurs_in k text in
  (categorizeEvent summary description = WORK <-> work)
  /\ (categorizeEvent summary description = PERSONAL <-> ~ work /\ personal)
  /\ (categorizeEvent summary description = UNKNOWN <-> ~ work /\ ~ personal)
  /\ categorizeEvent summary description <> FREE
  /\ (forall eventData,
        createFromGoogleEvent userId event = Some eventData ->
        ed_eventType eventData
        = EventType_value (categorizeEvent (ed_summary eventData) (g_description event)))
  /\ (exists row,
        findByUserIdAndEventId (syncEvents now userId events db) userId (g_id event)
        = Some row
        /\ ce_event_type row = "WORK").
Proof.
  intros text work personal.
  assert (Hw : existsb (fun keyword => Js.includes text keyword) workKeywords = true <-> work)
    by apply existsb_includes_iff.
  assert (Hp : existsb (fun keyword => Js.includes text keyword) personalKeywords = true
               <-> personal)
    by apply existsb_includes_iff.
  unfold categorizeEvent, categorizeText. fold text.
  destruct (existsb _ workKeywords) eqn:Ew;
    destruct (existsb _ personalKeywords) eqn:Ep;
    (repeat split; try discriminate; try tauto;
     try (intros [? ?]; intuition congruence);
     try (intros; intuition congruence)).
  all: try (by apply syncEvents_stores_WORK).
  all: intros eventData Hc; unfold createFromGoogleEvent in Hc;
    destruct (g_summary event); simpl in Hc; [|discriminate];
    destruct (match g_start_dateTime event with Some t => Some t | None => g_start_date event end);
    simpl in Hc; [|discriminate];
    destruct (match g_end_dateTime event with Some t => Some t | None => g_end_date event end);
    simpl in Hc; [|discriminate];
    injection Hc as <-; reflexivity.
Qed.

End Categorization.

Section CategorizationExamples.

Import CalendarEventFactory CalendarEventModel CalendarService.

#[local] Existing Instance migration_schema.

(** The theorem applies: an event titled "Birthday party" is PERSONAL for
    the factory and stored as ['WORK'] by the sync path. *)
Lemma categorizeEvent_and_sync_path_witness :
  let event := {| g_id := "e1"; g_summary := Some "Birthday party";
                  g_description := None; g_location := None;
                  g_start_dateTime := Some 1000; g_start_date := None;
                  g_end_dateTime := Some 2000; g_end_date := None;
                  g_status := None; g_updated := None; g_attendees := None |} in
  categorizeEvent "Birthday party" None = PERSONAL
  /\ exists row,
       findByUserIdAndEventId (syncEvents 0 1 [event] []) 1 "e1" = Some row
       /\ ce_event_type row = "WORK".
Proof.
  intros event.
  pose proof (categorizeEvent_and_sync_path "Birthday party" None 0 1 [event] [] event
                ltac:(apply list_elem_of_singleton; reflexivity)) as H.
  cbv zeta in H.
  destruct H as (_ & _ & _ & _ & _ & Hsync).
  split; [vm_compute; reflexivity | exact Hsync].
Defined.

(** C4 as stated fails on the sync path: the event titled
    "Birthday party" is categorized PERSONAL, yet [syncEvents] stores it
    with the type ['WORK']. *)
Lemma sync_path_does_not_categorize :
  ~ (forall (schema : Schema) now userId event db row,
       findByUserIdAndEventId (syncEvents now userId [event] db) userId (g_id event)
       = Some row ->
       ce_event_type row
       = EventType_value (categorizeEvent (Js.or_str (g_summary event) "No Title")
                                          (g_description event))).
Proof.
  intros H.
  specialize (H migration_schema 0 1
                {| g_id := "e1"; g_summary := Some "Birthday party";
                       g_description := None; g_location := None;
                       g_start_dateTime := Some 1000; g_start_date := None;
                       g_end_dateTime := Some 2000; g_end_date := None;
                       g_status := None; g_updated := None; g_attendees := None |}
                [] _ eq_refl).
  vm_compute in H. discriminate H.
Qed.

End CategorizationExamples.

(* ------------------------------------------------------------------------- *)
(** ** [upsert] and [last_modified] *)

Section Upsert.

Import CalendarEventModel.

Context {schema : Schema}.

(** What the comparison of [upsert] computes: the compared content
    differs, or the data leaves out the description or the location. *)
Lemma hasChanged_against_true stored d :
  hasChanged_against stored d = true
  <-> spec_content_differs stored d
      \/ ed_description d = Js.undefined
      \/ ed_location d = Js.undefined.
Proof.
  unfold hasChanged_against, spec_content_differs.
  destruct (ed_description d) as [|description], (ed_location d) as [|location]; simpl;
    rewrite !orb_true_iff, ?negb_true_iff, ?bool_decide_eq_false,
      ?String.eqb_neq, ?Z.eqb_neq;
    intuition congruence.
Qed.

Lemma hasChanged_against_false stored d :
  hasChanged_against stored d = false
  <-> ~ spec_content_differs stored d
      /\ ed_description d <> Js.undefined
      /\ ed_location d <> Js.undefined.
Proof.
  pose proof (hasChanged_against_true stored d) as Htrue.
  destruct (hasChanged_against stored d).
  - split; [discriminate|]. intros (H1 & H2 & H3).
    destruct (proj1 Htrue eq_refl) as [?|[?|?]]; done.
  - split; [|done]. intros _.
    repeat split; intros H; assert (false = true) by (apply Htrue; tauto); discriminate.
Qed.

Lemma do_update_unchanged now d row :
  ~ spec_content_differs row d ->
  ce_all_day row = ed_allDay d ->
  ce_event_type row = ed_eventType d ->
  do_update now false d row = row.
Proof.
  unfold spec_content_differs. intros Hsame Hall Htype.
  destruct row as [u e s ds l st en ad ty sta att lm]; simpl in *.
  unfold do_update; simpl.
  destruct (decide (s = ed_summary d)); [|tauto].
  destruct (decide (ds = Js.to_column (ed_description d))); [|tauto].
  destruct (decide (l = Js.to_column (ed_location d))); [|tauto].
  destruct (decide (st = ed_startTime d)); [|tauto].
  destruct (decide (en = ed_endTime d)); [|tauto].
  destruct (decide (sta = ed_status d)); [|tauto].
  destruct (decide (att = default [] (ed_attendees d))); [|tauto].
  by subst.
Qed.

(** The row found after an [upsert] holds the data. *)
Lemma upsert_stores_data now d db :
  exists stored,
    findByUserIdAndEventId (upsert now d db) (ed_userId d) (ed_eventId d) = Some stored
    /\ ~ spec_content_differs stored d.
Proof.
  pose proof (upsert_returning_eq now d db) as Hret. unfold upsert_returning in Hret.
  eexists. split; [exact Hret|].
  destruct (findByUserIdAndEventId db _ _); unfold spec_content_differs; simpl; tauto.
Qed.

(** A second [upsert] of the same data changes no row, when the data gives
    a description and a location. *)
Lemma upsert_twice_same_table now1 now2 d db :
  ed_description d <> Js.undefined ->
  ed_location d <> Js.undefined ->
  upsert now2 d (upsert now1 d db) = upsert now1 d db.
Proof.
  intros Hdescription Hlocation.
  set (db1 := upsert now1 d db).
  assert (Hrows : forall row, row ∈ db1 ->
                    has_key (ed_userId d) (ed_eventId d) row = true ->
                    do_update now2 false d row = row).
  { intros row Hin Hk.
    destruct (upsert_rows_of_key now1 d db row Hin Hk) as [hc [last ->]].
    apply do_update_unchanged; [|done..].
    unfold spec_content_differs; simpl. tauto. }
  destruct (upsert_stores_data now1 d db) as [r1 [Hfind Hsame]]. fold db1 in Hfind.
  assert (Hunchanged : hasChanged_against r1 d = false)
    by (by apply hasChanged_against_false).
  unfold upsert at 1. rewrite Hfind, Hunchanged.
  unfold insert_on_conflict.
  rewrite (upsert_key_present now1 d db : existsb _ db1 = true).
  clearbody db1. clear Hfind.
  induction db1 as [|row rows IH]; [done|]. simpl.
  rewrite IH by (intros; apply Hrows; [by apply list_elem_of_further | done]).
  destruct (has_key _ _ row) eqn:Hk; [|done].
  rewrite Hrows; [done | apply list_elem_of_here | done].
Qed.

(** The [last_modified] of a new row is the default of the column. *)
Lemma upsert_new_row now d db :
  findByUserIdAndEventId db (ed_userId d) (ed_eventId d) = None ->
  ce_last_modified <$> upsert_returning now d db = Some (last_modified_on_insert now).
Proof. intros Hnew. by rewrite upsert_returning_eq, Hnew. Qed.

(** C9. The row that [upsert] returns, under either declaration of the
    [last_modified] column. A new row takes the default of the column: the
    current instant under the declaration of the migration script, [NULL]
    under the Prisma declaration. For a stored row, [last_modified] is set to
    the current instant when one of the compared columns (summary,
    description, location, start time, end time, status, attendees) differs,
    and also whenever the data leaves out the description or the location;
    it keeps its value, and the row its content, when nothing differs and
    both are given. So upserting the same data again leaves the table as it
    was when the description and the location are given, and otherwise
    advances [last_modified] although the stored row holds exactly the
    data. *)
Theorem upsert_last_modified (now later : Z) (eventData : CreateEventData) (db : Table) :
  (exists row,
     upsert_returning now eventData db = Some row
     /\ match findByUserIdAndEventId db (ed_userId eventData) (ed_eventId eventData) with
        | None =>
            ce_last_modified row
            = match last_modified_default with
              | DEFAULT_CURRENT_TIMESTAMP => Some now
              | NO_DEFAULT => None
              end
        | Some stored =>
            (spec_content_differs stored eventData
             \/ ed_description eventData = Js.undefined
             \/ ed_location eventData = Js.undefined ->
             ce_last_modified row = Some now)
            /\ (~ spec_content_differs stored eventData ->
                ed_description eventData <> Js.undefined ->
                ed_location eventData <> Js.undefined ->
                ce_last_modified row = ce_last_modified stored
                /\ ce_summary row = ce_summary stored
                /\ ce_description row = ce_description stored
                /\ ce_location row = ce_location stored
                /\ ce_start_time row = ce_start_time stored
                /\ ce_end_time row = ce_end_time stored
                /\ ce_status row = ce_status stored
                /\ ce_attendees row = ce_attendees stored)
        end)
  /\ (ed_description eventData <> Js.undefined ->
      ed_location eventData <> Js.undefined ->
      upsert later eventData (upsert now eventData db) = upsert now eventData db
      /\ upsert_returning later eventData (upsert now eventData db)
         = upsert_returning now eventData db)
  /\ (ed_description eventData = Js.undefined \/ ed_location eventData = Js.undefined ->
      (exists stored,
         findByUserIdAndEventId (upsert now eventData db)
           (ed_userId eventData) (ed_eventId eventData) = Some stored
         /\ ~ spec_content_differs stored eventData)
      /\ ce_last_modified <$> upsert_returning later eventData (upsert now eventData db)
         = Some (Some later)).
Proof.
  split; [|split].
  - eexists. split; [apply upsert_returning_eq|].
    destruct (findByUserIdAndEventId db _ _) as [stored|]; [|done].
    split.
    + intros Hd. apply hasChanged_against_true in Hd. simpl. by rewrite Hd.
    + intros Hd Hdescription Hlocation.
      assert (Hf : hasChanged_against stored eventData = false)
        by (by apply hasChanged_against_false).
      simpl. rewrite Hf. unfold spec_content_differs in Hd.
      destruct (decide (ce_summary stored = ed_summary eventData)); [|tauto].
      destruct (decide (ce_description stored = Js.to_column (ed_description eventData)));
        [|tauto].
      destruct (decide (ce_location stored = Js.to_column (ed_location eventData)));
        [|tauto].
      destruct (decide (ce_start_time stored = ed_startTime eventData)); [|tauto].
      destruct (decide (ce_end_time stored = ed_endTime eventData)); [|tauto].
      destruct (decide (ce_status stored = ed_status eventData)); [|tauto].
      destruct (decide (ce_attendees stored = default [] (ed_attendees eventData)));
        [|tauto].
      by repeat split.
  - intros Hdescription Hlocation.
    assert (Heq := upsert_twice_same_table now later eventData db Hdescription Hlocation).
    split; [exact Heq|].
    unfold upsert_returning at 1. rewrite Heq. reflexivity.
  - intros Homitted.
    destruct (upsert_stores_data now eventData db) as [stored [Hfind Hsame]].
    split; [by exists stored|].
    rewrite upsert_returning_eq, Hfind. simpl.
    assert (hasChanged_against stored eventData = true) as ->
      by (apply hasChanged_against_true; tauto).
    done.
Qed.

End Upsert.

Section UpsertExamples.

Import CalendarEventModel.

(** Data without a description, upserted at 77 and again at 99 into the
    table as the migration script declares it: the second [upsert] moves
    [last_modified] from 77 to 99. *)
Lemma upsert_last_modified_witness :
  (ce_last_modified
   <$> @upsert_returning migration_schema 77 data_without_description [])
  = Some (Some 77)
  /\ (ce_last_modified
      <$> @upsert_returning migration_schema 99 data_without_description
            (@upsert migration_schema 77 data_without_description []))
     = Some (Some 99).
Proof.
  split; [reflexivity|].
  exact (proj2 (proj2 (proj2
    (@upsert_last_modified migration_schema 77 99 data_without_description []))
    (or_introl eq_refl))).
Defined.

(** The same data with the description given as the empty string: the
    second [upsert] changes nothing. *)
Example upsert_given_description_idempotent :
  let eventData :=
    {| ed_userId := 1; ed_eventId := "e4"; ed_summary := "Lunch";
       ed_description := Js.given (Some ""); ed_location := Js.given (Some "Canteen");
       ed_startTime := 1000; ed_endTime := 2000; ed_allDay := false;
       ed_eventType := "personal"; ed_status := "confirmed";
       ed_attendees := Some [] |} in
  @upsert migration_schema 99 eventData (@upsert migration_schema 77 eventData [])
  = @upsert migration_schema 77 eventData [].
Proof. reflexivity. Qed.

(** Under the Prisma declaration of the column a new row is stored without
    [last_modified]. *)
Example upsert_new_row_prisma :
  ce_last_modified
  <$> @upsert_returning prisma_schema 77
        {| ed_userId := 1; ed_eventId := "e1"; ed_summary := "New";
           ed_description := Js.given (Some ""); ed_location := Js.given (Some "");
           ed_startTime := 1000; ed_endTime := 2000; ed_allDay := false;
           ed_eventType := "WORK"; ed_status := "confirmed";
           ed_attendees := Some [] |} []
  = Some None.
Proof. reflexivity. Qed.

End UpsertExamples.


(* ------------------------------------------------------------------------- *)
(** ** Change detection *)

Section ChangeDetection.

Import CalendarEventModel CalendarService.

(** The rows that the range query returns. *)
Lemma findByUserIdAndDateRange_spec db userId startDate endDate row :
  row ∈ findByUserIdAndDateRange db userId startDate endDate
  <-> row ∈ db
      /\ ce_user_id row = userId
      /\ startDate <= ce_start_time row < endDate
      /\ ce_status row <> "cancelled".
Proof.
  unfold findByUserIdAndDateRange, order_by_start_time.
  rewrite merge_sort_Permutation, !list_elem_of_In, filter_In.
  rewrite !andb_true_iff, negb_true_iff, Z.eqb_eq, Z.leb_le, Z.ltb_lt, String.eqb_neq.
  simpl. tauto.
Qed.

Lemma check_event_app now storedEvents changes googleEvent :
  check_event now storedEvents changes googleEvent
  = changes ++ check_event now storedEvents [] googleEvent.
Proof.
  unfold check_event.
  destruct_matches;
    simpl; by rewrite ?app_nil_r.
Qed.

Lemma fold_check_event now storedEvents googleEvents changes :
  fold_left (check_event now storedEvents) googleEvents changes
  = changes ++ concat (List.map (check_event now storedEvents []) googleEvents).
Proof.
  revert changes. induction googleEvents as [|g gs IH]; intros changes; simpl.
  - by rewrite app_nil_r.
  - rewrite IH, (check_event_app _ _ changes). by rewrite app_assoc.
Qed.

Lemma check_deleted_app googleEvents changes storedEvent :
  check_deleted googleEvents changes storedEvent
  = changes ++ check_deleted googleEvents [] storedEvent.
Proof.
  unfold check_deleted. destruct (List.find _ googleEvents); simpl; by rewrite ?app_nil_r.
Qed.

Lemma fold_check_deleted googleEvents storedEvents changes :
  fold_left (check_deleted googleEvents) storedEvents changes
  = changes ++ concat (List.map (check_deleted googleEvents []) storedEvents).
Proof.
  revert changes. induction storedEvents as [|s ss IH]; intros changes; simpl.
  - by rewrite app_nil_r.
  - rewrite IH, (check_deleted_app _ changes). by rewrite app_assoc.
Qed.

(** The change list: the records of the fresh events in feed order, then
    the [deleted] records in stored order. *)
Lemma checkForChanges_eq now googleEvents db userId :
  checkForChanges now (Some googleEvents) db userId
  = let storedEvents :=
      findByUserIdAndDateRange db userId now (now + 24 * 60 * 60 * 1000) in
    concat (List.map (check_event now storedEvents []) googleEvents)
    ++ concat (List.map (check_deleted googleEvents []) storedEvents).
Proof.
  unfold checkForChanges. cbv zeta. by rewrite fold_check_deleted, fold_check_event.
Qed.

Lemma elem_of_concat_map {A B} (f : A -> list B) (l : list A) (y : B) :
  y ∈ concat (List.map f l) <-> exists x, x ∈ l /\ y ∈ f x.
Proof.
  induction l as [|a l IH]; simpl.
  - split; [intros H; by apply elem_of_nil in H | intros [x [H _]]; by apply elem_of_nil in H].
  - rewrite elem_of_app, IH. split.
    + intros [H|[x [Hx Hy]]]; [exists a | exists x]; split; try done.
      * apply list_elem_of_here.
      * by apply list_elem_of_further.
    + intros [x [Hx Hy]]. apply elem_of_cons in Hx as [->|Hx]; [by left|].
      right. by exists x.
Qed.

(** More than five minutes, on the millisecond difference. *)
Lemma minutesDiff_gt_5 (timeDiff : Z) :
  gt (inject_Z timeDiff / inject_Z (1000 * 60))%Q 5 = true <-> timeDiff > 5 * 60 * 1000.
Proof.
  unfold gt. rewrite negb_true_iff.
  destruct (Qle_bool _ 5) eqn:Hle.
  - apply Qle_bool_iff in Hle. unfold Qle in Hle. simpl in Hle.
    split; [discriminate | lia].
  - split; [intros _ | done].
    destruct (Z_le_gt_dec timeDiff (5 * 60 * 1000)) as [Hd|Hd]; [|done].
    assert (Qle_bool (inject_Z timeDiff / inject_Z (1000 * 60)) 5 = true).
    { apply Qle_bool_iff. unfold Qle. simpl. lia. }
    congruence.
Qed.

(** For an event with a title the comparison of the code is the
    comparison of the specification. *)
Lemma contentChanged_titled now storedEvent googleEvent title :
  g_summary googleEvent = Some title ->
  title <> "" ->
  contentChanged now storedEvent googleEvent = true
  <-> spec_fields_differ now storedEvent googleEvent.
Proof.
  intros Htitle Hnonempty. unfold contentChanged, spec_fields_differ.
  rewrite Htitle.
  assert (Js.or_str (Some title) "No Title" = title) as ->
    by (by destruct title).
  rewrite !orb_true_iff, !negb_true_iff, !bool_decide_eq_false,
    !String.eqb_neq, !Z.eqb_neq.
  assert (Some (ce_summary storedEvent) <> Some title <-> ce_summary storedEvent <> title)
    by (split; congruence).
  tauto.
Qed.

(** For an event without a title the comparison of the code finds a
    difference: a stored summary is never [undefined], and a stored summary
    that is not empty differs from the empty string. *)
Lemma contentChanged_untitled now storedEvent googleEvent :
  g_summary googleEvent = None
  \/ (g_summary googleEvent = Some "" /\ ce_summary storedEvent <> "") ->
  contentChanged now storedEvent googleEvent = true.
Proof.
  intros [Hnone|[Hempty Hstored]]; unfold contentChanged.
  - by rewrite Hnone.
  - rewrite Hempty, bool_decide_eq_false_2; [done|]. congruence.
Qed.

(** The record that the first loop emits for a fresh event with a stored
    snapshot. *)
Lemma check_event_matched now storedEvents googleEvent storedEvent :
  find_stored storedEvents googleEvent = Some storedEvent ->
  (check_event now storedEvents [] googleEvent = [modified googleEvent]
   /\ past_debounce storedEvent googleEvent
   /\ contentChanged now storedEvent googleEvent = true)
  \/ (check_event now storedEvents [] googleEvent = []
      /\ ~ (past_debounce storedEvent googleEvent
            /\ contentChanged now storedEvent googleEvent = true)).
Proof.
  intros Hfind. unfold check_event, past_debounce. rewrite Hfind.
  destruct (g_updated googleEvent) as [gu|];
    [|right; split; [done | intros [(? & ? & ? & _) _]; discriminate]].
  destruct (ce_last_modified storedEvent) as [su|];
    [|right; split; [done | intros [(? & ? & _ & ? & _) _]; discriminate]].
  destruct (su <? gu) eqn:Hnewer.
  - destruct (gt _ 5) eqn:Hgt.
    + apply minutesDiff_gt_5 in Hgt.
      destruct (contentChanged now storedEvent googleEvent) eqn:Hc.
      * left. split; [done|]. split; [|done]. by exists gu, su.
      * right. split; [done|]. intros [_ Hd]. discriminate.
    + right. split; [done|]. intros [(gu' & su' & Hg & Hs & Hdiff) _].
      injection Hg as <-. injection Hs as <-.
      apply minutesDiff_gt_5 in Hdiff. congruence.
  - right. split; [done|]. intros [(gu' & su' & Hg & Hs & Hdiff) _].
    injection Hg as <-. injection Hs as <-.
    apply Z.ltb_ge in Hnewer. lia.
Qed.

Lemma check_event_modified_same now storedEvents g g' :
  modified g ∈ check_event now storedEvents [] g' -> g' = g.
Proof.
  unfold check_event.
  destruct_matches;
    simpl; intros H;
    repeat (apply elem_of_cons in H as [H|H]; [congruence|]);
    by apply elem_of_nil in H.
Qed.

Lemma check_deleted_not_modified googleEvents storedEvent g :
  modified g ∉ check_deleted googleEvents [] storedEvent.
Proof.
  unfold check_deleted. destruct (List.find _ googleEvents); simpl; intros H.
  - by apply elem_of_nil in H.
  - apply elem_of_cons in H as [H|H]; [discriminate | by apply elem_of_nil in H].
Qed.

Lemma check_event_added_unmatched now storedEvents g g' :
  added g ∈ check_event now storedEvents [] g' -> find_stored storedEvents g = None.
Proof.
  unfold check_event.
  destruct (find_stored storedEvents g') eqn:Hfind.
  - destruct_matches;
      simpl; intros H;
      repeat (apply elem_of_cons in H as [H|H]; [discriminate|]);
      by apply elem_of_nil in H.
  - simpl. intros H. apply list_elem_of_singleton in H. by injection H as ->.
Qed.

Lemma check_deleted_not_added googleEvents storedEvent g :
  added g ∉ check_deleted googleEvents [] storedEvent.
Proof.
  unfold check_deleted. destruct (List.find _ googleEvents); simpl; intros H.
  - by apply elem_of_nil in H.
  - apply elem_of_cons in H as [H|H]; [discriminate | by apply elem_of_nil in H].
Qed.

(** [modified] for a fresh event with a stored snapshot, in the terms of
    the code. *)
Lemma modified_iff_contentChanged now googleEvents db userId googleEvent storedEvent :
  googleEvent ∈ googleEvents ->
  find_stored (findByUserIdAndDateRange db userId now (now + 24 * 60 * 60 * 1000))
    googleEvent = Some storedEvent ->
  modified googleEvent ∈ checkForChanges now (Some googleEvents) db userId
  <-> past_debounce storedEvent googleEvent
      /\ contentChanged now storedEvent googleEvent = true.
Proof.
  intros Hfresh Hstored. rewrite checkForChanges_eq. cbv zeta.
  rewrite !elem_of_app, !elem_of_concat_map.
  destruct (check_event_matched now _ _ _ Hstored) as [(Hc & Ht & Hf)|(Hc & Hn)].
  - split; [done|]. intros _. left. exists googleEvent. split; [done|].
    rewrite Hc. apply list_elem_of_here.
  - split; [|done]. intros [[g' [Hin Hmod]]|[s [_ Hmod]]].
    + pose proof (check_event_modified_same _ _ _ _ Hmod) as ->.
      rewrite Hc in Hmod. by apply elem_of_nil in Hmod.
    + by apply check_deleted_not_modified in Hmod.
Qed.

(** C1. For a fresh event that has a stored snapshot, [checkForChanges]
    emits no [added] record. When the event has a title, it emits a
    [modified] record exactly when the remote [updated] instant is later
    than the stored [last_modified] by more than five minutes and one of
    summary, description, location, start time, end time, status differs
    from the snapshot. When the event has no title (the summary is absent,
    or empty while the stored one is not), it emits a [modified] record
    whenever the instants are more than five minutes apart, whether or not a
    field differs: the comparison sets the stored summary against the raw
    remote one, while the snapshot of such an event holds ['No Title']. *)
Theorem checkForChanges_modified_iff
    (now : Z) (googleEvents : list GoogleEvent) (db : Table) (userId : Z)
    (googleEvent : GoogleEvent) (storedEvent : CalendarEvent)
    (Hfresh : googleEvent ∈ googleEvents)
    (Hstored : find_stored
                 (findByUserIdAndDateRange db userId now (now + 24 * 60 * 60 * 1000))
                 googleEvent = Some storedEvent) :
  let changes := checkForChanges now (Some googleEvents) db userId in
  (forall title,
     g_summary googleEvent = Some title ->
     title <> "" ->
     modified googleEvent ∈ changes
     <-> past_debounce storedEvent googleEvent
         /\ spec_fields_differ now storedEvent googleEvent)
  /\ (g_summary googleEvent = None
      \/ (g_summary googleEvent = Some "" /\ ce_summary storedEvent <> "") ->
      modified googleEvent ∈ changes <-> past_debounce storedEvent googleEvent)
  /\ added googleEvent ∉ changes.
Proof.
  intros changes. subst changes.
  pose proof (modified_iff_contentChanged now googleEvents db userId googleEvent
                storedEvent Hfresh Hstored) as Hmod.
  split; [|split].
  - intros title Htitle Hnonempty.
    by rewrite Hmod, (contentChanged_titled now storedEvent googleEvent title).
  - intros Hnone. rewrite Hmod, contentChanged_untitled by done. tauto.
  - rewrite checkForChanges_eq. cbv zeta.
    rewrite !elem_of_app, !elem_of_concat_map.
    intros [[g' [_ Hadd]]|[s [_ Hadd]]].
    + apply check_event_added_unmatched in Hadd. congruence.
    + by apply check_deleted_not_added in Hadd.
Qed.

End ChangeDetection.

Section ChangeDetectionExamples.

Import CalendarEventModel CalendarService AutomationService.

#[local] Existing Instance migration_schema.

(** The snapshot of an untitled event against the same event touched ten
    minutes later: no field differs, and a [modified] record is emitted. *)
Lemma checkForChanges_modified_iff_witness :
  ~ spec_fields_differ 0 untitled_stored (untitled_touched 600000)
  /\ modified (untitled_touched 600000)
     ∈ checkForChanges 0 (Some [untitled_touched 600000]) [untitled_stored] 1.
Proof.
  split.
  - unfold spec_fields_differ. simpl. tauto.
  - apply (proj1 (proj2 (checkForChanges_modified_iff 0 [untitled_touched 600000]
                           [untitled_stored] 1 (untitled_touched 600000) untitled_stored
                           ltac:(apply list_elem_of_here) ltac:(vm_compute; reflexivity)))
             (or_introl eq_refl)).
    exists 600000, 0. repeat split; lia.
Defined.

(** The snapshot is the one that the sync path writes for the untitled
    event, and the pass that reports the event as modified writes it back
    unchanged, so every later pass reports it again. *)
Example untitled_event_reported_on_every_pass :
  let world := {| w_db := syncEvents 0 1 [untitled_touched 0] [];
                  w_channel := {| WhatsAppService.calls := [];
                                  WhatsAppService.posts := [] |} |} in
  let after :=
    checkUserForChanges example_credentials example_post example_time None
      0 example_user (Returns (Some [untitled_touched 600000])) world in
  w_db world = [untitled_stored]
  /\ w_db after = [untitled_stored]
  /\ length (WhatsAppService.calls (w_channel after)) = 3%nat
  /\ checkForChanges 1000 (Some [untitled_touched 600000]) (w_db after) 1
     = [modified (untitled_touched 600000)].
Proof. vm_compute. repeat split. Qed.

(** A retitled event touched 5 minutes and 1 ms after the snapshot is
    reported. *)
Example checkForChanges_retitled :
  checkForChanges 0 (Some [example_fresh 300001]) [example_stored] 1
  = [modified (example_fresh 300001)].
Proof. vm_compute. reflexivity. Qed.

(** The same retitled event touched exactly 5 minutes after the snapshot
    yields no record. *)
Example checkForChanges_debounced :
  checkForChanges 0 (Some [example_fresh 300000]) [example_stored] 1 = [].
Proof. vm_compute. reflexivity. Qed.

(** A touch of the remote timestamp by ten minutes without a change of
    content yields no record, for an event with a title. *)
Example checkForChanges_metadata_only :
  checkForChanges 0 (Some [example_touched 600000]) [example_stored] 1 = [].
Proof. vm_compute. reflexivity. Qed.

End ChangeDetectionExamples.

(* ------------------------------------------------------------------------- *)
(** ** Fetch failure, deletion and soft delete *)

Section Deletion.

Import CalendarEventModel CalendarService AutomationService.

Context {schema : Schema}.

Variable credentials : WhatsAppService.Credentials.
Variable post : list (string * string) -> string -> string -> bool.
Variable toLocaleTimeString : Z -> string.
Variable DEFAULT_WHATSAPP_RECIPIENT : option string.

Lemma check_deleted_nil_feed storedEvents :
  concat (List.map (check_deleted [] []) storedEvents) = List.map deleted storedEvents.
Proof. induction storedEvents as [|s ss IH]; simpl; [done | by rewrite IH]. Qed.

Lemma checkForChanges_empty_feed now db userId :
  checkForChanges now (Some []) db userId
  = List.map deleted (findByUserIdAndDateRange db userId now (now + 24 * 60 * 60 * 1000)).
Proof. rewrite checkForChanges_eq. cbv zeta. simpl. apply check_deleted_nil_feed. Qed.

(** C2. When the fetch fails, [checkForChanges] returns the empty list
    and the polling pass leaves the snapshot table and the channel as they
    were; when the fetch succeeds with no event, it returns one [deleted]
    record for each stored, non-cancelled row of the user in the window. *)
Theorem fetch_failure_is_not_deletion
    (now : Z) (user : User) (error : string) (w : World) :
  checkForChanges now (fetchEvents (Throws error)) (w_db w) (u_id user) = []
  /\ checkUserForChanges credentials post toLocaleTimeString DEFAULT_WHATSAPP_RECIPIENT
       now user (Throws error) w = w
  /\ checkForChanges now (fetchEvents (Returns (Some []))) (w_db w) (u_id user)
     = List.map deleted
         (findByUserIdAndDateRange (w_db w) (u_id user) now (now + 24 * 60 * 60 * 1000))
  /\ checkForChanges now (fetchEvents (Returns None)) (w_db w) (u_id user)
     = checkForChanges now (fetchEvents (Returns (Some []))) (w_db w) (u_id user)
  /\ (forall row,
        row ∈ w_db w ->
        ce_user_id row = u_id user ->
        now <= ce_start_time row < now + 24 * 60 * 60 * 1000 ->
        ce_status row <> EventStatus_value CANCELLED ->
        deleted row
        ∈ checkForChanges now (fetchEvents (Returns (Some []))) (w_db w) (u_id user)).
Proof.
  repeat split; try reflexivity.
  - simpl fetchEvents. apply checkForChanges_empty_feed.
  - intros row Hin Hu Hwin Hst. simpl fetchEvents.
    rewrite checkForChanges_empty_feed.
    apply list_elem_of_fmap. exists row. split; [done|].
    apply findByUserIdAndDateRange_spec. done.
Qed.

(** *** Processing the change list *)

Lemma has_key_cancel_row now row u e :
  has_key u e (cancel_row now row) = has_key u e row.
Proof. reflexivity. Qed.

Lemma cancel_row_idem now row : cancel_row now (cancel_row now row) = cancel_row now row.
Proof. reflexivity. Qed.

Lemma markAsCancelled_rows now u e db row' :
  row' ∈ markAsCancelled now u e db
  <-> exists row, row ∈ db
                  /\ row' = if has_key u e row then cancel_row now row else row.
Proof.
  unfold markAsCancelled. rewrite list_elem_of_fmap. split; intros [r [H1 H2]]; eauto.
Qed.

Lemma markAsCancelled_existsb now u e db u' e' :
  existsb (has_key u' e') (markAsCancelled now u e db) = existsb (has_key u' e') db.
Proof.
  unfold markAsCancelled. induction db as [|row db IH]; simpl; [done|].
  rewrite IH. by destruct (has_key u e row).
Qed.

Lemma markAsCancelled_length now u e db :
  length (markAsCancelled now u e db) = length db.
Proof. unfold markAsCancelled. apply length_map. Qed.

Lemma upsert_length now d db : (length db <= length (upsert now d db))%nat.
Proof.
  unfold upsert, insert_on_conflict. destruct (existsb _ db).
  - by rewrite length_map.
  - rewrite length_app. lia.
Qed.

(** The table never loses a row in [processChanges]. *)
Lemma processChanges_length now u changes db :
  (length db <= length (processChanges now u changes db))%nat.
Proof.
  revert db. induction changes as [|c changes IH]; intros db; simpl; [done|].
  destruct c as [g|g|s].
  - etransitivity; [|apply IH]. apply upsert_length.
  - etransitivity; [|apply IH]. apply upsert_length.
  - destruct (markAsCancelled_returning now u (ce_event_id s) db).
    + etransitivity; [|apply IH]. by rewrite markAsCancelled_length.
    + by rewrite markAsCancelled_length.
Qed.

(** The records of the first loop come from the feed. *)
Lemma check_event_from_feed now storedEvents g c :
  c ∈ check_event now storedEvents [] g -> c = added g \/ c = modified g.
Proof.
  unfold check_event.
  destruct_matches;
    simpl; intros H;
    repeat (apply elem_of_cons in H as [H|H]; [tauto|]);
    by apply elem_of_nil in H.
Qed.

(** Processing [added] and [modified] records of events of the feed
    leaves the rows of every other event as they are. *)
Lemma processChanges_feed_prefix now u (feed : list GoogleEvent) prefix rest db :
  (forall c, c ∈ prefix -> exists g, g ∈ feed /\ (c = added g \/ c = modified g)) ->
  exists db1,
    processChanges now u (prefix ++ rest) db = processChanges now u rest db1
    /\ forall row, (forall g, g ∈ feed -> has_key u (g_id g) row = false) ->
                   (row ∈ db1 <-> row ∈ db).
Proof.
  revert db. induction prefix as [|c prefix IH]; intros db Hfeed.
  - exists db. split; [done | tauto].
  - destruct (Hfeed c (list_elem_of_here _ _)) as [g [Hg Hc]].
    destruct (IH (upsert now (eventData_of now u g) db)) as [db1 [Heq Hrows]].
    { intros c' Hc'. apply Hfeed. by apply list_elem_of_further. }
    exists db1. split.
    + destruct Hc as [-> | ->]; simpl; exact Heq.
    + intros row Hrow. rewrite (Hrows row Hrow).
      apply upsert_rows_other_key. simpl. by apply Hrow.
Qed.

(** With every row to cancel present, no [markAsCancelled] throws and
    the loop runs to its end. *)
Lemma processChanges_deleted now u (gone : list CalendarEvent) db :
  (forall s, s ∈ gone -> existsb (has_key u (ce_event_id s)) db = true) ->
  processChanges now u (List.map deleted gone) db
  = fold_left (fun db s => markAsCancelled now u (ce_event_id s) db) gone db.
Proof.
  revert db. induction gone as [|s gone IH]; intros db Hpresent; simpl; [done|].
  unfold markAsCancelled_returning, findByUserIdAndEventId.
  destruct (List.find _ (markAsCancelled now u (ce_event_id s) db)) eqn:Hfind.
  - apply IH. intros s' Hs'. rewrite markAsCancelled_existsb.
    apply Hpresent. by apply list_elem_of_further.
  - apply find_none_existsb in Hfind. rewrite markAsCancelled_existsb in Hfind.
    rewrite Hpresent in Hfind; [discriminate | apply list_elem_of_here].
Qed.

Lemma fold_markAsCancelled_status now u (gone : list CalendarEvent) db e :
  ((exists s, s ∈ gone /\ ce_event_id s = e)
   \/ forall row, row ∈ db -> has_key u e row = true ->
                  ce_status row = EventStatus_value CANCELLED) ->
  forall row,
    row ∈ fold_left (fun db s => markAsCancelled now u (ce_event_id s) db) gone db ->
    has_key u e row = true ->
    ce_status row = EventStatus_value CANCELLED.
Proof.
  revert db. induction gone as [|s gone IH]; intros db Hcase; simpl.
  - destruct Hcase as [[s [Hs _]]|Hall]; [by apply elem_of_nil in Hs | exact Hall].
  - apply IH.
    destruct (decide (ce_event_id s = e)) as [Heq|Hne].
    + right. intros row Hin Hk.
      apply markAsCancelled_rows in Hin as [r [Hr ->]].
      rewrite Heq in *.
      destruct (has_key u e r) eqn:Hkr; [reflexivity | congruence].
    + destruct Hcase as [[s' [Hs' He]]|Hall].
      * apply elem_of_cons in Hs' as [->|Hs']; [congruence|]. left. by exists s'.
      * right. intros row Hin Hk.
        apply markAsCancelled_rows in Hin as [r [Hr ->]].
        destruct (has_key u (ce_event_id s) r) eqn:Hkr; [reflexivity|].
        by apply Hall.
Qed.

Lemma fold_markAsCancelled_keeps now u (gone : list CalendarEvent) db row :
  ce_user_id row = u ->
  ((exists s, s ∈ gone /\ ce_event_id s = ce_event_id row) /\ row ∈ db)
  \/ cancel_row now row ∈ db ->
  cancel_row now row
  ∈ fold_left (fun db s => markAsCancelled now u (ce_event_id s) db) gone db.
Proof.
  intros Hu. revert db. induction gone as [|s gone IH]; intros db Hcase; simpl.
  - destruct Hcase as [[[s [Hs _]] _]|H]; [by apply elem_of_nil in Hs | exact H].
  - apply IH.
    destruct Hcase as [[[s' [Hs' He]] Hin]|Hin].
    + destruct (decide (ce_event_id s = ce_event_id row)) as [Heq|Hne].
      * right. apply markAsCancelled_rows. exists row. split; [done|].
        assert (has_key u (ce_event_id s) row = true) as ->; [|done].
        apply has_key_true. by rewrite Heq.
      * left. split.
        -- apply elem_of_cons in Hs' as [->|Hs']; [congruence|]. by exists s'.
        -- apply markAsCancelled_rows. exists row. split; [done|].
           destruct (has_key u (ce_event_id s) row) eqn:Hk; [|done].
           apply has_key_true in Hk as [_ Hk]. congruence.
    + right. apply markAsCancelled_rows. exists (cancel_row now row). split; [done|].
      by destruct (has_key _ _ _).
Qed.

(** *** Soft delete *)

(** The stored events that the feed no longer has. *)
Lemma check_deleted_absent googleEvents storedEvent :
  (forall g, g ∈ googleEvents -> g_id g <> ce_event_id storedEvent) ->
  check_deleted googleEvents [] storedEvent = [deleted storedEvent].
Proof.
  intros Habsent. unfold check_deleted.
  destruct (List.find _ googleEvents) as [g|] eqn:Hfind; [|done].
  apply find_some in Hfind as [Hin Heq].
  apply String.eqb_eq in Heq. apply list_elem_of_In in Hin.
  by destruct (Habsent g Hin).
Qed.

Lemma check_deleted_inv googleEvents storedEvent c :
  c ∈ check_deleted googleEvents [] storedEvent ->
  c = deleted storedEvent
  /\ forall g, g ∈ googleEvents -> g_id g <> ce_event_id storedEvent.
Proof.
  unfold check_deleted.
  destruct (List.find _ googleEvents) eqn:Hfind; simpl; intros H.
  - by apply elem_of_nil in H.
  - apply list_elem_of_singleton in H as ->. split; [done|].
    intros g Hg. apply list_elem_of_In in Hg.
    pose proof (find_none _ _ Hfind g Hg) as Hne. simpl in Hne.
    by apply String.eqb_neq in Hne.
Qed.

Lemma deleted_records_eq googleEvents storedEvents :
  exists gone,
    concat (List.map (check_deleted googleEvents []) storedEvents) = List.map deleted gone
    /\ forall s, s ∈ gone <->
                 s ∈ storedEvents
                 /\ forall g, g ∈ googleEvents -> g_id g <> ce_event_id s.
Proof.
  induction storedEvents as [|s ss [gone [Heq Hgone]]]; simpl.
  - exists []. split; [done|]. intros s. split.
    + intros H. by apply elem_of_nil in H.
    + intros [H _]. by apply elem_of_nil in H.
  - unfold check_deleted at 1.
    destruct (List.find _ googleEvents) as [g|] eqn:Hfind; simpl.
    + exists gone. split; [done|]. intros s'. rewrite Hgone, elem_of_cons.
      split; [tauto|]. intros [[->|Hin] Habs]; [|tauto].
      apply find_some in Hfind as [Hin Hid]. apply String.eqb_eq in Hid.
      apply list_elem_of_In in Hin. by destruct (Habs g Hin).
    + exists (s :: gone). split; [by rewrite Heq|].
      intros s'. rewrite !elem_of_cons, Hgone. split.
      * intros [->|[Hin Habs]]; [|tauto]. split; [by left|].
        intros g Hg. apply list_elem_of_In in Hg.
        pose proof (find_none _ _ Hfind g Hg) as Hne. simpl in Hne.
        by apply String.eqb_neq in Hne.
      * intros [[->|Hin] Habs]; [by left | right; tauto].
Qed.

(** C6. An event that the range query returns and that a successful
    fetch no longer contains yields a [deleted] record; processing the
    change list keeps every row of the table, turns that row into the same
    row with status ['cancelled'], and leaves every row of that user and
    event id cancelled, so that no later pass over the same feed emits a
    [deleted] record for the event. *)
Theorem remote_deletion_is_soft_delete
    (now : Z) (user : User) (googleEvents : list GoogleEvent) (w : World)
    (row : CalendarEvent)
    (Hstored : row ∈ findByUserIdAndDateRange (w_db w) (u_id user)
                       now (now + 24 * 60 * 60 * 1000))
    (Habsent : forall g, g ∈ googleEvents -> g_id g <> ce_event_id row) :
  let w' := checkUserForChanges credentials post toLocaleTimeString
              DEFAULT_WHATSAPP_RECIPIENT now user (Returns (Some googleEvents)) w in
  deleted row ∈ checkForChanges now (Some googleEvents) (w_db w) (u_id user)
  /\ (length (w_db w) <= length (w_db w'))%nat
  /\ cancel_row now row ∈ w_db w'
  /\ (forall row',
        row' ∈ w_db w' ->
        ce_user_id row' = u_id user ->
        ce_event_id row' = ce_event_id row ->
        ce_status row' = EventStatus_value CANCELLED)
  /\ (forall later r,
        ce_event_id r = ce_event_id row ->
        deleted r
        ∉ checkForChanges later (fetchEvents (Returns (Some googleEvents)))
            (w_db w') (u_id user)).
Proof.
  intros w'.
  set (u := u_id user) in *. set (db := w_db w) in *.
  set (storedEvents := findByUserIdAndDateRange db u now (now + 24 * 60 * 60 * 1000)) in *.
  destruct (deleted_records_eq googleEvents storedEvents) as [gone [Hgone_eq Hgone]].
  assert (Hrow_gone : row ∈ gone) by (apply Hgone; done).
  assert (Hchanges : checkForChanges now (Some googleEvents) db u
                     = concat (List.map (check_event now storedEvents []) googleEvents)
                       ++ List.map deleted gone).
  { rewrite checkForChanges_eq. cbv zeta. fold storedEvents. by rewrite Hgone_eq. }
  assert (Hdel : deleted row ∈ checkForChanges now (Some googleEvents) db u).
  { rewrite Hchanges. apply elem_of_app. right.
    apply list_elem_of_fmap. by exists row. }
  assert (Hdb' : w_db w' = processChanges now u (checkForChanges now (Some googleEvents) db u) db).
  { subst w'. unfold checkUserForChanges. simpl fetchEvents. fold u db.
    destruct (checkForChanges now (Some googleEvents) db u) as [|c cs] eqn:Hc.
    - by apply elem_of_nil in Hdel.
    - simpl. by destruct (WhatsAppService.sendChangeNotification _ _ _ _ _ _). }
  destruct (processChanges_feed_prefix now u googleEvents
              (concat (List.map (check_event now storedEvents []) googleEvents))
              (List.map deleted gone) db) as [db1 [Hproc Hkept]].
  { intros c Hc. apply elem_of_concat_map in Hc as [g [Hg Hc]].
    exists g. split; [done|]. by apply check_event_from_feed in Hc. }
  assert (Hgone_rows : forall s, s ∈ gone ->
            s ∈ db1 /\ ce_user_id s = u
            /\ forall g, g ∈ googleEvents -> g_id g <> ce_event_id s).
  { intros s Hs. apply Hgone in Hs as [Hs Habs].
    apply findByUserIdAndDateRange_spec in Hs as (Hin & Hu & _).
    split; [|done]. apply Hkept; [|done].
    intros g Hg. unfold has_key.
    destruct (String.eqb (ce_event_id s) (g_id g)) eqn:Heq;
      [|by rewrite andb_false_r].
    apply String.eqb_eq in Heq. by destruct (Habs g Hg). }
  assert (Hfold : w_db w'
                  = fold_left (fun db s => markAsCancelled now u (ce_event_id s) db) gone db1).
  { rewrite Hdb', Hchanges, Hproc. apply processChanges_deleted.
    intros s Hs. destruct (Hgone_rows s Hs) as (Hin & Hu & _).
    apply existsb_exists. exists s. split; [by apply list_elem_of_In|].
    by apply has_key_true. }
  assert (Hcancelled : forall row', row' ∈ w_db w' -> ce_user_id row' = u ->
              ce_event_id row' = ce_event_id row ->
              ce_status row' = EventStatus_value CANCELLED).
  { intros row' Hin Hu He. rewrite Hfold in Hin.
    apply (fold_markAsCancelled_status now u gone db1 (ce_event_id row)); [| done |].
    - left. by exists row.
    - by apply has_key_true. }
  split; [exact Hdel|]. split; [|split; [|split; [exact Hcancelled|]]].
  - rewrite Hdb'. apply processChanges_length.
  - rewrite Hfold. destruct (Hgone_rows row Hrow_gone) as (Hin & Hu & _).
    apply fold_markAsCancelled_keeps; [done|]. left. split; [by exists row | done].
  - intros later r He Hr. simpl fetchEvents in Hr.
    rewrite checkForChanges_eq in Hr. cbv zeta in Hr.
    apply elem_of_app in Hr as [Hr|Hr].
    + apply elem_of_concat_map in Hr as [g [_ Hr]].
      apply check_event_from_feed in Hr as [Hr|Hr]; discriminate.
    + apply elem_of_concat_map in Hr as [s [Hs Hr]].
      apply check_deleted_inv in Hr as [Hr _]. injection Hr as <-.
      apply findByUserIdAndDateRange_spec in Hs as (Hin & Hu & _ & Hst).
      apply Hst. by apply Hcancelled.
Qed.

End Deletion.

Section DeletionExamples.

Import CalendarEventModel CalendarService AutomationService.

#[local] Existing Instance migration_schema.

(** The fetch-failure theorem on the example table: the failed fetch
    yields nothing, the empty feed yields the deletion of the stored
    event. *)
Lemma fetch_failure_is_not_deletion_witness :
  checkForChanges 0 (fetchEvents (Throws "timeout")) [example_stored] 1 = []
  /\ deleted example_stored
     ∈ checkForChanges 0 (fetchEvents (Returns (Some []))) [example_stored] 1.
Proof.
  destruct (fetch_failure_is_not_deletion example_credentials example_post example_time
              None 0 example_user "timeout" example_world)
    as (Hfail & _ & _ & _ & Hdel).
  split; [exact Hfail|].
  apply (Hdel example_stored).
  - apply list_elem_of_here.
  - reflexivity.
  - simpl. lia.
  - discriminate.
Defined.

(** The soft-delete theorem on the example table and an empty feed. *)
Lemma remote_deletion_is_soft_delete_witness :
  cancel_row 0 example_stored
  ∈ w_db (checkUserForChanges example_credentials example_post example_time None
            0 example_user (Returns (Some [])) example_world).
Proof.
  refine (proj1 (proj2 (proj2
    (remote_deletion_is_soft_delete example_credentials example_post example_time None
       0 example_user [] example_world example_stored _ _)))).
  - vm_compute. apply list_elem_of_here.
  - intros g Hg. by apply elem_of_nil in Hg.
Defined.

End DeletionExamples.

(* ------------------------------------------------------------------------- *)
(** ** Free blocks *)

Section FreeBlocks.

Import CalendarService.

Lemma free_steps_agree now (timedEvents : list GoogleEvent) cursor freeBlocks :
  ends_in_order now cursor timedEvents ->
  fold_left (free_step now) timedEvents (cursor, freeBlocks)
  = fold_left (spec_free_step now) timedEvents (cursor, freeBlocks).
Proof.
  revert cursor freeBlocks.
  induction timedEvents as [|event rest IH]; intros cursor freeBlocks Hord; [done|].
  destruct Hord as [Hle Hrest]. simpl.
  rewrite (Z.max_r cursor _ Hle). by apply IH.
Qed.

(** When no event ends before the cursor has reached it (in particular
    when the events do not overlap), the loop of [getTodaySummary] computes
    the free blocks of the specification. *)
Lemma computeFreeBlocks_in_order now startOfDay endOfDay timedEvents :
  ends_in_order now startOfDay timedEvents ->
  computeFreeBlocks now startOfDay endOfDay timedEvents
  = spec_computeFreeBlocks now startOfDay endOfDay timedEvents.
Proof.
  intros Hord. unfold computeFreeBlocks, spec_computeFreeBlocks.
  by rewrite free_steps_agree.
Qed.

(** The cursor of the specification never moves backward. *)
Lemma spec_cursor_monotone now startOfDay timedEvents event :
  spec_cursor_after now startOfDay timedEvents
  <= spec_cursor_after now startOfDay (timedEvents ++ [event]).
Proof.
  unfold spec_cursor_after. rewrite fold_left_app. simpl.
  destruct (fold_left _ timedEvents _) as [cursor freeBlocks]. simpl. lia.
Qed.

(** C3 at the events 09:00-12:00 and 10:00-11:00, sorted by start: the
    loop sets the cursor to 12:00 after the first event and back to 11:00
    after the second, and reports 11:00-23:59:59 as free although the first
    event lasts until 12:00; with the cursor advanced to
    [max(cursor, eventEnd)] the trailing block starts at 12:00. *)
Theorem cursor_moves_backward_on_nested_events :
  cursor_after 0 0 (take 1 nested_day) = hm 12 0
  /\ cursor_after 0 0 nested_day = hm 11 0
  /\ spec_cursor_after 0 0 nested_day = hm 12 0
  /\ computeFreeBlocks 0 0 (hm 23 59 + 59000) nested_day
     = [ {| fb_start := 0; fb_end := hm 9 0 |};
         {| fb_start := hm 11 0; fb_end := hm 23 59 + 59000 |} ]
  /\ spec_computeFreeBlocks 0 0 (hm 23 59 + 59000) nested_day
     = [ {| fb_start := 0; fb_end := hm 9 0 |};
         {| fb_start := hm 12 0; fb_end := hm 23 59 + 59000 |} ].
Proof. vm_compute. repeat split. Qed.

(** *** The 15-minute floor of the FREE section *)

Lemma durationMinutes_ge_15 (block : FreeBlock) :
  Qle_bool 15 (durationMinutes block) = above_floor block.
Proof.
  unfold above_floor, durationMinutes.
  destruct (Z.leb_spec (15 * 60 * 1000) (fb_end block - fb_start block)) as [H|H].
  - apply Qle_bool_iff. unfold Qle. simpl. lia.
  - destruct (Qle_bool 15 _) eqn:Hq; [|done].
    apply Qle_bool_iff in Hq. unfold Qle in Hq. simpl in Hq. lia.
Qed.

Lemma fold_render_free fmt (freeBlocks : list FreeBlock) (summary : string) :
  fold_left (render_free fmt) freeBlocks summary
  = summary +:+ free_lines fmt (List.filter above_floor freeBlocks).
Proof.
  revert summary. induction freeBlocks as [|block rest IH]; intros summary; simpl.
  - by rewrite append_nil_r.
  - rewrite IH. unfold render_free. rewrite durationMinutes_ge_15.
    destruct (above_floor block); [|done].
    simpl free_lines. by rewrite !append_assoc.
Qed.

(** [sort_by_start] is the stable sort by start: it permutes the events,
    lists them by ascending start, and keeps the events of each start in the
    order of the array. *)
Lemma insert_by_start_Permutation event sorted :
  insert_by_start event sorted ≡ₚ event :: sorted.
Proof.
  induction sorted as [|first rest IH]; simpl; [done|].
  destruct (decide (start_dateTime_le event first)); [done|].
  rewrite IH. apply Permutation_swap.
Qed.

Lemma sort_by_start_Permutation events : sort_by_start events ≡ₚ events.
Proof.
  induction events as [|event rest IH]; simpl; [done|].
  by rewrite insert_by_start_Permutation, IH.
Qed.

Lemma sort_by_start_sorted events :
  StronglySorted start_dateTime_le (sort_by_start events).
Proof.
  induction events as [|event rest IH]; simpl; [constructor|].
  generalize dependent (sort_by_start rest). clear rest.
  intros sorted Hsorted. induction sorted as [|first others IHs]; simpl.
  - repeat constructor.
  - apply StronglySorted_inv in Hsorted as [Hothers Hfirst].
    destruct (decide (start_dateTime_le event first)) as [Hle|Hgt].
    + constructor; [by constructor|]. constructor; [done|].
      eapply Forall_impl; [exact Hfirst|].
      intros x Hx. unfold start_dateTime_le in *. lia.
    + constructor; [by apply IHs|].
      rewrite insert_by_start_Permutation. constructor; [|done].
      unfold start_dateTime_le in *. lia.
Qed.

Lemma sort_by_start_stable events (start : Z) :
  List.filter (fun event => default 0 (g_start_dateTime event) =? start)
              (sort_by_start events)
  = List.filter (fun event => default 0 (g_start_dateTime event) =? start) events.
Proof.
  induction events as [|event rest IH]; simpl; [done|].
  rewrite <- IH. generalize (sort_by_start rest). clear IH rest.
  intros sorted. induction sorted as [|first others IHs]; simpl; [done|].
  destruct (decide (start_dateTime_le event first)) as [Hle|Hgt]; [done|].
  simpl. rewrite IHs. simpl.
  destruct (default 0 (g_start_dateTime event) =? start) eqn:He;
    destruct (default 0 (g_start_dateTime first) =? start) eqn:Hf; try done.
  apply Z.eqb_eq in He, Hf. unfold start_dateTime_le in Hgt. lia.
Qed.

(** The summary text of a day with timed events: the BUSY section, the
    FREE section of the computed free blocks, the total. *)
Lemma getTodaySummary_text fmt fmtDate startOfDay endOfDay user now events :
  timedEvents_of events <> [] ->
  ts_summary (getTodaySummary fmt fmtDate startOfDay endOfDay
                (Returns (Some user)) now (Some events))
  = render_free_section fmt
      (fold_left (render_busy fmt now) (timedEvents_of events)
         ((header fmtDate user now +:+ nl +:+ nl) +:+ "📅 BUSY:" +:+ nl))
      (computeFreeBlocks now (startOfDay now) (endOfDay now) (timedEvents_of events))
    +:+ "Total appointments: " +:+ pretty (length (timedEvents_of events)).
Proof.
  intros Htimed. unfold getTodaySummary.
  destruct events as [|e es]; [by destruct Htimed|].
  destruct (timedEvents_of (e :: es)) as [|t ts] eqn:Ht; [by destruct Htimed|].
  reflexivity.
Qed.

(** C8. In the summary text of a day with timed events, the FREE
    section consists of its heading, one line for each computed free block
    of at least 15 minutes, in order, and a blank line; blocks shorter than
    15 minutes leave no line. A block of 14 minutes adds nothing to the
    text and a block of exactly 15 minutes adds its line. *)
Theorem free_section_has_15_minute_floor
    (toLocaleTimeString toLocaleDateString : Z -> string) (startOfDay endOfDay : Z -> Z)
    (user : User) (now : Z) (events : list GoogleEvent)
    (summary : string) (start : Z)
    (Htimed : timedEvents_of events <> []) :
  let busy :=
    fold_left (render_busy toLocaleTimeString now) (timedEvents_of events)
      ((header toLocaleDateString user now +:+ nl +:+ nl) +:+ "📅 BUSY:" +:+ nl) in
  let freeBlocks :=
    computeFreeBlocks now (startOfDay now) (endOfDay now) (timedEvents_of events) in
  ts_summary (getTodaySummary toLocaleTimeString toLocaleDateString startOfDay endOfDay
                (Returns (Some user)) now (Some events))
  = match freeBlocks with
    | [] => busy
    | _ => busy +:+ "⏰ FREE:" +:+ nl
                +:+ free_lines toLocaleTimeString (List.filter above_floor freeBlocks)
                +:+ nl
    end
    +:+ "Total appointments: " +:+ pretty (length (timedEvents_of events))
  /\ (forall block,
        above_floor block = true <-> fb_end block - fb_start block >= 15 * 60 * 1000)
  /\ render_free toLocaleTimeString summary
       {| fb_start := start; fb_end := start + 14 * 60 * 1000 |} = summary
  /\ render_free toLocaleTimeString summary
       {| fb_start := start; fb_end := start + 15 * 60 * 1000 |}
     = summary +:+ "🆓 " +:+ toLocaleTimeString start +:+ " - "
               +:+ toLocaleTimeString (start + 15 * 60 * 1000) +:+ nl.
Proof.
  intros busy freeBlocks. split; [|split; [|split]].
  - rewrite getTodaySummary_text by done. fold busy freeBlocks. f_equal.
    unfold render_free_section. destruct freeBlocks as [|b bs]; [done|].
    rewrite fold_render_free. by rewrite !append_assoc.
  - intros block. unfold above_floor. rewrite Z.leb_le. lia.
  - unfold render_free. rewrite durationMinutes_ge_15.
    unfold above_floor. simpl.
    destruct (Z.leb_spec (15 * 60 * 1000) (start + 14 * 60 * 1000 - start)); [lia | done].
  - unfold render_free. rewrite durationMinutes_ge_15.
    unfold above_floor. simpl.
    destruct (Z.leb_spec (15 * 60 * 1000) (start + 15 * 60 * 1000 - start)); [|lia].
    unfold timeStr. by rewrite !append_assoc.
Qed.

(** The theorem on a day with a 14-minute and a 15-minute gap. *)
Lemma free_section_has_15_minute_floor_witness :
  render_free example_time "" {| fb_start := hm 10 0; fb_end := hm 10 0 + 14 * 60 * 1000 |}
  = ""
  /\ render_free example_time "" {| fb_start := hm 11 0; fb_end := hm 11 0 + 15 * 60 * 1000 |}
     = "" +:+ "🆓 " +:+ example_time (hm 11 0) +:+ " - "
          +:+ example_time (hm 11 0 + 15 * 60 * 1000) +:+ nl.
Proof.
  assert (Htimed : timedEvents_of gaps_day <> []) by (vm_compute; discriminate).
  split.
  - exact (proj1 (proj2 (proj2
      (free_section_has_15_minute_floor example_time example_time
         (fun _ => 0) (fun _ => hm 23 59 + 59000) example_user 0 gaps_day
         "" (hm 10 0) Htimed)))).
  - exact (proj2 (proj2 (proj2
      (free_section_has_15_minute_floor example_time example_time
         (fun _ => 0) (fun _ => hm 23 59 + 59000) example_user 0 gaps_day
         "" (hm 11 0) Htimed)))).
Defined.

(** On a day with a 14-minute gap and a 15-minute gap, the free blocks
    that reach the text are 00:00-09:00 and the 15-minute gap. *)
Example gaps_day_free_blocks :
  List.filter above_floor
    (computeFreeBlocks 0 0 (hm 23 59 + 59000) (timedEvents_of gaps_day))
  = [ {| fb_start := 0; fb_end := hm 9 0 |};
      {| fb_start := hm 11 0; fb_end := hm 11 15 |} ]
  /\ computeFreeBlocks 0 0 (hm 23 59 + 59000) (timedEvents_of gaps_day)
     = [ {| fb_start := 0; fb_end := hm 9 0 |};
         {| fb_start := hm 10 0; fb_end := hm 10 14 |};
         {| fb_start := hm 11 0; fb_end := hm 11 15 |} ].
Proof. vm_compute. split; reflexivity. Qed.

End FreeBlocks.

(* ------------------------------------------------------------------------- *)
(** ** Fan-out over the recipients *)

Section FanOut.

Import CalendarService WhatsAppService.

Variable credentials : Credentials.
Variable post : list (string * string) -> string -> string -> bool.
Variable toLocaleTimeString : Z -> string.

Lemma sendMessage_eq recipient message ch :
  sendMessage credentials post recipient message ch
  = (configured credentials
     && post (posts ch) (fst (request_of message recipient)) message,
     {| calls := calls ch ++ [(recipient, message)];
        posts := posts ch
                 ++ if configured credentials then [request_of message recipient] else [] |}).
Proof.
  unfold sendMessage, configured.
  destruct (is_empty (accountSid credentials) || is_empty (authToken credentials)
            || is_empty (fromNumber credentials)); simpl.
  - by rewrite app_nil_r.
  - reflexivity.
Qed.

Lemma send_all_cons recipient rest message ch :
  send_all credentials post (recipient :: rest) message ch
  = let r := sendMessage credentials post recipient message ch in
    let rs := send_all credentials post rest message (snd r) in
    (fst r :: fst rs, snd rs).
Proof.
  simpl. destruct (sendMessage _ _ _ _ _) as [b ch1]. simpl.
  by destruct (send_all _ _ _ _ _).
Qed.

(** The channel after the fan-out: every recipient was called and, with
    credentials, posted to. *)
Lemma send_all_channel recipientArray message ch :
  snd (send_all credentials post recipientArray message ch)
  = {| calls := calls ch ++ List.map (fun recipient => (recipient, message)) recipientArray;
       posts := posts ch
                ++ if configured credentials
                   then List.map (request_of message) recipientArray else [] |}.
Proof.
  revert ch. induction recipientArray as [|r rest IH]; intros ch.
  - simpl. destruct ch. simpl. destruct (configured credentials); by rewrite !app_nil_r.
  - rewrite send_all_cons. cbv zeta. simpl snd. rewrite IH, sendMessage_eq. simpl.
    f_equal.
    + by rewrite <- app_assoc.
    + rewrite <- app_assoc. by destruct (configured credentials).
Qed.

(** Some outcome is [true] exactly when the provider accepted the request
    of one of the recipients. *)
Lemma send_all_success recipientArray message ch :
  true ∈ fst (send_all credentials post recipientArray message ch)
  <-> configured credentials = true
      /\ exists i recipient,
           recipientArray !! i = Some recipient
           /\ post (posts ch ++ List.map (request_of message) (take i recipientArray))
                   (fst (request_of message recipient)) message = true.
Proof.
  revert ch. induction recipientArray as [|r rest IH]; intros ch.
  - simpl. split.
    + intros H. by apply elem_of_nil in H.
    + intros [_ (i & r & Hi & _)]. by rewrite lookup_nil in Hi.
  - rewrite send_all_cons. cbv zeta. simpl fst.
    rewrite elem_of_cons, IH, sendMessage_eq. simpl fst. simpl snd. simpl posts.
    split.
    + intros [Hhead|[Hconf (i & r' & Hi & Hpost)]].
      * symmetry in Hhead. apply andb_true_iff in Hhead as [Hconf Hpost].
        split; [done|]. exists 0%nat, r. split; [done|].
        simpl. by rewrite app_nil_r.
      * split; [done|]. exists (S i), r'. split; [done|].
        rewrite Hconf in Hpost. simpl. by rewrite <- app_assoc in Hpost.
    + intros [Hconf (i & r' & Hi & Hpost)]. destruct i as [|i].
      * left. injection Hi as <-. simpl in Hpost. rewrite app_nil_r in Hpost.
        by rewrite Hconf, Hpost.
      * right. split; [done|]. exists i, r'. split; [done|].
        rewrite Hconf. simpl in Hpost. by rewrite <- app_assoc.
Qed.

Lemma successCount_positive (results : list bool) :
  Nat.ltb 0 (successCount results) = true <-> true ∈ results.
Proof.
  unfold successCount. rewrite Nat.ltb_lt.
  induction results as [|b results IH]; simpl.
  - split; [lia | intros H; by apply elem_of_nil in H].
  - rewrite elem_of_cons. destruct b; simpl; [split; [by left | lia]|].
    rewrite IH. split; [by right | intros [|]; congruence].
Qed.

Lemma fan_out_fans_out recipients message ch :
  fans_out credentials post (recipientArray_of recipients) message ch
    (fan_out credentials post recipients message ch).
Proof.
  unfold fan_out, fans_out.
  pose proof (send_all_channel (recipientArray_of recipients) message ch) as Hch.
  pose proof (send_all_success (recipientArray_of recipients) message ch) as Hok.
  destruct (send_all _ _ _ _ _) as [results ch']. simpl in *.
  rewrite Hch. simpl. split; [done|]. split; [done|].
  rewrite successCount_positive. exact Hok.
Qed.

(** C7. Given an array of recipients, [sendDailySummary] invokes
    [sendMessage] once for every recipient of the array, in order, whatever
    the outcome of the other sends, and returns [true] exactly when the
    provider accepted the request of at least one of them; given a single
    recipient it does so for that one recipient. [sendChangeNotification]
    fans its rendered message out in the same way. *)
Theorem sendDailySummary_fans_out
    (recipient : string) (recipientList : list string) (summary : string)
    (changes : list Change) (ch : Channel) :
  let daily := "📅 *Daily Schedule Summary*" +:+ nl +:+ nl +:+ summary in
  let changed :=
    fold_left (render_change toLocaleTimeString) changes
      ("🔄 *Calendar Changes Detected*" +:+ nl +:+ nl) in
  fans_out credentials post recipientList daily ch
    (sendDailySummary credentials post (many recipientList) summary ch)
  /\ fans_out credentials post [recipient] daily ch
       (sendDailySummary credentials post (one recipient) summary ch)
  /\ fans_out credentials post recipientList changed ch
       (sendChangeNotification credentials post toLocaleTimeString
          (many recipientList) changes ch)
  /\ fans_out credentials post [recipient] changed ch
       (sendChangeNotification credentials post toLocaleTimeString
          (one recipient) changes ch).
Proof.
  intros daily changed.
  split; [apply (fan_out_fans_out (many recipientList))|].
  split; [apply (fan_out_fans_out (one recipient))|].
  split; [apply (fan_out_fans_out (many recipientList))
         | apply (fan_out_fans_out (one recipient))].
Qed.

End FanOut.

(** The theorem on three recipients, the second of which the provider
    rejects: [sendMessage] is invoked once for each of the three, in order,
    and the result is [true]. *)
Lemma sendDailySummary_fans_out_witness :
  let message := "📅 *Daily Schedule Summary*" +:+ CalendarService.nl
                 +:+ CalendarService.nl +:+ "text" in
  let ch := {| WhatsAppService.calls := []; WhatsAppService.posts := [] |} in
  let result :=
    WhatsAppService.sendDailySummary example_credentials example_post
      (WhatsAppService.many ["+15550001"; "+15550002"; "+15550003"]) "text" ch in
  WhatsAppService.calls (snd result)
  = [ ("+15550001", message); ("+15550002", message); ("+15550003", message) ]
  /\ fst result = true.
Proof.
  intros message ch result.
  destruct (sendDailySummary_fans_out example_credentials example_post example_time
              "+15550001" ["+15550001"; "+15550002"; "+15550003"] "text" [] ch)
    as ((Hcalls & _ & Hresult) & _).
  split; [exact Hcalls|].
  apply Hresult. split; [reflexivity|].
  exists 0%nat, "+15550001". split; reflexivity.
Defined.

(** Three recipients, the second of which the provider rejects: the overall
    result is [true], two of three sends succeed, and each recipient is
    posted to once. *)
Example fan_out_partial_success :
  let message := "📅 *Daily Schedule Summary*" +:+ CalendarService.nl
                 +:+ CalendarService.nl +:+ "text" in
  let ch := {| WhatsAppService.calls := []; WhatsAppService.posts := [] |} in
  let recipients := ["+15550001"; "+15550002"; "+15550003"] in
  fst (WhatsAppService.sendDailySummary example_credentials example_post
         (WhatsAppService.many recipients) "text" ch) = true
  /\ fst (WhatsAppService.send_all example_credentials example_post recipients message ch)
     = [true; false; true]
  /\ WhatsAppService.posts
       (snd (WhatsAppService.sendDailySummary example_credentials example_post
               (WhatsAppService.many recipients) "text" ch))
     = [ ("whatsapp:+15550001", message); ("whatsapp:+15550002", message);
         ("whatsapp:+15550003", message) ].
Proof. vm_compute. repeat split. Qed.

(* ------------------------------------------------------------------------- *)
(** ** The per-user timers *)

Section Timers.

Import AutomationService.

Variable cron_accepts : string -> string -> bool.

Lemma filter_none {A} (P : A -> bool) (l : list A) :
  (forall x, x ∈ l -> P x = false) -> List.filter P l = [].
Proof.
  induction l as [|a l IH]; intros Hall; simpl; [done|].
  rewrite (Hall a (list_elem_of_here _ _)). apply IH.
  intros x Hx. apply Hall. by apply list_elem_of_further.
Qed.

(** A list in which all elements satisfying [P] sit at one index has at
    most one of them. *)
Lemma filter_at_most_one {A} (P : A -> bool) (l : list A) :
  (forall i j x y, l !! i = Some x -> l !! j = Some y ->
                   P x = true -> P y = true -> i = j) ->
  (length (List.filter P l) <= 1)%nat.
Proof.
  induction l as [|a l IH]; intros Hone; simpl; [lia|].
  destruct (P a) eqn:Ha.
  - rewrite filter_none; [simpl; lia|].
    intros x Hx. destruct (P x) eqn:Hpx; [|done].
    apply list_elem_of_lookup in Hx as [j Hj].
    by specialize (Hone 0%nat (S j) a x eq_refl Hj Ha Hpx).
  - apply IH. intros i j x y Hi Hj Hx Hy.
    by specialize (Hone (S i) (S j) x y Hi Hj Hx Hy) as [= ->].
Qed.

Lemma consistent_at_most_one st userId :
  consistent st -> (length (active_timers st userId) <= 1)%nat.
Proof.
  intros [Hrun _]. unfold active_timers. apply filter_at_most_one.
  intros i j x y Hi Hj Hx Hy.
  apply andb_true_iff in Hx as [Hx Hux]. apply andb_true_iff in Hy as [Hy Huy].
  apply Z.eqb_eq in Hux, Huy.
  pose proof (Hrun i x Hi Hx) as H1. pose proof (Hrun j y Hj Hy) as H2.
  rewrite Hux in H1. rewrite Huy in H2. congruence.
Qed.

Lemma consistent_initial : consistent initial.
Proof.
  split.
  - intros job task H. by destruct job.
  - intros userId job H. simpl in H. by rewrite lookup_empty in H.
Qed.

Lemma consistent_stop userId st :
  consistent st -> consistent (stopUserAutomation userId st).
Proof.
  intros [Hrun Hjob]. unfold stopUserAutomation.
  destruct (jobs st !! userId) as [job|] eqn:Hu; [|done].
  split; simpl.
  - intros j task Hj Hr.
    rewrite list_lookup_alter in Hj. destruct (decide (job = j)) as [->|Hne].
    + destruct (cron st !! j); simplify_eq/=.
    + pose proof (Hrun j task Hj Hr) as Hreg.
      rewrite lookup_delete_ne; [done|]. intros Heq. rewrite <- Heq in Hreg. congruence.
  - intros u j Hj. apply lookup_delete_Some in Hj as [Hne Hj].
    destruct (Hjob u j Hj) as (task & Ht & Hut & Hr).
    exists task. split; [|done].
    rewrite list_lookup_alter_ne; [done|]. intros <-.
    destruct (Hjob userId job Hu) as (task' & Ht' & Hut' & _). congruence.
Qed.

Lemma stop_unregisters userId st : jobs (stopUserAutomation userId st) !! userId = None.
Proof.
  unfold stopUserAutomation. destruct (jobs st !! userId) eqn:Hu; [|done].
  simpl. apply lookup_delete_eq.
Qed.

(** [stopUserAutomation] stops the registered timer. *)
Lemma stop_cancels userId st job :
  consistent st ->
  jobs st !! userId = Some job ->
  exists task, cron (stopUserAutomation userId st) !! job = Some task
               /\ ct_userId task = userId /\ ct_running task = false.
Proof.
  intros [_ Hjob] Hu. destruct (Hjob userId job Hu) as (task & Ht & Hut & _).
  unfold stopUserAutomation. rewrite Hu. simpl.
  exists (stop_task task). rewrite list_lookup_alter_eq, Ht. done.
Qed.

Lemma stop_length userId st : length (cron (stopUserAutomation userId st)) = length (cron st).
Proof.
  unfold stopUserAutomation. destruct (jobs st !! userId); [|done].
  simpl. apply length_alter.
Qed.

(** What a start that goes through does: stop, then register a new
    running task at the end. *)
Lemma start_enabled_eq user userId st :
  u_automation_enabled user = true ->
  cron_accepts (u_daily_summary_time user)
               (Js.or_str (u_timezone user) "America/New_York") = true ->
  startUserAutomation cron_accepts (Returns (Some user)) userId st
  = let st1 := stopUserAutomation userId st in
    {| jobs := <[userId := length (cron st1)]> (jobs st1);
       cron := cron st1 ++ [ {| ct_userId := userId;
                               ct_daily_summary_time := u_daily_summary_time user;
                               ct_timezone := Js.or_str (u_timezone user) "America/New_York";
                               ct_running := true |} ] |}.
Proof. intros He Ha. unfold startUserAutomation. by rewrite He, Ha. Qed.

Lemma consistent_register userId task st :
  consistent st ->
  jobs st !! userId = None ->
  ct_userId task = userId ->
  ct_running task = true ->
  consistent {| jobs := <[userId := length (cron st)]> (jobs st);
                cron := cron st ++ [task] |}.
Proof.
  intros [Hrun Hjob] Hfree Hu Hr. split; simpl.
  - intros j t Hj Hrt. apply lookup_snoc_Some in Hj as [[Hlt Hj]|[-> <-]].
    + pose proof (Hrun j t Hj Hrt) as Hreg.
      rewrite lookup_insert_ne; [done|]. intros Heq. rewrite <- Heq in Hreg. congruence.
    + rewrite Hu. apply lookup_insert_eq.
  - intros u j Hj. apply lookup_insert_Some in Hj as [[<- <-]|[Hne Hj]].
    + exists task. split; [|done]. by apply list_lookup_middle.
    + destruct (Hjob u j Hj) as (t & Ht & Hut & Hrt).
      exists t. split; [|done]. rewrite lookup_app_l; [done|].
      by apply lookup_lt_Some in Ht.
Qed.

Lemma consistent_start found userId st :
  consistent st -> consistent (startUserAutomation cron_accepts found userId st).
Proof.
  intros Hc. unfold startUserAutomation.
  destruct found as [[user|]|]; try done.
  destruct (u_automation_enabled user); simpl; [|done].
  destruct (cron_accepts _ _); [|by apply consistent_stop].
  apply consistent_register; [by apply consistent_stop | apply stop_unregisters | done..].
Qed.

Lemma stop_entries_lookup (entries : list (Z * nat)) (tasks : list CronTask) j task' :
  foldr (fun entry tasks => alter stop_task (snd entry) tasks) tasks entries !! j = Some task' ->
  exists task, tasks !! j = Some task
               /\ (task' = task \/ task' = stop_task task)
               /\ (j ∈ entries.*2 -> ct_running task' = false).
Proof.
  revert task'. induction entries as [|[u i] entries IH]; intros task' Hj; simpl in *.
  - exists task'. repeat split; [done | by left |].
    intros H. by apply elem_of_nil in H.
  - rewrite list_lookup_alter in Hj. destruct (decide (i = j)) as [->|Hne].
    + destruct (foldr _ tasks entries !! j) as [t1|] eqn:H1; simplify_eq/=.
      destruct (IH t1 eq_refl) as (task & Ht & Hcase & _).
      exists task. split; [done|]. split; [|done].
      right. by destruct Hcase as [->| ->].
    + destruct (IH task' Hj) as (task & Ht & Hcase & Hstopped).
      exists task. repeat split; [done | done |].
      intros Hin. apply elem_of_cons in Hin as [Heq|Hin]; [congruence | by apply Hstopped].
Qed.

Lemma consistent_stopAll st : consistent st -> consistent (stopAllAutomations st).
Proof.
  intros [Hrun _]. split; simpl.
  - intros j task' Hj Hr.
    destruct (stop_entries_lookup _ _ _ _ Hj) as (task & Ht & Hcase & Hstopped).
    destruct Hcase as [->| ->]; [|done].
    pose proof (Hrun j task Ht Hr) as Hreg.
    rewrite Hstopped in Hr; [done|].
    apply list_elem_of_fmap. exists (ct_userId task, j). split; [done|].
    by apply elem_of_map_to_list.
  - intros u j H. by rewrite lookup_empty in H.
Qed.

(** Every state that the calls reach is consistent. *)
Lemma consistent_run calls : consistent (run cron_accepts calls).
Proof.
  unfold run. generalize consistent_initial. generalize initial.
  induction calls as [|c calls IH]; intros st Hst; simpl; [done|].
  apply IH. destruct c as [found userId|userId|]; simpl.
  - by apply consistent_start.
  - by apply consistent_stop.
  - by apply consistent_stopAll.
Qed.

Lemma start_enabled_one_timer user userId st :
  consistent st ->
  u_automation_enabled user = true ->
  cron_accepts (u_daily_summary_time user)
               (Js.or_str (u_timezone user) "America/New_York") = true ->
  length (active_timers (startUserAutomation cron_accepts (Returns (Some user)) userId st)
                        userId) = 1%nat.
Proof.
  intros Hc He Ha.
  pose proof (consistent_at_most_one _ userId (consistent_start (Returns (Some user)) userId st Hc))
    as Hle.
  rewrite start_enabled_eq in * by done. cbv zeta in *.
  unfold active_timers in *. simpl in *.
  rewrite List.filter_app, length_app in *. simpl in *.
  rewrite Z.eqb_refl in *. simpl in *. lia.
Qed.

(** C5, as the code has it. In every state reached by calls of
    [startUserAutomation], [stopUserAutomation] and [stopAllAutomations], a
    user has at most one running timer. For a user whose record is found
    with automation enabled and whose schedule the scheduler library accepts,
    [startUserAutomation] first stops the registered timer and leaves exactly
    one running timer, also when called twice in a row. When the user is
    missing or has automation disabled, or the lookup fails,
    [startUserAutomation] changes nothing. [stopUserAutomation] on a user
    without a registered timer changes nothing. *)
Theorem one_timer_per_user
    (calls : list Call) (userId : Z) (user : User)
    (Henabled : u_automation_enabled user = true)
    (Haccepts : cron_accepts (u_daily_summary_time user)
                             (Js.or_str (u_timezone user) "America/New_York") = true) :
  let st := run cron_accepts calls in
  let st1 := startUserAutomation cron_accepts (Returns (Some user)) userId st in
  let st2 := startUserAutomation cron_accepts (Returns (Some user)) userId st1 in
  (forall anyUser, (length (active_timers st anyUser) <= 1)%nat)
  /\ (forall job, jobs st !! userId = Some job ->
                  ct_running <$> cron st1 !! job = Some false)
  /\ length (active_timers st1 userId) = 1%nat
  /\ (forall job, jobs st1 !! userId = Some job ->
                  ct_running <$> cron st2 !! job = Some false)
  /\ length (active_timers st2 userId) = 1%nat
  /\ (forall other error,
        u_automation_enabled other = false ->
        startUserAutomation cron_accepts (Returns (Some other)) userId st = st
        /\ startUserAutomation cron_accepts (Returns None) userId st = st
        /\ startUserAutomation cron_accepts (Throws error) userId st = st)
  /\ (jobs st !! userId = None -> stopUserAutomation userId st = st).
Proof.
  intros st st1 st2.
  assert (Hst : consistent st) by apply consistent_run.
  assert (Hst1 : consistent st1) by by apply consistent_start.
  assert (Hcancel : forall s job, consistent s -> jobs s !! userId = Some job ->
            ct_running <$> cron (startUserAutomation cron_accepts (Returns (Some user)) userId s)
                           !! job = Some false).
  { intros s job Hs Hjob. rewrite start_enabled_eq by done. cbv zeta. simpl.
    destruct (stop_cancels userId s job Hs Hjob) as (task & Ht & _ & Hr).
    rewrite lookup_app_l by (by apply lookup_lt_Some in Ht).
    by rewrite Ht, <- Hr. }
  split; [intros anyUser; by apply consistent_at_most_one|].
  split; [intros job; by apply Hcancel|].
  split; [by apply start_enabled_one_timer|].
  split; [intros job; by apply Hcancel|].
  split; [by apply start_enabled_one_timer|].
  split.
  - intros other error Hoff. unfold startUserAutomation. by rewrite Hoff.
  - intros Hnone. unfold stopUserAutomation. by rewrite Hnone.
Qed.

End Timers.

(** The theorem on the example user, started on a fresh service. *)
Lemma one_timer_per_user_witness :
  let st2 :=
    AutomationService.startUserAutomation accept_all (Returns (Some example_user)) 1
      (AutomationService.startUserAutomation accept_all (Returns (Some example_user)) 1
         (AutomationService.run accept_all [])) in
  length (AutomationService.active_timers st2 1) = 1%nat.
Proof.
  exact (proj1 (proj2 (proj2 (proj2 (proj2
    (one_timer_per_user accept_all [] 1 example_user eq_refl eq_refl)))))).
Defined.

(** C5 as stated fails for a user whose automation is disabled: two starts
    in a row leave no timer, and a start while a timer is registered leaves
    that timer running. *)
Lemma start_skips_disabled_user :
  ~ (forall found userId,
       let st := AutomationService.run accept_all [] in
       let st2 := AutomationService.startUserAutomation accept_all found userId
                    (AutomationService.startUserAutomation accept_all found userId st) in
       length (AutomationService.active_timers st2 userId) = 1%nat)
  /\ ~ (forall calls found userId job,
          let st := AutomationService.run accept_all calls in
          AutomationService.jobs st !! userId = Some job ->
          AutomationService.ct_running
            <$> AutomationService.cron
                  (AutomationService.startUserAutomation accept_all found userId st) !! job
          = Some false).
Proof.
  split.
  - intros H. specialize (H (Returns (Some disabled_user)) 1). vm_compute in H. discriminate H.
  - intros H.
    specialize (H [AutomationService.call_start (Returns (Some example_user)) 1]
                  (Returns (Some disabled_user)) 1 0%nat eq_refl).
    vm_compute in H. discriminate H.
Qed.

(* ------------------------------------------------------------------------- *)
(** ** The manual trigger of the daily summary *)

Section Trigger.

Import AutomationService.

Variable DEFAULT_WHATSAPP_RECIPIENT : option string.

(** A handler that cannot throw makes the whole [try] unable to throw. *)
Lemma try_catch_returns {A} (body : Task A) (handler : string -> Task A) :
  (forall error, exists log a, handler error = (log, Returns a)) ->
  exists log a, try_catch body handler = (log, Returns a).
Proof.
  intros Hh. destruct body as [log [a|error]]; simpl; [by eauto|].
  destruct (Hh error) as (log' & a & ->). by eauto.
Qed.

Lemma bind_returns {A B} (m : Task A) (k : A -> Task B) log a :
  m = (log, Returns a) -> bind m k = (log ++ fst (k a), snd (k a)).
Proof. intros ->. simpl. by destruct (k a). Qed.

(** [sendDailySummary] of the automation service resolves in every case. *)
Lemma sendDailySummary_never_throws (c : Collaborators) (userId : Z) :
  exists log, sendDailySummary DEFAULT_WHATSAPP_RECIPIENT c userId = (log, Returns tt).
Proof.
  unfold sendDailySummary.
  match goal with
  | |- context [try_catch ?body ?handler] =>
      destruct (try_catch_returns body handler) as (log & [] & ->); [|by eauto]
  end.
  intros error. apply try_catch_returns. intros notifyError. by exists [], tt.
Qed.

(** C10. Whatever the collaborators do (the user lookups, the summary
    builder and the senders may each resolve or reject, the user may be
    missing or have automation disabled), [sendDailySummary] resolves and
    [triggerDailySummary] returns [{success: true, message: 'Daily summary
    sent successfully'}]; its [{success: false}] result is never produced. *)
Theorem triggerDailySummary_always_reports_success (c : Collaborators) (userId : Z) :
  snd (triggerDailySummary DEFAULT_WHATSAPP_RECIPIENT c userId)
  = Returns {| success := true;
               message := Some "Daily summary sent successfully";
               error := None |}
  /\ (forall result,
        snd (triggerDailySummary DEFAULT_WHATSAPP_RECIPIENT c userId) = Returns result ->
        success result = true)
  /\ snd (sendDailySummary DEFAULT_WHATSAPP_RECIPIENT c userId) = Returns tt.
Proof.
  destruct (sendDailySummary_never_throws c userId) as [log Hsend].
  assert (Htrigger : snd (triggerDailySummary DEFAULT_WHATSAPP_RECIPIENT c userId)
                     = Returns {| success := true;
                                  message := Some "Daily summary sent successfully";
                                  error := None |}).
  { unfold triggerDailySummary. rewrite (bind_returns _ _ log tt Hsend). reflexivity. }
  split; [exact Htrigger|]. split; [|by rewrite Hsend].
  intros result Hres. rewrite Htrigger in Hres. by injection Hres as <-.
Qed.

End Trigger.

(** A delivered summary, a missing user and a run in which every
    collaborator throws give the caller the same result, although only the
    first sent anything. *)
Example trigger_results_coincide :
  snd (AutomationService.triggerDailySummary None delivered_run 1)
  = snd (AutomationService.triggerDailySummary None missing_user_run 1)
  /\ snd (AutomationService.triggerDailySummary None delivered_run 1)
     = snd (AutomationService.triggerDailySummary None failing_run 1)
  /\ fst (AutomationService.triggerDailySummary None delivered_run 1)
     = [AutomationService.summary_sent ["+15550001"; "+15550002"; "+15550003"]
          "schedule" true]
  /\ fst (AutomationService.triggerDailySummary None missing_user_run 1) = []
  /\ fst (AutomationService.triggerDailySummary None failing_run 1) = [].
Proof. vm_compute. repeat split. Qed.

(** The theorem on the run in which every collaborator throws. *)
Lemma triggerDailySummary_always_reports_success_witness :
  snd (AutomationService.triggerDailySummary None failing_run 1)
  = Returns {| AutomationService.success := true;
               AutomationService.message := Some "Daily summary sent successfully";
               AutomationService.error := None |}.
Proof.
  exact (proj1 (triggerDailySummary_always_reports_success None failing_run 1)).
Defined.

(** The summary and the description are joined by a space before the scan:
    a keyword split across the two is not found. *)
Example categorizeEvent_joins_with_space :
  CalendarEventFactory.categorizeEvent "meet" (Some "ing") = UNKNOWN
  /\ CalendarEventFactory.categorizeEvent "Team MEETING" None = WORK
  /\ CalendarEventFactory.categorizeEvent "Lunch meeting" None = WORK
  /\ CalendarEventFactory.categorizeEvent "Lunch" (Some "with a friend") = PERSONAL.
Proof. vm_compute. repeat split. Qed.

(* ========================================================================= *)
(** * Further properties of the code *)

(* ------------------------------------------------------------------------- *)
(** ** The snapshot store: uniqueness, round trips, counts *)

Section StoreOperations.

Import CalendarEventModel CalendarEventQueries CalendarService AutomationService.

Context {schema : Schema}.

Lemma keys_upsert now d db :
  keys (upsert now d db)
  = if existsb (has_key (ed_userId d) (ed_eventId d)) db
    then keys db
    else keys db ++ [(ed_userId d, ed_eventId d)].
Proof.
  unfold upsert, insert_on_conflict, keys.
  destruct (existsb _ db).
  - rewrite List.map_map. apply List.map_ext. intros row.
    by destruct (has_key _ _ row).
  - by rewrite List.map_app.
Qed.

Lemma keys_markAsCancelled now u e db : keys (markAsCancelled now u e db) = keys db.
Proof.
  unfold markAsCancelled, keys. rewrite List.map_map. apply List.map_ext.
  intros row. by destruct (has_key u e row).
Qed.

Lemma key_absent u e db :
  existsb (has_key u e) db = false -> (u, e) ∉ keys db.
Proof.
  intros Hex Hin. unfold keys in Hin. apply list_elem_of_fmap in Hin as [row [Hk Hrow]].
  injection Hk as -> ->.
  assert (existsb (has_key (ce_user_id row) (ce_event_id row)) db = true); [|congruence].
  apply existsb_exists. exists row. split; [by apply list_elem_of_In|].
  by apply has_key_true.
Qed.

Lemma NoDup_keys_filter (P : CalendarEvent -> bool) db :
  NoDup (keys db) -> NoDup (keys (List.filter P db)).
Proof.
  induction db as [|row db IH]; simpl; [done|].
  intros Hnd. apply NoDup_cons in Hnd as [Hnotin Hnd].
  destruct (P row); simpl; [|by apply IH].
  apply NoDup_cons. split; [|by apply IH].
  intros Hin. apply Hnotin. unfold keys in *.
  apply list_elem_of_fmap in Hin as [r [Hk Hr]].
  apply list_elem_of_fmap. exists r. split; [done|].
  apply list_elem_of_In, filter_In in Hr as [Hr _]. by apply list_elem_of_In.
Qed.

Lemma NoDup_keys_upsert now d db : NoDup (keys db) -> NoDup (keys (upsert now d db)).
Proof.
  intros Hnd. rewrite keys_upsert.
  destruct (existsb _ db) eqn:Hex; [done|].
  apply NoDup_app. split; [done|]. split.
  - intros k Hk Hin. apply list_elem_of_singleton in Hin as ->.
    by apply key_absent in Hex.
  - apply NoDup_singleton.
Qed.

Lemma NoDup_keys_syncEvents now u events db :
  NoDup (keys db) -> NoDup (keys (syncEvents now u events db)).
Proof.
  revert db. induction events as [|g events IH]; intros db Hnd; [done|].
  rewrite syncEvents_cons. by apply IH, NoDup_keys_upsert.
Qed.

Lemma NoDup_keys_processChanges now u changes db :
  NoDup (keys db) -> NoDup (keys (processChanges now u changes db)).
Proof.
  revert db. induction changes as [|c changes IH]; intros db Hnd; simpl; [done|].
  destruct c as [g|g|s].
  - by apply IH, NoDup_keys_upsert.
  - by apply IH, NoDup_keys_upsert.
  - destruct (markAsCancelled_returning now u (ce_event_id s) db).
    + apply IH. by rewrite keys_markAsCancelled.
    + by rewrite keys_markAsCancelled.
Qed.

Lemma rows_under_key_at_most_one u e db :
  NoDup (keys db) -> (length (List.filter (has_key u e) db) <= 1)%nat.
Proof.
  induction db as [|row db IH]; simpl; [lia|].
  intros Hnd. apply NoDup_cons in Hnd as [Hnotin Hnd].
  destruct (has_key u e row) eqn:Hk; [|by apply IH].
  rewrite filter_none; [simpl; lia|].
  intros r Hr. destruct (has_key u e r) eqn:Hkr; [|done].
  destruct Hnotin. apply has_key_true in Hk as [-> ->].
  apply has_key_true in Hkr as [Hu He].
  unfold keys. apply list_elem_of_fmap. exists r. by rewrite Hu, He.
Qed.

Lemma rows_under_key_positive u e db :
  existsb (has_key u e) db = true -> (1 <= length (List.filter (has_key u e) db))%nat.
Proof.
  induction db as [|row db IH]; simpl; [discriminate|].
  destruct (has_key u e row); simpl; [lia | exact IH].
Qed.

(** X1. Every operation that writes the table keeps the pairs
    [(user_id, event_id)] of its rows distinct; after [upsert] there is
    exactly one row under the key of the data, and the table has grown by one
    row exactly when that key was new. *)
Theorem store_keeps_keys_unique
    (now : Z) (eventData : CreateEventData) (db : Table)
    (Hunique : NoDup (keys db)) :
  NoDup (keys (upsert now eventData db))
  /\ length (List.filter (has_key (ed_userId eventData) (ed_eventId eventData))
                         (upsert now eventData db)) = 1%nat
  /\ length (upsert now eventData db)
     = (length db
        + if existsb (has_key (ed_userId eventData) (ed_eventId eventData)) db
          then 0 else 1)%nat
  /\ (forall userId eventId, NoDup (keys (markAsCancelled now userId eventId db)))
  /\ (forall userId eventId,
        NoDup (keys (fst (deleteByUserIdAndEventId db userId eventId))))
  /\ (forall userId events, NoDup (keys (syncEvents now userId events db)))
  /\ (forall userId changes, NoDup (keys (processChanges now userId changes db))).
Proof.
  split; [by apply NoDup_keys_upsert|].
  split.
  { pose proof (rows_under_key_at_most_one (ed_userId eventData) (ed_eventId eventData)
                  _ (NoDup_keys_upsert now eventData db Hunique)).
    pose proof (rows_under_key_positive _ _ _ (upsert_key_present now eventData db)).
    lia. }
  split.
  { unfold upsert, insert_on_conflict. destruct (existsb _ db).
    - rewrite length_map. lia.
    - rewrite length_app. simpl. lia. }
  split; [intros; by rewrite keys_markAsCancelled|].
  split; [intros; by apply NoDup_keys_filter|].
  split; [intros; by apply NoDup_keys_syncEvents|].
  intros; by apply NoDup_keys_processChanges.
Qed.

Lemma find_map_fixed (P : CalendarEvent -> bool) (f : CalendarEvent -> CalendarEvent) db :
  (forall row, P (f row) = P row) ->
  (forall row, P row = true -> f row = row) ->
  List.find P (List.map f db) = List.find P db.
Proof.
  intros Hp Hf. induction db as [|row db IH]; simpl; [done|].
  rewrite Hp. destruct (P row) eqn:Hrow; [by rewrite Hf | exact IH].
Qed.

Lemma find_app_miss (P : CalendarEvent -> bool) db row :
  P row = false -> List.find P (db ++ [row]) = List.find P db.
Proof.
  intros Hrow. induction db as [|r db IH]; simpl; [by rewrite Hrow|].
  destruct (P r); [done | exact IH].
Qed.

Lemma has_key_other u e u' e' row :
  (u', e') <> (u, e) -> has_key u e row = true -> has_key u' e' row = false.
Proof.
  intros Hne Hk. apply has_key_true in Hk as [Hu He].
  destruct (has_key u' e' row) eqn:Hk'; [|done].
  apply has_key_true in Hk' as [Hu' He']. destruct Hne. congruence.
Qed.

(** [upsert] does not change what is found under another key. *)
Lemma upsert_find_other now d db u e :
  (u, e) <> (ed_userId d, ed_eventId d) ->
  findByUserIdAndEventId (upsert now d db) u e = findByUserIdAndEventId db u e.
Proof.
  intros Hne. unfold findByUserIdAndEventId, upsert, insert_on_conflict.
  destruct (existsb _ db).
  - apply find_map_fixed.
    + intros row. by destruct (has_key (ed_userId d) (ed_eventId d) row).
    + intros row Hk. destruct (has_key (ed_userId d) (ed_eventId d) row) eqn:Hd; [|done].
      by rewrite (has_key_other (ed_userId d) (ed_eventId d) u e row Hne Hd) in Hk.
  - apply find_app_miss.
    apply (has_key_other (ed_userId d) (ed_eventId d)); [done|].
    apply has_key_inserted_row.
Qed.

(** X2. After [upsert] the lookup by the key of the data returns a row
    carrying every column of the data (a description or location that the
    data leaves out is stored as [NULL]), and the lookup by any other key
    returns what it returned before. *)
Theorem upsert_then_find
    (now : Z) (eventData : CreateEventData) (db : Table) (userId : Z) (eventId : string) :
  (exists row,
     findByUserIdAndEventId (upsert now eventData db)
       (ed_userId eventData) (ed_eventId eventData) = Some row
     /\ ce_user_id row = ed_userId eventData
     /\ ce_event_id row = ed_eventId eventData
     /\ ce_summary row = ed_summary eventData
     /\ ce_description row = Js.to_column (ed_description eventData)
     /\ ce_location row = Js.to_column (ed_location eventData)
     /\ ce_start_time row = ed_startTime eventData
     /\ ce_end_time row = ed_endTime eventData
     /\ ce_all_day row = ed_allDay eventData
     /\ ce_event_type row = ed_eventType eventData
     /\ ce_status row = ed_status eventData
     /\ ce_attendees row = default [] (ed_attendees eventData))
  /\ ((userId, eventId) <> (ed_userId eventData, ed_eventId eventData) ->
      findByUserIdAndEventId (upsert now eventData db) userId eventId
      = findByUserIdAndEventId db userId eventId).
Proof.
  split; [|by apply upsert_find_other].
  pose proof (upsert_returning_eq now eventData db) as Hret.
  unfold upsert_returning in Hret. eexists. split; [exact Hret|].
  destruct (findByUserIdAndEventId db _ _) as [stored|] eqn:Hfind; simpl.
  - apply find_some in Hfind as [_ Hk]. apply has_key_true in Hk as [-> ->].
    by repeat split.
  - by repeat split.
Qed.

Lemma find_filter_miss u e db :
  List.find (has_key u e) (List.filter (fun row => negb (has_key u e row)) db) = None.
Proof.
  induction db as [|row db IH]; simpl; [done|].
  destruct (has_key u e row) eqn:Hk; simpl; [exact IH|]. by rewrite Hk.
Qed.

Lemma find_filter_other u e u' e' db :
  (u', e') <> (u, e) ->
  List.find (has_key u' e') (List.filter (fun row => negb (has_key u e row)) db)
  = List.find (has_key u' e') db.
Proof.
  intros Hne. induction db as [|row db IH]; simpl; [done|].
  destruct (has_key u e row) eqn:Hk; simpl.
  - by rewrite (has_key_other u e u' e' row Hne Hk).
  - destruct (has_key u' e' row); [done | exact IH].
Qed.

Lemma filter_all {A} (P : A -> bool) (l : list A) :
  (forall x, x ∈ l -> P x = true) -> List.filter P l = l.
Proof.
  induction l as [|a l IH]; intros Hall; simpl; [done|].
  rewrite (Hall a (list_elem_of_here _ _)). f_equal. apply IH.
  intros x Hx. apply Hall. by apply list_elem_of_further.
Qed.

(** X3. [deleteByUserIdAndEventId] answers [true] exactly when a row was
    stored under the key; afterwards nothing is found under the key, the
    lookups by every other key are unchanged, and when it answers [false] the
    table is as it was. *)
Theorem delete_by_key (db : Table) (userId : Z) (eventId : string) :
  let db' := fst (deleteByUserIdAndEventId db userId eventId) in
  let removed := snd (deleteByUserIdAndEventId db userId eventId) in
  (removed = true <-> is_Some (findByUserIdAndEventId db userId eventId))
  /\ findByUserIdAndEventId db' userId eventId = None
  /\ (forall userId' eventId',
        (userId', eventId') <> (userId, eventId) ->
        findByUserIdAndEventId db' userId' eventId'
        = findByUserIdAndEventId db userId' eventId')
  /\ (removed = false -> db' = db).
Proof.
  intros db' removed. subst db' removed. unfold deleteByUserIdAndEventId. simpl.
  assert (Hcount : Nat.ltb 0 (length (List.filter (has_key userId eventId) db))
                   = existsb (has_key userId eventId) db).
  { induction db as [|row db IH]; simpl; [done|].
    destruct (has_key userId eventId row); simpl; [done | exact IH]. }
  rewrite Hcount. split; [|split; [|split]].
  - unfold findByUserIdAndEventId.
    destruct (List.find _ db) eqn:Hfind.
    + split; [by eauto|]. intros _.
      destruct (existsb _ db) eqn:Hex; [done|].
      apply find_none_existsb in Hex. congruence.
    + apply find_none_existsb in Hfind. rewrite Hfind.
      split; [discriminate | by intros [? ?]].
  - apply find_filter_miss.
  - intros u' e' Hne. by apply find_filter_other.
  - intros Hex. apply filter_all. intros row Hrow.
    apply list_elem_of_In in Hrow. rewrite <- find_none_existsb in Hex.
    by rewrite (find_none _ _ Hex row Hrow).
Qed.

(** X4. Inserting an event under a new key and deleting it by that key
    gives the table back. *)
Theorem upsert_then_delete
    (now : Z) (eventData : CreateEventData) (db : Table)
    (Hnew : findByUserIdAndEventId db (ed_userId eventData) (ed_eventId eventData) = None) :
  deleteByUserIdAndEventId (upsert now eventData db)
    (ed_userId eventData) (ed_eventId eventData)
  = (db, true).
Proof.
  unfold findByUserIdAndEventId in Hnew.
  pose proof Hnew as Hex. apply find_none_existsb in Hex.
  unfold upsert, insert_on_conflict. rewrite Hex.
  unfold deleteByUserIdAndEventId. rewrite !List.filter_app. simpl.
  rewrite has_key_inserted_row. simpl. rewrite app_nil_r.
  rewrite (filter_none (has_key (ed_userId eventData) (ed_eventId eventData)) db).
  2: { intros row Hrow. apply list_elem_of_In in Hrow. by apply (find_none _ _ Hnew). }
  rewrite filter_all; [done|].
  intros row Hrow. apply list_elem_of_In in Hrow.
  by rewrite (find_none _ _ Hnew row Hrow).
Qed.

Lemma count_map_same_user (f : CalendarEvent -> CalendarEvent) db counted :
  (forall row, ce_user_id (f row) = ce_user_id row) ->
  countByUserId (List.map f db) counted = countByUserId db counted.
Proof.
  intros Hf. unfold countByUserId.
  induction db as [|row db IH]; simpl; [done|].
  rewrite Hf. destruct (Z.eqb (ce_user_id row) counted); simpl; by rewrite IH.
Qed.

(** X5. [countByUserId] grows by one when [upsert] inserts a new key of
    that user and is otherwise unchanged by [upsert]; [markAsCancelled] never
    changes it; [deleteByUserIdAndEventId] lowers it by the number of rows it
    removed, for that user only. *)
Theorem countByUserId_after_writes
    (now : Z) (eventData : CreateEventData) (db : Table)
    (userId : Z) (eventId : string) (counted : Z) :
  countByUserId (upsert now eventData db) counted
  = (countByUserId db counted
     + if Z.eqb (ed_userId eventData) counted
          && negb (existsb (has_key (ed_userId eventData) (ed_eventId eventData)) db)
       then 1 else 0)%nat
  /\ countByUserId (markAsCancelled now userId eventId db) counted
     = countByUserId db counted
  /\ (countByUserId (fst (deleteByUserIdAndEventId db userId eventId)) counted
      + if Z.eqb userId counted
        then length (List.filter (has_key userId eventId) db) else 0)%nat
     = countByUserId db counted.
Proof.
  split; [|split].
  - unfold upsert, insert_on_conflict. destruct (existsb _ db); simpl.
    + rewrite andb_false_r, Nat.add_0_r. apply count_map_same_user.
      intros row. by destruct (has_key _ _ row).
    + rewrite andb_true_r. unfold countByUserId.
      rewrite List.filter_app, length_app. simpl.
      by destruct (Z.eqb (ed_userId eventData) counted).
  - unfold markAsCancelled. apply count_map_same_user.
    intros row. by destruct (has_key _ _ row).
  - unfold countByUserId, deleteByUserIdAndEventId. simpl.
    induction db as [|row db IH]; simpl; [by destruct (Z.eqb userId counted)|].
    destruct (has_key userId eventId row) eqn:Hk; simpl.
    + apply has_key_true in Hk as [Hu _]. rewrite Hu.
      destruct (Z.eqb userId counted); simpl in *; lia.
    + destruct (Z.eqb (ce_user_id row) counted); simpl;
        destruct (Z.eqb userId counted); simpl in *; lia.
Qed.

(** [markAsCancelled] on a key without rows changes nothing. *)
Lemma markAsCancelled_missing now u e db :
  findByUserIdAndEventId db u e = None -> markAsCancelled now u e db = db.
Proof.
  intros Hnone. unfold markAsCancelled.
  rewrite <- (List.map_id db) at 2. apply List.map_ext_in.
  intros row Hrow. by rewrite (find_none _ _ Hnone row Hrow).
Qed.

(** X6. [markAsCancelled] for an event without a stored row updates
    nothing and throws; in [processChanges] this stops the loop, so a
    [deleted] record without a row leaves the table as it is and none of the
    records after it is applied. *)
Theorem markAsCancelled_without_row
    (now : Z) (userId : Z) (event : CalendarEvent) (db : Table)
    (Hmissing : findByUserIdAndEventId db userId (ce_event_id event) = None) :
  markAsCancelled now userId (ce_event_id event) db = db
  /\ markAsCancelled_returning now userId (ce_event_id event) db = None
  /\ (forall rest, processChanges now userId (deleted event :: rest) db = db).
Proof.
  assert (Hsame := markAsCancelled_missing now userId (ce_event_id event) db Hmissing).
  assert (Hret : markAsCancelled_returning now userId (ce_event_id event) db = None).
  { unfold markAsCancelled_returning. by rewrite Hsame. }
  split; [done|]. split; [done|].
  intros rest. simpl. by rewrite Hret.
Qed.

End StoreOperations.

(* ------------------------------------------------------------------------- *)
(** ** Passes of different users do not interfere *)

Section UserIsolation.

Import CalendarEventModel CalendarService AutomationService.

Context {schema : Schema}.
Variable credentials : WhatsAppService.Credentials.
Variable post : list (string * string) -> string -> string -> bool.
Variable toLocaleTimeString : Z -> string.
Variable DEFAULT_WHATSAPP_RECIPIENT : option string.

Lemma rows_of_map (f : CalendarEvent -> CalendarEvent) v db :
  (forall row, ce_user_id (f row) = ce_user_id row) ->
  rows_of v (List.map f db) = List.map f (rows_of v db).
Proof.
  intros Hf. unfold rows_of. induction db as [|row db IH]; simpl; [done|].
  rewrite Hf. destruct (Z.eqb (ce_user_id row) v); simpl; by rewrite IH.
Qed.

Lemma rows_of_elem v db row : row ∈ rows_of v db <-> row ∈ db /\ ce_user_id row = v.
Proof.
  unfold rows_of. by rewrite !list_elem_of_In, filter_In, Z.eqb_eq.
Qed.

Lemma find_rows_of v e db :
  List.find (has_key v e) (rows_of v db) = List.find (has_key v e) db.
Proof.
  unfold rows_of. induction db as [|row db IH]; simpl; [done|].
  destruct (Z.eqb (ce_user_id row) v) eqn:Hu; simpl.
  - destruct (has_key v e row); [done | exact IH].
  - unfold has_key at 2. by rewrite Hu.
Qed.

Lemma existsb_rows_of v e db :
  existsb (has_key v e) (rows_of v db) = existsb (has_key v e) db.
Proof.
  pose proof (find_rows_of v e db) as Hfind.
  destruct (existsb (has_key v e) db) eqn:Hex.
  - destruct (existsb (has_key v e) (rows_of v db)) eqn:Hex'; [done|].
    apply find_none_existsb in Hex'. rewrite Hex' in Hfind.
    symmetry in Hfind. apply find_none_existsb in Hfind. congruence.
  - apply find_none_existsb in Hex. rewrite Hex in Hfind.
    by apply find_none_existsb in Hfind.
Qed.

Lemma map_fixed {A} (f : A -> A) (l : list A) :
  (forall x, x ∈ l -> f x = x) -> List.map f l = l.
Proof.
  intros Hf. rewrite <- (List.map_id l) at 2. apply List.map_ext_in.
  intros x Hx. apply Hf. by apply list_elem_of_In.
Qed.

Lemma rows_of_upsert_other now d db v :
  ed_userId d <> v -> rows_of v (upsert now d db) = rows_of v db.
Proof.
  intros Hne. unfold upsert, insert_on_conflict. destruct (existsb _ db).
  - rewrite rows_of_map by (intros row; by destruct (has_key _ _ row)).
    apply map_fixed. intros row Hrow. apply rows_of_elem in Hrow as [_ Hu].
    destruct (has_key _ _ row) eqn:Hk; [|done].
    apply has_key_true in Hk as [Hk _]. congruence.
  - unfold rows_of. rewrite List.filter_app. simpl.
    destruct (Z.eqb_spec (ed_userId d) v); [done | by rewrite app_nil_r].
Qed.

Lemma rows_of_upsert_own now d db :
  rows_of (ed_userId d) (upsert now d db) = upsert now d (rows_of (ed_userId d) db).
Proof.
  unfold upsert, insert_on_conflict, findByUserIdAndEventId.
  rewrite find_rows_of, existsb_rows_of. destruct (existsb _ db).
  - apply rows_of_map. intros row. by destruct (has_key _ _ row).
  - unfold rows_of. rewrite List.filter_app. simpl. by rewrite Z.eqb_refl.
Qed.

Lemma rows_of_markAsCancelled_other now u e db v :
  u <> v -> rows_of v (markAsCancelled now u e db) = rows_of v db.
Proof.
  intros Hne. unfold markAsCancelled.
  rewrite rows_of_map by (intros row; by destruct (has_key _ _ row)).
  apply map_fixed. intros row Hrow. apply rows_of_elem in Hrow as [_ Hu].
  destruct (has_key u e row) eqn:Hk; [|done].
  apply has_key_true in Hk as [Hk _]. congruence.
Qed.

Lemma rows_of_markAsCancelled_own now u e db :
  rows_of u (markAsCancelled now u e db) = markAsCancelled now u e (rows_of u db).
Proof.
  unfold markAsCancelled. apply rows_of_map. intros row. by destruct (has_key _ _ row).
Qed.

Lemma markAsCancelled_returning_rows_of now u e db :
  markAsCancelled_returning now u e (rows_of u db) = markAsCancelled_returning now u e db.
Proof.
  unfold markAsCancelled_returning, findByUserIdAndEventId.
  by rewrite <- rows_of_markAsCancelled_own, find_rows_of.
Qed.

Lemma rows_of_processChanges_other now u changes db v :
  u <> v -> rows_of v (processChanges now u changes db) = rows_of v db.
Proof.
  intros Hne. revert db. induction changes as [|c changes IH]; intros db; simpl; [done|].
  destruct c as [g|g|s].
  - rewrite IH. by apply rows_of_upsert_other.
  - rewrite IH. by apply rows_of_upsert_other.
  - destruct (markAsCancelled_returning now u (ce_event_id s) db).
    + rewrite IH. by apply rows_of_markAsCancelled_other.
    + by apply rows_of_markAsCancelled_other.
Qed.

Lemma rows_of_processChanges_own now u changes db :
  rows_of u (processChanges now u changes db) = processChanges now u changes (rows_of u db).
Proof.
  revert db. induction changes as [|c changes IH]; intros db; simpl; [done|].
  destruct c as [g|g|s].
  - rewrite IH. f_equal. apply (rows_of_upsert_own now (eventData_of now u g) db).
  - rewrite IH. f_equal. apply (rows_of_upsert_own now (eventData_of now u g) db).
  - rewrite markAsCancelled_returning_rows_of.
    destruct (markAsCancelled_returning now u (ce_event_id s) db).
    + rewrite IH. f_equal. apply rows_of_markAsCancelled_own.
    + apply rows_of_markAsCancelled_own.
Qed.

Lemma filter_filter_implied {A} (P Q : A -> bool) (l : list A) :
  (forall x, P x = true -> Q x = true) ->
  List.filter P (List.filter Q l) = List.filter P l.
Proof.
  intros Himp. induction l as [|a l IH]; simpl; [done|].
  destruct (Q a) eqn:Hq; simpl.
  - destruct (P a); by rewrite IH.
  - destruct (P a) eqn:Hp; [|exact IH]. apply Himp in Hp. congruence.
Qed.

(** The range query of a user reads the rows of that user only. *)
Lemma findByUserIdAndDateRange_rows_of db u startDate endDate :
  findByUserIdAndDateRange (rows_of u db) u startDate endDate
  = findByUserIdAndDateRange db u startDate endDate.
Proof.
  unfold findByUserIdAndDateRange, rows_of. f_equal.
  apply filter_filter_implied. intros row Hrow.
  by apply andb_true_iff in Hrow as [Hrow _]; apply andb_true_iff in Hrow as [Hrow _].
Qed.

Lemma checkForChanges_rows_of now fetched db u :
  checkForChanges now fetched (rows_of u db) u = checkForChanges now fetched db u.
Proof.
  unfold checkForChanges. destruct fetched; [|done].
  by rewrite findByUserIdAndDateRange_rows_of.
Qed.

Lemma pass_rows_other now user response w other :
  u_id user <> other ->
  rows_of other
    (w_db (checkUserForChanges credentials post toLocaleTimeString
             DEFAULT_WHATSAPP_RECIPIENT now user response w))
  = rows_of other (w_db w).
Proof.
  intros Hother. unfold checkUserForChanges.
  destruct (Nat.ltb 0 _); [|done].
  destruct (WhatsAppService.sendChangeNotification _ _ _ _ _ _) as [ok ch]. simpl.
  by apply rows_of_processChanges_other.
Qed.

Lemma pass_restricted now user response w :
  checkUserForChanges credentials post toLocaleTimeString DEFAULT_WHATSAPP_RECIPIENT
    now user response (world_of (u_id user) w)
  = world_of (u_id user)
      (checkUserForChanges credentials post toLocaleTimeString DEFAULT_WHATSAPP_RECIPIENT
         now user response w).
Proof.
  unfold checkUserForChanges, world_of. simpl.
  rewrite checkForChanges_rows_of.
  destruct (Nat.ltb 0 _); [|done].
  destruct (WhatsAppService.sendChangeNotification _ _ _ _ _ _) as [ok ch]. simpl.
  by rewrite rows_of_processChanges_own.
Qed.

Lemma pass_db_ignores_channel now user response w ch :
  w_db (checkUserForChanges credentials post toLocaleTimeString DEFAULT_WHATSAPP_RECIPIENT
          now user response {| w_db := w_db w; w_channel := ch |})
  = w_db (checkUserForChanges credentials post toLocaleTimeString DEFAULT_WHATSAPP_RECIPIENT
            now user response w).
Proof.
  unfold checkUserForChanges. simpl.
  destruct (Nat.ltb 0 _); [|done].
  by do 2 destruct (WhatsAppService.sendChangeNotification _ _ _ _ _ _).
Qed.

(** The rows of a user after its pass are the same whether or not the pass
    of another user ran before. *)
Lemma pass_after_other now (x y : User) fx fy w :
  u_id x <> u_id y ->
  rows_of (u_id x)
    (w_db (checkUserForChanges credentials post toLocaleTimeString DEFAULT_WHATSAPP_RECIPIENT
             now x fx
             (checkUserForChanges credentials post toLocaleTimeString
                DEFAULT_WHATSAPP_RECIPIENT now y fy w)))
  = rows_of (u_id x)
      (w_db (checkUserForChanges credentials post toLocaleTimeString
               DEFAULT_WHATSAPP_RECIPIENT now x fx w)).
Proof.
  intros Hxy.
  pose proof (f_equal w_db (pass_restricted now x fx
                (checkUserForChanges credentials post toLocaleTimeString
                   DEFAULT_WHATSAPP_RECIPIENT now y fy w))) as H1.
  pose proof (f_equal w_db (pass_restricted now x fx w)) as H2. simpl in H1, H2.
  rewrite <- H1, <- H2. unfold world_of.
  rewrite (pass_rows_other now y fy w (u_id x)) by congruence.
  apply (pass_db_ignores_channel now x fx
           {| w_db := rows_of (u_id x) (w_db w); w_channel := w_channel w |}).
Qed.

(** X7. A polling pass for one user leaves the rows of every other user
    as they are, in the same order. *)
Theorem pass_leaves_other_users_rows
    (now : Z) (user : User) (response : Outcome (option (list GoogleEvent)))
    (w : World) (other : Z)
    (Hother : u_id user <> other) :
  rows_of other
    (w_db (checkUserForChanges credentials post toLocaleTimeString
             DEFAULT_WHATSAPP_RECIPIENT now user response w))
  = rows_of other (w_db w).
Proof. by apply pass_rows_other. Qed.

(** X8. What a pass does to the rows of its user, and what it sends, is
    determined by those rows alone: running the pass on the table restricted
    to the user's rows gives the restriction of the result. *)
Theorem pass_reads_own_rows_only
    (now : Z) (user : User) (response : Outcome (option (list GoogleEvent))) (w : World) :
  checkUserForChanges credentials post toLocaleTimeString DEFAULT_WHATSAPP_RECIPIENT
    now user response (world_of (u_id user) w)
  = world_of (u_id user)
      (checkUserForChanges credentials post toLocaleTimeString DEFAULT_WHATSAPP_RECIPIENT
         now user response w).
Proof. apply pass_restricted. Qed.

(** X10. The sweep over users with distinct ids treats each of them as
    if alone: afterwards the rows of a visited user are those that its own
    pass gives on the table before the sweep, and the rows of every other
    user are as before. When the list of users cannot be read, nothing
    changes. *)
Theorem sweep_treats_users_separately
    (now : Z) (users : list User) (feed : Z -> Outcome (option (list GoogleEvent)))
    (w : World) (error : string)
    (Hdistinct : NoDup (List.map u_id users)) :
  let sweep enabledUsers :=
    AutomationSweep.checkAllUsersForChanges credentials post toLocaleTimeString
      DEFAULT_WHATSAPP_RECIPIENT now enabledUsers feed w in
  (forall user,
     user ∈ users ->
     rows_of (u_id user) (w_db (sweep (Returns users)))
     = rows_of (u_id user)
         (w_db (checkUserForChanges credentials post toLocaleTimeString
                  DEFAULT_WHATSAPP_RECIPIENT now user (feed (u_id user)) w)))
  /\ (forall other,
        other ∉ List.map u_id users ->
        rows_of other (w_db (sweep (Returns users))) = rows_of other (w_db w))
  /\ sweep (Throws error) = w.
Proof.
  intros sweep. subst sweep. cbv beta.
  unfold AutomationSweep.checkAllUsersForChanges.
  split; [|split; [|done]].
  - revert w Hdistinct. induction users as [|u users IH]; intros w Hnd user Hin.
    { by apply elem_of_nil in Hin. }
    simpl in Hnd. apply NoDup_cons in Hnd as [Hfresh Hnd]. simpl.
    apply elem_of_cons in Hin as [->|Hin].
    + clear IH. 
      assert (Hframe : forall (us : list User) w0,
                u_id u ∉ List.map u_id us ->
                rows_of (u_id u)
                  (w_db (fold_left
                           (fun w user =>
                              checkUserForChanges credentials post toLocaleTimeString
                                DEFAULT_WHATSAPP_RECIPIENT now user (feed (u_id user)) w)
                           us w0))
                = rows_of (u_id u) (w_db w0)).
      { induction us as [|x us IHus]; intros w0 Hnot; [done|]. simpl.
        rewrite IHus.
        - apply pass_rows_other. intros Heq. apply Hnot. simpl. rewrite Heq. left.
        - intros Hx. apply Hnot. simpl. by right. }
      by apply Hframe.
    + rewrite (IH _ Hnd user Hin). apply pass_after_other.
      intros Heq. apply Hfresh. rewrite <- Heq.
      apply list_elem_of_fmap. by exists user.
  - revert w. induction users as [|u users IH]; intros w other Hnot; [done|].
    simpl in Hdistinct |- *.
    apply NoDup_cons in Hdistinct as [_ Hnd'].
    rewrite (IH Hnd').
    + apply pass_rows_other. intros Heq. apply Hnot. simpl. rewrite Heq. left.
    + intros Hx. apply Hnot. simpl. by right.
Qed.

End UserIsolation.

(* ------------------------------------------------------------------------- *)
(** ** Range queries and the helpers on stored events *)

Section Helpers.

Import CalendarEventModel CalendarEventQueries CalendarEventHelpers.

Lemma isUpcoming_true now event hours :
  isUpcoming now event hours = true
  <-> now <= ce_start_time event <= now + hours * 60 * 60 * 1000.
Proof.
  unfold isUpcoming. rewrite andb_true_iff, !Qle_bool_iff.
  unfold Qle. simpl. lia.
Qed.

(** X11. [findUpcomingEvents] returns the non-cancelled rows of the user
    for which [isUpcoming] holds, except a row that starts exactly [hours]
    hours from now: [isUpcoming] accepts it, the query does not. *)
Theorem findUpcomingEvents_vs_isUpcoming
    (db : Table) (userId now hours : Z) (row : CalendarEvent) :
  row ∈ findUpcomingEvents db userId now hours
  <-> row ∈ db
      /\ ce_user_id row = userId
      /\ ce_status row <> EventStatus_value CANCELLED
      /\ isUpcoming now row hours = true
      /\ ce_start_time row <> now + hours * 60 * 60 * 1000.
Proof.
  unfold findUpcomingEvents. cbv zeta.
  rewrite findByUserIdAndDateRange_spec, isUpcoming_true. simpl. intuition lia.
Qed.

(** X12. Filtering the result of a range query with [filterByDateRange]
    keeps exactly the rows of the query over the intersection of the two
    ranges; with the bounds of the query itself it changes nothing. *)
Theorem filterByDateRange_of_query
    (db : Table) (userId startDate endDate startDate' endDate' : Z) (row : CalendarEvent) :
  (row ∈ filterByDateRange (findByUserIdAndDateRange db userId startDate endDate)
           startDate' endDate'
   <-> row ∈ findByUserIdAndDateRange db userId
               (Z.max startDate startDate') (Z.min endDate endDate'))
  /\ filterByDateRange (findByUserIdAndDateRange db userId startDate endDate)
       startDate endDate
     = findByUserIdAndDateRange db userId startDate endDate.
Proof.
  split.
  - unfold filterByDateRange.
    rewrite list_elem_of_In, filter_In, <- list_elem_of_In.
    rewrite !findByUserIdAndDateRange_spec, andb_true_iff, Z.leb_le, Z.ltb_lt.
    intuition lia.
  - apply filter_all. intros r Hr.
    apply findByUserIdAndDateRange_spec in Hr as (_ & _ & Hwin & _).
    apply andb_true_iff. rewrite Z.leb_le, Z.ltb_lt. lia.
Qed.

(** X13. [getDurationInMinutes] is the duration rounded to the nearest
    minute, halves upwards: it differs from the exact duration by at most
    half a minute, and is exact for whole minutes. *)
Theorem getDurationInMinutes_rounds (event : CalendarEvent) (minutes : Z) :
  getDuration event - 30000 < getDurationInMinutes event * 60000 <= getDuration event + 30000
  /\ (getDuration event = minutes * 60000 -> getDurationInMinutes event = minutes).
Proof.
  unfold getDurationInMinutes, Math_round.
  generalize (getDuration event). intros d.
  assert (Hfloor : Qfloor (inject_Z d / inject_Z (1000 * 60) + (1 # 2))
                   = (d * 2 + 60000) / 120000).
  { unfold Qfloor, Qplus, Qdiv, Qmult, Qinv, inject_Z. simpl. f_equal. lia. }
  rewrite Hfloor. split.
  - pose proof (Z.div_mod (d * 2 + 60000) 120000 ltac:(lia)).
    pose proof (Z.mod_pos_bound (d * 2 + 60000) 120000 ltac:(lia)). lia.
  - intros ->. replace (minutes * 60000 * 2 + 60000) with (60000 + minutes * 120000) by lia.
    rewrite Z.div_add by lia. reflexivity.
Qed.

End Helpers.

(* ------------------------------------------------------------------------- *)
(** ** The normalizer: status and category *)

Section Normalizer.

Import CalendarEventFactory.

Lemma toLowerCase_app (a b : string) :
  Js.toLowerCase (a +:+ b) = Js.toLowerCase a +:+ Js.toLowerCase b.
Proof.
  induction a as [|c a IH]; [reflexivity|].
  rewrite append_cons. simpl. rewrite append_cons. by rewrite IH.
Qed.

Lemma toLowerCase_or_str (d : option string) :
  Js.toLowerCase (Js.or_str d "") = Js.or_str (Js.toLowerCase <$> d) "".
Proof. destruct d as [[|c s]|]; reflexivity. Qed.

(** X14. The category depends on the text only up to the case of its ASCII
    letters: two events whose summaries and descriptions agree after
    lower-casing get the same category. *)
Theorem categorizeEvent_ignores_case
    (summary1 summary2 : string) (description1 description2 : option string)
    (Hsummary : Js.toLowerCase summary1 = Js.toLowerCase summary2)
    (Hdescription : Js.toLowerCase <$> description1 = Js.toLowerCase <$> description2) :
  categorizeEvent summary1 description1 = categorizeEvent summary2 description2.
Proof.
  unfold categorizeEvent, categorizeText.
  rewrite !toLowerCase_app, !toLowerCase_or_str. by rewrite Hsummary, Hdescription.
Qed.

(** X15. [mapGoogleStatus] inverts the string values of the status enum,
    in any mix of upper and lower case, and answers CONFIRMED for an absent
    status and for every string that is not one of the three values. *)
Theorem mapGoogleStatus_round_trip (status : EventStatus) (googleStatus : string) :
  mapGoogleStatus (Some (EventStatus_value status)) = status
  /\ mapGoogleStatus None = CONFIRMED
  /\ (mapGoogleStatus (Some googleStatus) = status
      <-> Js.toLowerCase googleStatus = EventStatus_value status
          \/ (status = CONFIRMED
              /\ Js.toLowerCase googleStatus <> "tentative"
              /\ Js.toLowerCase googleStatus <> "cancelled")).
Proof.
  split; [by destruct status|]. split; [done|].
  unfold mapGoogleStatus.
  destruct (String.eqb_spec (Js.toLowerCase googleStatus) "confirmed") as [->|Hc].
  { destruct status; simpl; split; try discriminate; try tauto;
      intros [H|[H _]]; discriminate. }
  destruct (String.eqb_spec (Js.toLowerCase googleStatus) "tentative") as [->|Ht].
  { destruct status; simpl; split; try discriminate; try tauto;
      intros [H|[H [? ?]]]; try discriminate; congruence. }
  destruct (String.eqb_spec (Js.toLowerCase googleStatus) "cancelled") as [->|Hx].
  { destruct status; simpl; split; try discriminate; try tauto;
      intros [H|[H [? ?]]]; try discriminate; congruence. }
  destruct status; simpl; split; try discriminate; try tauto;
    try (intros [H|[H _]]; [congruence | discriminate]).
Qed.

End Normalizer.

(* ------------------------------------------------------------------------- *)
(** ** Phone numbers *)

Section Phone.

Import PhoneNumber.

Lemma cleanNumber_cons c s :
  cleanNumber (String c s) = if is_digit c then String c (cleanNumber s) else cleanNumber s.
Proof. reflexivity. Qed.

Lemma cleanNumber_idem s : cleanNumber (cleanNumber s) = cleanNumber s.
Proof.
  induction s as [|c s IH]; [reflexivity|].
  rewrite cleanNumber_cons. destruct (is_digit c) eqn:Hd; [|exact IH].
  by rewrite cleanNumber_cons, Hd, IH.
Qed.

Lemma cleanNumber_head s c rest : cleanNumber s = String c rest -> is_digit c = true.
Proof.
  induction s as [|x s IH]; [discriminate|].
  rewrite cleanNumber_cons. destruct (is_digit x) eqn:Hd; [|exact IH].
  by intros [= <- _].
Qed.

(** A cleaned number never starts with a plus sign. *)
Lemma cleanNumber_no_plus s : String.prefix "+" (cleanNumber s) = false.
Proof.
  destruct (cleanNumber s) as [|c rest] eqn:Hc; [reflexivity|].
  apply cleanNumber_head in Hc.
  destruct (String.prefix "+" (String c rest)) eqn:Hp; [|reflexivity].
  apply prefix_true_iff in Hp as [after Hp]. rewrite append_cons in Hp.
  injection Hp as -> _. discriminate Hc.
Qed.

Lemma cleanNumber_plus s : cleanNumber ("+" +:+ s) = cleanNumber s.
Proof. reflexivity. Qed.

Lemma cleanNumber_plus_one s : cleanNumber ("+1" +:+ s) = String "1" (cleanNumber s).
Proof. reflexivity. Qed.

Lemma formatPhoneNumber_cases p :
  (String.length (cleanNumber p) = 10%nat
   /\ formatPhoneNumber p = "+1" +:+ cleanNumber p)
  \/ (String.length (cleanNumber p) <> 10%nat
      /\ formatPhoneNumber p = "+" +:+ cleanNumber p).
Proof.
  unfold formatPhoneNumber.
  destruct (Nat.eqb_spec (String.length (cleanNumber p)) 10) as [H10|H10]; [by left|].
  right. split; [done|].
  destruct (_ && _); [done|]. by rewrite cleanNumber_no_plus.
Qed.

(** X16. [formatPhoneNumber] returns a plus sign followed by digits only:
    the digits of its argument, with a leading 1 added when there are exactly
    ten of them. Formatting a formatted number changes nothing. *)
Theorem formatPhoneNumber_idempotent (phoneNumber : string) :
  formatPhoneNumber (formatPhoneNumber phoneNumber) = formatPhoneNumber phoneNumber
  /\ exists digits,
       formatPhoneNumber phoneNumber = "+" +:+ digits
       /\ cleanNumber digits = digits
       /\ digits = (if Nat.eqb (String.length (cleanNumber phoneNumber)) 10
                    then "1" +:+ cleanNumber phoneNumber
                    else cleanNumber phoneNumber).
Proof.
  destruct (formatPhoneNumber_cases phoneNumber) as [[Hlen Hfmt]|[Hlen Hfmt]].
  - split.
    + rewrite Hfmt. unfold formatPhoneNumber at 1.
      rewrite cleanNumber_plus_one, cleanNumber_idem. simpl String.length. rewrite Hlen.
      assert (Hp : String.prefix "1" (String "1" (cleanNumber phoneNumber)) = true)
        by (apply prefix_true_iff; by exists (cleanNumber phoneNumber)).
      rewrite Hp. reflexivity.
    + exists (String "1" (cleanNumber phoneNumber)). rewrite Hfmt, Hlen.
      split; [reflexivity|]. split; [|reflexivity].
      rewrite cleanNumber_cons.
      assert (is_digit "1" = true) as -> by reflexivity.
      by rewrite cleanNumber_idem.
  - split.
    + rewrite Hfmt.
      destruct (formatPhoneNumber_cases ("+" +:+ cleanNumber phoneNumber))
        as [[Hlen' Hfmt']|[Hlen' Hfmt']];
        rewrite cleanNumber_plus, cleanNumber_idem in *; [congruence | exact Hfmt'].
    + exists (cleanNumber phoneNumber). rewrite Hfmt.
      split; [reflexivity|]. split; [apply cleanNumber_idem|].
      by destruct (Nat.eqb_spec (String.length (cleanNumber phoneNumber)) 10).
Qed.

(** X17. A phone number is valid exactly when it has 10 to 15 digits,
    whatever else it contains, and formatting never changes whether a number
    is valid. *)
Theorem validatePhoneNumber_after_format (phoneNumber : string) :
  (validatePhoneNumber phoneNumber = true
   <-> (10 <= String.length (cleanNumber phoneNumber) <= 15)%nat)
  /\ validatePhoneNumber (formatPhoneNumber phoneNumber) = validatePhoneNumber phoneNumber.
Proof.
  split.
  - unfold validatePhoneNumber. by rewrite andb_true_iff, !Nat.leb_le.
  - unfold validatePhoneNumber.
    destruct (formatPhoneNumber_cases phoneNumber) as [[Hlen ->]|[Hlen ->]].
    + rewrite cleanNumber_plus_one, cleanNumber_idem. simpl String.length.
      rewrite Hlen. reflexivity.
    + by rewrite cleanNumber_plus, cleanNumber_idem.
Qed.

End Phone.

(* ------------------------------------------------------------------------- *)
(** ** The change list: added and deleted records, their order *)

Section ChangeList.

Import CalendarEventModel CalendarService.

Lemma find_none_of_all {A} (P : A -> bool) (l : list A) :
  (forall x, x ∈ l -> P x = false) -> List.find P l = None.
Proof.
  induction l as [|a l IH]; intros Hall; simpl; [done|].
  rewrite (Hall a (list_elem_of_here _ _)). apply IH.
  intros x Hx. apply Hall. by apply list_elem_of_further.
Qed.

Lemma check_event_records now storedEvents g c :
  c ∈ check_event now storedEvents [] g -> c = added g \/ c = modified g.
Proof.
  unfold check_event. destruct_matches; simpl; intros H;
    repeat (apply elem_of_cons in H as [H|H]; [by eauto|]);
    by apply elem_of_nil in H.
Qed.

Lemma check_event_added_same now storedEvents g g' :
  added g ∈ check_event now storedEvents [] g' -> g' = g.
Proof.
  intros H. apply check_event_records in H as [H|H]; congruence.
Qed.

Lemma check_event_unmatched now storedEvents g :
  find_stored storedEvents g = None -> check_event now storedEvents [] g = [added g].
Proof. intros H. unfold check_event. by rewrite H. Qed.

(** X18. [checkForChanges] reports a fresh event as [added] exactly when
    no row of the user with that event id is stored non-cancelled with a
    start inside the 24 hours from now: a stored event that has already
    started, or was cancelled, is reported as added again. *)
Theorem added_iff_no_row_in_window
    (now : Z) (googleEvents : list GoogleEvent) (db : Table) (userId : Z)
    (googleEvent : GoogleEvent) :
  added googleEvent ∈ checkForChanges now (Some googleEvents) db userId
  <-> googleEvent ∈ googleEvents
      /\ forall row,
           row ∈ db ->
           ce_user_id row = userId ->
           ce_event_id row = g_id googleEvent ->
           ce_status row = EventStatus_value CANCELLED
           \/ ce_start_time row < now
           \/ now + 24 * 60 * 60 * 1000 <= ce_start_time row.
Proof.
  rewrite checkForChanges_eq. cbv zeta.
  rewrite elem_of_app, !elem_of_concat_map.
  set (storedEvents := findByUserIdAndDateRange db userId now (now + 24 * 60 * 60 * 1000)).
  split.
  - intros [[g' [Hin Hadd]]|[s [_ Hadd]]]; [|by apply check_deleted_not_added in Hadd].
    pose proof (check_event_added_same _ _ _ _ Hadd) as ->.
    split; [done|]. intros row Hrow Hu Hid.
    apply check_event_added_unmatched in Hadd.
    destruct (decide (ce_status row = EventStatus_value CANCELLED)) as [|Hst]; [by left|].
    right.
    destruct (Z_lt_ge_dec (ce_start_time row) now) as [|Hge]; [by left|].
    destruct (Z_le_gt_dec (now + 24 * 60 * 60 * 1000) (ce_start_time row)) as [|Hlt];
      [by right|].
    assert (Hstored : row ∈ storedEvents).
    { apply findByUserIdAndDateRange_spec. repeat split; try done; lia. }
    apply list_elem_of_In in Hstored.
    pose proof (find_none _ _ Hadd row Hstored) as Hne. simpl in Hne.
    apply String.eqb_neq in Hne. congruence.
  - intros [Hin Hrows]. left. exists googleEvent. split; [done|].
    rewrite check_event_unmatched; [apply list_elem_of_here|].
    apply find_none_of_all. intros s Hs.
    apply findByUserIdAndDateRange_spec in Hs as (Hdb & Hu & Hwin & Hst).
    apply String.eqb_neq. intros Hid.
    destruct (Hrows s Hdb Hu Hid) as [?|[?|?]]; [done | lia | lia].
Qed.

(** X19. [checkForChanges] reports a stored row as [deleted] exactly when
    the range query returns it and no event of the feed has its event id. *)
Theorem deleted_iff_absent_from_feed
    (now : Z) (googleEvents : list GoogleEvent) (db : Table) (userId : Z)
    (row : CalendarEvent) :
  deleted row ∈ checkForChanges now (Some googleEvents) db userId
  <-> row ∈ findByUserIdAndDateRange db userId now (now + 24 * 60 * 60 * 1000)
      /\ forall g, g ∈ googleEvents -> g_id g <> ce_event_id row.
Proof.
  rewrite checkForChanges_eq. cbv zeta.
  rewrite elem_of_app, !elem_of_concat_map. split.
  - intros [[g [_ Hc]]|[s [Hs Hc]]].
    + apply check_event_records in Hc as [Hc|Hc]; discriminate.
    + apply check_deleted_inv in Hc as [Hc Habs]. by injection Hc as <-.
  - intros [Hs Habs]. right. exists row. split; [done|].
    rewrite check_deleted_absent by done. apply list_elem_of_here.
Qed.

Lemma length_concat_map_le {A B} (f : A -> list B) (l : list A) :
  (forall x, (length (f x) <= 1)%nat) ->
  (length (concat (List.map f l)) <= length l)%nat.
Proof.
  intros Hf. induction l as [|a l IH]; simpl; [lia|].
  rewrite length_app. specialize (Hf a). lia.
Qed.

Lemma check_event_length now storedEvents g :
  (length (check_event now storedEvents [] g) <= 1)%nat.
Proof. unfold check_event. destruct_matches; simpl; lia. Qed.

Lemma check_deleted_length googleEvents s :
  (length (check_deleted googleEvents [] s) <= 1)%nat.
Proof. unfold check_deleted. destruct_matches; simpl; lia. Qed.

(** X20. In the change list every [deleted] record comes after every
    [added] and [modified] record, and the list has at most one record per
    fresh event plus one per stored row of the query. *)
Theorem change_list_order
    (now : Z) (googleEvents : list GoogleEvent) (db : Table) (userId : Z) :
  let changes := checkForChanges now (Some googleEvents) db userId in
  (forall i j row c,
     (i < j)%nat ->
     changes !! i = Some (deleted row) ->
     changes !! j = Some c ->
     exists row', c = deleted row')
  /\ (length changes
      <= length googleEvents
         + length (findByUserIdAndDateRange db userId now (now + 24 * 60 * 60 * 1000)))%nat.
Proof.
  intros changes. subst changes. rewrite checkForChanges_eq. cbv zeta.
  set (storedEvents := findByUserIdAndDateRange db userId now (now + 24 * 60 * 60 * 1000)).
  set (A := concat (List.map (check_event now storedEvents []) googleEvents)).
  set (D := concat (List.map (check_deleted googleEvents []) storedEvents)).
  split.
  - intros i j row c Hij Hi Hj.
    assert (Hlen : (length A <= i)%nat).
    { destruct (le_lt_dec (length A) i) as [|Hlt]; [done|].
      rewrite lookup_app_l in Hi by done.
      apply list_elem_of_lookup_2 in Hi.
      apply elem_of_concat_map in Hi as [g [_ Hc]].
      apply check_event_records in Hc as [Hc|Hc]; discriminate. }
    rewrite lookup_app_r in Hj by lia.
    apply list_elem_of_lookup_2 in Hj.
    apply elem_of_concat_map in Hj as [s [_ Hc]].
    apply check_deleted_inv in Hc as [-> _]. by exists s.
  - rewrite length_app.
    pose proof (length_concat_map_le (check_event now storedEvents []) googleEvents
                  (check_event_length now storedEvents)).
    pose proof (length_concat_map_le (check_deleted googleEvents []) storedEvents
                  (check_deleted_length googleEvents)).
    fold A D in H, H0. lia.
Qed.

Lemma or_date_present dateTime date now later :
  is_Some dateTime \/ is_Some date ->
  Js.or_date dateTime date now = Js.or_date dateTime date later.
Proof.
  intros [[t ->]|[d ->]]; [done|]. by destruct dateTime.
Qed.

(** X21. For a remote event that carries a start and an end, the
    comparison of [checkForChanges] against the row that the sync path has
    just written for it finds no difference exactly when the event has a
    non-empty title: the row of an untitled event holds ['No Title'], which
    the comparison sets against the absent remote summary, so an untitled
    event always counts as changed. *)
Theorem contentChanged_after_sync
    `{schema : Schema} (now later userId : Z) (googleEvent : GoogleEvent)
    (db : Table) (row : CalendarEvent)
    (Hrow : upsert_returning now (eventData_of now userId googleEvent) db = Some row)
    (Hstart : is_Some (g_start_dateTime googleEvent) \/ is_Some (g_start_date googleEvent))
    (Hend : is_Some (g_end_dateTime googleEvent) \/ is_Some (g_end_date googleEvent)) :
  contentChanged later row googleEvent = false
  <-> exists title, g_summary googleEvent = Some title /\ title <> "".
Proof.
  rewrite upsert_returning_eq in Hrow. injection Hrow as <-.
  assert (Hfields :
    forall r : CalendarEvent,
      ce_summary r = Js.or_str (g_summary googleEvent) "No Title" ->
      ce_description r = Some (Js.or_str (g_description googleEvent) "") ->
      ce_location r = Some (Js.or_str (g_location googleEvent) "") ->
      ce_start_time r
      = Js.or_date (g_start_dateTime googleEvent) (g_start_date googleEvent) now ->
      ce_end_time r = Js.or_date (g_end_dateTime googleEvent) (g_end_date googleEvent) now ->
      ce_status r = Js.or_str (g_status googleEvent) "confirmed" ->
      contentChanged later r googleEvent = false
      <-> exists title, g_summary googleEvent = Some title /\ title <> "").
  { intros r Hs Hd Hl Hst Hen Hsta. unfold contentChanged.
    rewrite Hs, Hd, Hl, Hst, Hen, Hsta.
    rewrite (or_date_present _ _ now later Hstart), (or_date_present _ _ now later Hend).
    rewrite !Z.eqb_refl, String.eqb_refl. simpl.
    repeat (match goal with
            | |- context [bool_decide (?a = ?a)] =>
                rewrite (bool_decide_eq_true_2 (a = a) eq_refl)
            end).
    simpl.
    rewrite !orb_false_r, negb_false_iff, bool_decide_eq_true.
    destruct (g_summary googleEvent) as [[|c t]|]; simpl.
    - split; [discriminate | intros (title & [= <-] & Hne); done].
    - split; [intros _; by eexists | done].
    - split; [discriminate | intros (title & [=] & _)]. }
  destruct (findByUserIdAndEventId db _ _); by apply Hfields.
Qed.

End ChangeList.

(* ------------------------------------------------------------------------- *)
(** ** The daily summary: edge cases and free blocks *)

Section Summary.

Import CalendarService.

Variable toLocaleTimeString toLocaleDateString : Z -> string.
Variable startOfDay endOfDay : Z -> Z.

Lemma timedEvents_of_length events :
  length (timedEvents_of events)
  = length (List.filter
              (fun event => negb (CalendarEventFactory.is_none (g_start_dateTime event)))
              events).
Proof. unfold timedEvents_of. apply Permutation_length, sort_by_start_Permutation. Qed.

(** X22. The daily summary of a failed fetch is the summary of a day
    without events. The reported event count is the number of events that
    carry a start time of day (all-day events are not counted), and is zero
    when the user is missing or the lookup fails; with a count of zero no
    first or last meeting is reported. *)
Theorem getTodaySummary_edge_cases
    (found : Outcome (option User)) (now : Z) (events : list GoogleEvent) :
  let summary := getTodaySummary toLocaleTimeString toLocaleDateString startOfDay endOfDay in
  summary found now None = summary found now (Some [])
  /\ ts_eventCount (summary found now (Some events))
     = match found with
       | Returns (Some _) =>
           length (List.filter
                     (fun event =>
                        negb (CalendarEventFactory.is_none (g_start_dateTime event)))
                     events)
       | _ => 0%nat
       end
  /\ (ts_eventCount (summary found now (Some events)) = 0%nat ->
      ts_firstMeeting (summary found now (Some events)) = None
      /\ ts_lastMeeting (summary found now (Some events)) = None).
Proof.
  intros summary. subst summary. split; [by destruct found as [[?|]|]|].
  pose proof (timedEvents_of_length events) as Hlen.
  unfold getTodaySummary.
  destruct found as [[user|]|]; [|by split..].
  destruct events as [|e es]; [by split|].
  destruct (timedEvents_of (e :: es)) as [|t ts] eqn:Ht.
  - split; [by rewrite <- Hlen|]. by split.
  - split; [by rewrite <- Hlen|]. simpl. discriminate.
Qed.

End Summary.

Section FreeBlockShape.

Import CalendarService.

Lemma free_loop_blocks now (timedEvents : list GoogleEvent) cursor freeBlocks :
  (forall b, b ∈ freeBlocks -> fb_start b < fb_end b) ->
  (forall b, b ∈ snd (fold_left (free_step now) timedEvents (cursor, freeBlocks)) ->
             fb_start b < fb_end b)
  /\ (length (snd (fold_left (free_step now) timedEvents (cursor, freeBlocks)))
      <= length freeBlocks + length timedEvents)%nat.
Proof.
  revert cursor freeBlocks.
  induction timedEvents as [|event rest IH]; intros cursor freeBlocks Hwf; simpl.
  - split; [done | lia].
  - destruct (Z.ltb_spec cursor (default now (g_start_dateTime event))) as [Hlt|Hge].
    + destruct (IH (default now (g_end_dateTime event))
                  (freeBlocks ++ [ {| fb_start := cursor;
                                      fb_end := default now (g_start_dateTime event) |} ]))
        as [Hb Hl].
      { intros b Hin. apply elem_of_app in Hin as [Hin|Hin]; [by apply Hwf|].
        by apply list_elem_of_singleton in Hin as ->. }
      split; [done|]. rewrite length_app in Hl. simpl in Hl. lia.
    + destruct (IH (default now (g_end_dateTime event)) freeBlocks Hwf) as [Hb Hl].
      split; [done | lia].
Qed.

(** X23. Every free block that [getTodaySummary] computes has its start
    before its end, and there is at most one block more than there are timed
    events. *)
Theorem free_blocks_well_formed
    (now dayStart dayEnd : Z) (timedEvents : list GoogleEvent) :
  (forall block,
     block ∈ computeFreeBlocks now dayStart dayEnd timedEvents ->
     fb_start block < fb_end block)
  /\ (length (computeFreeBlocks now dayStart dayEnd timedEvents)
      <= length timedEvents + 1)%nat.
Proof.
  unfold computeFreeBlocks.
  destruct (free_loop_blocks now timedEvents dayStart [])
    as [Hb Hl]; [intros b Hin; by apply elem_of_nil in Hin|].
  destruct (fold_left _ timedEvents _) as [cursor freeBlocks]. simpl in *.
  destruct (Z.ltb_spec cursor dayEnd) as [Hlt|Hge].
  - split.
    + intros b Hin. apply elem_of_app in Hin as [Hin|Hin]; [by apply Hb|].
      by apply list_elem_of_singleton in Hin as ->.
    + rewrite length_app. simpl. lia.
  - split; [done | lia].
Qed.

Lemma free_loop_apart now (timedEvents : list GoogleEvent) cursor freeBlocks :
  starts_in_order now timedEvents ->
  ends_in_order now cursor timedEvents ->
  let result := fold_left (free_step now) timedEvents (cursor, freeBlocks) in
  cursor <= fst result
  /\ (forall e, e ∈ timedEvents -> default now (g_end_dateTime e) <= fst result)
  /\ (forall b, b ∈ snd result ->
                b ∈ freeBlocks
                \/ (cursor <= fb_start b /\ forall e, e ∈ timedEvents -> apart now b e)).
Proof.
  revert cursor freeBlocks.
  induction timedEvents as [|event rest IH]; intros cursor freeBlocks Hsorted Hord; simpl.
  - split; [lia|]. split; [intros e He; by apply elem_of_nil in He | by left].
  - apply StronglySorted_inv in Hsorted as [Hrest Hfirst].
    destruct Hord as [Hle Hord].
    set (freeBlocks1 :=
           if cursor <? default now (g_start_dateTime event)
           then freeBlocks ++ [ {| fb_start := cursor;
                                   fb_end := default now (g_start_dateTime event) |} ]
           else freeBlocks).
    destruct (IH (default now (g_end_dateTime event)) freeBlocks1 Hrest Hord)
      as (Hcur & Hends & Hblocks).
    split; [lia|]. split.
    + intros e He. apply elem_of_cons in He as [->|He]; [done | by apply Hends].
    + intros b Hb. destruct (Hblocks b Hb) as [Hold|[Hstart Hrestapart]].
      * subst freeBlocks1.
        destruct (cursor <? default now (g_start_dateTime event)); [|by left].
        apply elem_of_app in Hold as [Hold|Hnew]; [by left|].
        apply list_elem_of_singleton in Hnew as ->. right. simpl.
        split; [lia|]. intros e He. right. simpl.
        apply elem_of_cons in He as [->|He]; [lia|].
        rewrite Forall_forall in Hfirst. by apply Hfirst.
      * right. split; [lia|]. intros e He.
        apply elem_of_cons in He as [->|He]; [by left | by apply Hrestapart].
Qed.

(** X24. When the timed events are listed by ascending start and none
    ends before the cursor has reached it, no free block that
    [getTodaySummary] computes overlaps an event. *)
Theorem free_blocks_avoid_events
    (now dayStart dayEnd : Z) (timedEvents : list GoogleEvent)
    (Hstarts : starts_in_order now timedEvents)
    (Hends : ends_in_order now dayStart timedEvents) :
  forall block event,
    block ∈ computeFreeBlocks now dayStart dayEnd timedEvents ->
    event ∈ timedEvents ->
    apart now block event.
Proof.
  intros block event Hblock Hevent. unfold computeFreeBlocks in Hblock.
  destruct (free_loop_apart now timedEvents dayStart [] Hstarts Hends)
    as (_ & Hlast & Hblocks).
  destruct (fold_left _ timedEvents _) as [cursor freeBlocks]. simpl in *.
  assert (Hloop : block ∈ freeBlocks -> apart now block event).
  { intros Hin. destruct (Hblocks block Hin) as [Hnil|[_ Hap]];
      [by apply elem_of_nil in Hnil | by apply Hap]. }
  destruct (cursor <? dayEnd); [|by apply Hloop].
  apply elem_of_app in Hblock as [Hin|Hin]; [by apply Hloop|].
  apply list_elem_of_singleton in Hin as ->. left. simpl. by apply Hlast.
Qed.

End FreeBlockShape.

(* ------------------------------------------------------------------------- *)
(** ** The timers of the automation service *)

Section Timers.

Import AutomationService AutomationSweep.

Variable cron_accepts : string -> string -> bool.

Lemma filter_alter_same {A} (P : A -> bool) (f : A -> A) (l : list A) (i : nat) :
  (forall x, l !! i = Some x -> P x = false /\ P (f x) = false) ->
  List.filter P (alter f i l) = List.filter P l.
Proof.
  revert i. induction l as [|a l IH]; intros i Hsame; [done|].
  destruct i as [|i].
  - change (alter f 0%nat (a :: l)) with (f a :: l). simpl.
    destruct (Hsame a eq_refl) as [-> ->]. done.
  - change (alter f (S i) (a :: l)) with (a :: alter f i l). simpl.
    rewrite (IH i); [done|]. intros x Hx. by apply Hsame.
Qed.

(** A user without a registered job has no running timer. *)
Lemma unregistered_no_timer st userId :
  consistent st -> jobs st !! userId = None -> active_timers st userId = [].
Proof.
  intros [Hrun _] Hnone. unfold active_timers. apply filter_none.
  intros task Hin. apply list_elem_of_lookup in Hin as [j Hj].
  destruct (ct_running task) eqn:Hr; [|done]. simpl.
  apply Z.eqb_neq. intros Heq.
  pose proof (Hrun j task Hj Hr) as Hreg. rewrite Heq in Hreg. congruence.
Qed.

Lemma stop_no_timer st userId :
  consistent st -> active_timers (stopUserAutomation userId st) userId = [].
Proof.
  intros Hc. apply unregistered_no_timer;
    [by apply consistent_stop | apply stop_unregisters].
Qed.

Lemma stop_other_timers st userId other :
  consistent st -> other <> userId ->
  active_timers (stopUserAutomation userId st) other = active_timers st other.
Proof.
  intros [_ Hjob] Hne. unfold stopUserAutomation.
  destruct (jobs st !! userId) as [job|] eqn:Hu; [|done].
  unfold active_timers. simpl. apply filter_alter_same.
  intros task Htask. destruct (Hjob userId job Hu) as (task' & Ht & Hut & _).
  assert (task' = task) as -> by congruence. simpl.
  assert ((ct_userId task =? other) = false) as -> by (apply Z.eqb_neq; congruence).
  by rewrite andb_false_r.
Qed.

Lemma start_other_timers found st userId other :
  consistent st -> other <> userId ->
  active_timers (startUserAutomation cron_accepts found userId st) other
  = active_timers st other.
Proof.
  intros Hc Hne. unfold startUserAutomation.
  destruct found as [[user|]|]; try done.
  destruct (u_automation_enabled user); simpl; [|done].
  destruct (cron_accepts _ _); [|by apply stop_other_timers].
  rewrite <- (stop_other_timers st userId other Hc Hne).
  unfold active_timers. simpl. rewrite List.filter_app. simpl.
  assert ((userId =? other) = false) as -> by (apply Z.eqb_neq; congruence).
  by rewrite app_nil_r.
Qed.

(** X25. On every state that the service can reach, [stopUserAutomation]
    leaves the user without a running timer and [stopAllAutomations] leaves
    every user without one; starting or stopping the automation of one user
    leaves the running timers of every other user as they are. *)
Theorem stopping_leaves_no_timer
    (calls : list Call) (userId : Z) (found : Outcome (option User)) :
  let st := run cron_accepts calls in
  active_timers (stopUserAutomation userId st) userId = []
  /\ (forall anyone, active_timers (stopAllAutomations st) anyone = [])
  /\ (forall other,
        other <> userId ->
        active_timers (stopUserAutomation userId st) other = active_timers st other
        /\ active_timers (startUserAutomation cron_accepts found userId st) other
           = active_timers st other).
Proof.
  intros st. pose proof (consistent_run cron_accepts calls) as Hc. fold st in Hc.
  split; [by apply stop_no_timer|]. split.
  - intros anyone. apply unregistered_no_timer; [by apply consistent_stopAll|].
    apply lookup_empty.
  - intros other Hne. split; [by apply stop_other_timers | by apply start_other_timers].
Qed.

Lemma start_all_consistent (findById : Z -> Outcome (option User)) users st :
  consistent st ->
  consistent
    (fold_left
       (fun st user => startUserAutomation cron_accepts (findById (u_id user)) (u_id user) st)
       users st).
Proof.
  revert st. induction users as [|x users IH]; intros st Hc; simpl; [done|].
  apply IH. by apply consistent_start.
Qed.

Lemma start_all_other_timers (findById : Z -> Outcome (option User)) users st other :
  consistent st ->
  other ∉ List.map u_id users ->
  active_timers
    (fold_left
       (fun st user => startUserAutomation cron_accepts (findById (u_id user)) (u_id user) st)
       users st) other
  = active_timers st other.
Proof.
  revert st. induction users as [|x users IH]; intros st Hc Hnot; simpl; [done|].
  rewrite IH.
  - apply start_other_timers; [done|]. intros ->. apply Hnot. simpl. left.
  - by apply consistent_start.
  - intros Hin. apply Hnot. simpl. by right.
Qed.

Lemma start_all_one_timer (findById : Z -> Outcome (option User)) users st :
  consistent st ->
  (forall user,
     user ∈ users ->
     exists row,
       findById (u_id user) = Returns (Some row)
       /\ u_automation_enabled row = true
       /\ cron_accepts (u_daily_summary_time row)
                       (Js.or_str (u_timezone row) "America/New_York") = true) ->
  forall user,
    user ∈ users ->
    length
      (active_timers
         (fold_left
            (fun st user =>
               startUserAutomation cron_accepts (findById (u_id user)) (u_id user) st)
            users st)
         (u_id user)) = 1%nat.
Proof.
  revert st. induction users as [|x users IH]; intros st Hc Hfound user Hin.
  { by apply elem_of_nil in Hin. }
  simpl.
  assert (Hrest : forall user, user ∈ users ->
            exists row,
              findById (u_id user) = Returns (Some row)
              /\ u_automation_enabled row = true
              /\ cron_accepts (u_daily_summary_time row)
                              (Js.or_str (u_timezone row) "America/New_York") = true).
  { intros y Hy. apply Hfound. by apply list_elem_of_further. }
  pose proof (consistent_start cron_accepts (findById (u_id x)) (u_id x) st Hc) as Hc1.
  destruct (decide (u_id user ∈ List.map u_id users)) as [Hlater|Hlast].
  - apply list_elem_of_fmap in Hlater as (user' & Heq & Hin').
    rewrite Heq. by apply IH.
  - apply elem_of_cons in Hin as [->|Hin].
    + rewrite start_all_other_timers by done.
      destruct (Hfound x (list_elem_of_here _ _)) as (row & -> & He & Ha).
      by apply start_enabled_one_timer.
    + destruct Hlast. apply list_elem_of_fmap. by exists user.
Qed.

(** X26. [startAllAutomations] on a reachable state, when every listed
    user is found with automation enabled and a schedule that the scheduler
    accepts: afterwards each listed user has exactly one running timer, also
    when it had one before or is listed twice, and the timers of the users
    that are not listed are as before. When the list of users cannot be read,
    neither the timers nor the polling interval change. *)
Theorem startAllAutomations_one_timer_each
    (calls : list Call) (users : list User) (findById : Z -> Outcome (option User))
    (t : Intervals) (error : string)
    (Hfound : forall user,
        user ∈ users ->
        exists row,
          findById (u_id user) = Returns (Some row)
          /\ u_automation_enabled row = true
          /\ cron_accepts (u_daily_summary_time row)
                          (Js.or_str (u_timezone row) "America/New_York") = true) :
  let st := run cron_accepts calls in
  let after := startAllAutomations cron_accepts (Returns users) findById st t in
  (forall user, user ∈ users -> length (active_timers (fst after) (u_id user)) = 1%nat)
  /\ (forall other,
        other ∉ List.map u_id users ->
        active_timers (fst after) other = active_timers st other)
  /\ active_intervals (snd after) = S (active_intervals t)
  /\ startAllAutomations cron_accepts (Throws error) findById st t = (st, t).
Proof.
  intros st after. subst after. simpl.
  pose proof (consistent_run cron_accepts calls) as Hc. fold st in Hc.
  split; [by apply start_all_one_timer|].
  split; [intros other Hnot; by apply start_all_other_timers|].
  split; [|done].
  unfold active_intervals, startChangeDetection. simpl.
  rewrite List.filter_app, length_app. simpl. lia.
Qed.

Lemma registered_one_timer st userId job :
  consistent st -> jobs st !! userId = Some job ->
  length (active_timers st userId) = 1%nat.
Proof.
  intros Hc Hu. pose proof (consistent_at_most_one st userId Hc) as Hle.
  destruct Hc as [_ Hjob]. destruct (Hjob userId job Hu) as (task & Ht & Hut & Hr).
  assert (Hin : task ∈ active_timers st userId).
  { unfold active_timers. apply list_elem_of_In, filter_In. split.
    - apply list_elem_of_In. by apply list_elem_of_lookup_2 with job.
    - rewrite Hr. simpl. by apply Z.eqb_eq. }
  destruct (active_timers st userId); [by apply elem_of_nil in Hin | simpl in *; lia].
Qed.

Lemma stop_after_two_starts (l : list bool) :
  <[S (length l) := false]> ((l ++ [true]) ++ [true]) = (l ++ [true]) ++ [false].
Proof.
  rewrite insert_app_r_alt by (rewrite length_app; simpl; lia).
  rewrite length_app. simpl.
  by replace (S (length l) - (length l + 1))%nat with 0%nat by lia.
Qed.

Lemma stop_after_start (l : list bool) :
  <[length l := false]> (l ++ [true]) = l ++ [false].
Proof.
  rewrite insert_app_r_alt by lia.
  by replace (length l - length l)%nat with 0%nat by lia.
Qed.

(** X27. [getAutomationStatus] on a reachable state reports [jobActive]
    exactly when the user has a running timer, and then it has exactly one.
    [changeDetectionActive] is weaker: [startChangeDetection] overwrites the
    handle of an interval that is still set, so after two starts and a stop
    the status says that change detection is off while one more interval
    fires than before; one start followed by one stop restores the count. *)
Theorem getAutomationStatus_against_timers
    (calls : list Call) (user : User) (userId : Z) (t : Intervals) :
  let st := run cron_accepts calls in
  let leaked := stopChangeDetection (startChangeDetection (startChangeDetection t)) in
  (exists status,
     getAutomationStatus (Some user) userId st t = inl status
     /\ (jobActive status = true <-> length (active_timers st userId) = 1%nat)
     /\ (jobActive status = false <-> active_timers st userId = []))
  /\ (exists status,
        getAutomationStatus (Some user) userId st leaked = inl status
        /\ changeDetectionActive status = false
        /\ active_intervals leaked = S (active_intervals t))
  /\ active_intervals (stopChangeDetection (startChangeDetection t)) = active_intervals t
  /\ getAutomationStatus None userId st t = inr "User not found".
Proof.
  intros st leaked. pose proof (consistent_run cron_accepts calls) as Hc. fold st in Hc.
  split; [|split; [|split; [|done]]].
  - eexists. split; [reflexivity|]. simpl.
    destruct (jobs st !! userId) as [job|] eqn:Hu.
    + rewrite (registered_one_timer st userId job Hc Hu).
      rewrite bool_decide_eq_true_2 by eauto.
      split; [done|]. split; [done|].
      intros Hnil. pose proof (registered_one_timer st userId job Hc Hu) as H1.
      by rewrite Hnil in H1.
    + rewrite (unregistered_no_timer st userId Hc Hu).
      rewrite bool_decide_eq_false_2 by (intros [? ?]; congruence).
      done.
  - eexists. split; [reflexivity|]. subst leaked.
    unfold stopChangeDetection, startChangeDetection, active_intervals. simpl.
    split; [done|].
    rewrite length_app. simpl.
    replace (length (intervals t) + 1)%nat with (S (length (intervals t))) by lia.
    rewrite stop_after_two_starts, !List.filter_app, !length_app. simpl. lia.
  - unfold stopChangeDetection, startChangeDetection, active_intervals. simpl.
    rewrite stop_after_start, !List.filter_app, !length_app. simpl. lia.
Qed.

End Timers.

(* ------------------------------------------------------------------------- *)
(** ** One polling pass after another *)

Section Passes.

Import CalendarEventModel CalendarService AutomationService.

Context {schema : Schema}.
Variable credentials : WhatsAppService.Credentials.
Variable post : list (string * string) -> string -> string -> bool.
Variable toLocaleTimeString : Z -> string.
Variable DEFAULT_WHATSAPP_RECIPIENT : option string.

(** The table after a pass: the detected changes, processed. *)
Lemma pass_db now user response w :
  w_db (checkUserForChanges credentials post toLocaleTimeString
          DEFAULT_WHATSAPP_RECIPIENT now user response w)
  = processChanges now (u_id user)
      (checkForChanges now (fetchEvents response) (w_db w) (u_id user)) (w_db w).
Proof.
  unfold checkUserForChanges. cbv zeta.
  destruct (checkForChanges _ _ _ _) as [|c changes]; [done|].
  change (0 <? length (c :: changes))%nat with true. cbv iota.
  by destruct (WhatsAppService.sendChangeNotification _ _ _ _ _ _).
Qed.

(** X28. A pass that detects no change sends nothing and writes nothing.
    A pass that detects changes calls [sendMessage] once per recipient of the
    user (its own list, or else the one default recipient), in order, with
    the one text rendered from the whole change list; a user whose recipient
    list is set but empty gets no message. The table
    is updated from the change list whether or not a message was
    delivered. *)
Theorem pass_notifies_then_records
    (now : Z) (user : User) (response : Outcome (option (list GoogleEvent))) (w : World) :
  let changes := checkForChanges now (fetchEvents response) (w_db w) (u_id user) in
  let recipients :=
    match u_whatsapp_recipients user with
    | Some recipients => recipients
    | None => [Js.or_str DEFAULT_WHATSAPP_RECIPIENT ""]
    end in
  let message :=
    fold_left (WhatsAppService.render_change toLocaleTimeString) changes
      ("🔄 *Calendar Changes Detected*" +:+ nl +:+ nl) in
  let after :=
    checkUserForChanges credentials post toLocaleTimeString
      DEFAULT_WHATSAPP_RECIPIENT now user response w in
  (changes = [] -> after = w)
  /\ (changes <> [] ->
      WhatsAppService.calls (w_channel after)
      = WhatsAppService.calls (w_channel w)
        ++ List.map (fun recipient => (recipient, message)) recipients
      /\ WhatsAppService.posts (w_channel after)
         = WhatsAppService.posts (w_channel w)
           ++ (if configured credentials
               then List.map (request_of message) recipients else [])
      /\ (u_whatsapp_recipients user = Some [] -> w_channel after = w_channel w))
  /\ w_db after = processChanges now (u_id user) changes (w_db w).
Proof.
  intros changes recipients message after.
  split; [|split; [|apply pass_db]].
  - intros Hnil. subst after. unfold checkUserForChanges. cbv zeta.
    fold changes. by rewrite Hnil.
  - intros Hsome. subst after. unfold checkUserForChanges. cbv zeta. fold changes.
    destruct changes as [|c rest] eqn:Hchanges; [done|].
    change (0 <? length (c :: rest))%nat with true. cbv iota.
    pose proof (fan_out_fans_out credentials post
                  (WhatsAppService.many recipients) message (w_channel w))
      as (Hcalls & Hposts & _).
    unfold WhatsAppService.sendChangeNotification. cbv zeta.
    change (recipients_of DEFAULT_WHATSAPP_RECIPIENT user) with recipients.
    fold message.
    destruct (WhatsAppService.fan_out _ _ _ _ _) as [sent channel]. simpl in *.
    split; [done|]. split; [done|].
    intros Hempty. subst recipients.
    rewrite Hempty in *. simpl in *.
    destruct channel as [c1 p1], (w_channel w) as [c0 p0]. simpl in *.
    rewrite app_nil_r in Hcalls. destruct (configured credentials);
      rewrite app_nil_r in Hposts; by subst.
Qed.

(** What a record of the change list is. *)
Lemma changes_records now googleEvents db userId c :
  c ∈ checkForChanges now (Some googleEvents) db userId ->
  (exists g, g ∈ googleEvents /\ (c = added g \/ c = modified g))
  \/ (exists s,
        c = deleted s
        /\ s ∈ findByUserIdAndDateRange db userId now (now + 24 * 60 * 60 * 1000)
        /\ forall g, g ∈ googleEvents -> g_id g <> ce_event_id s).
Proof.
  rewrite checkForChanges_eq. cbv zeta.
  rewrite elem_of_app, !elem_of_concat_map.
  intros [[g [Hg Hc]]|[s [Hs Hc]]].
  - left. exists g. split; [done|]. by apply check_event_records in Hc.
  - right. exists s. apply check_deleted_inv in Hc as [-> Habs]. done.
Qed.

Lemma existsb_has_key_elem u e (db : Table) row :
  row ∈ db -> has_key u e row = true -> existsb (has_key u e) db = true.
Proof.
  intros Hin Hk. apply existsb_exists. exists row. split; [|done].
  by apply list_elem_of_In.
Qed.

Lemma upsert_existsb_mono now d db u e :
  existsb (has_key u e) db = true -> existsb (has_key u e) (upsert now d db) = true.
Proof.
  intros Hex. apply existsb_exists in Hex as (row & Hin & Hk).
  apply list_elem_of_In in Hin.
  destruct (has_key (ed_userId d) (ed_eventId d) row) eqn:Hd.
  - apply has_key_true in Hk as [Hu He]. apply has_key_true in Hd as [Hu' He'].
    rewrite <- Hu, <- He, Hu', He'. apply upsert_key_present.
  - apply existsb_has_key_elem with row; [|done]. by apply upsert_rows_other_key.
Qed.

Lemma markAsCancelled_returning_present now u e db :
  existsb (has_key u e) db = true -> markAsCancelled_returning now u e db <> None.
Proof.
  intros Hex Hnone. unfold markAsCancelled_returning, findByUserIdAndEventId in Hnone.
  apply find_none_existsb in Hnone. rewrite markAsCancelled_existsb in Hnone. congruence.
Qed.

(** A row under a key that [markAsCancelled] leaves in the table comes from
    a row under that key with the same start. *)
Lemma markAsCancelled_trace now u e e' db row' :
  row' ∈ markAsCancelled now u e' db ->
  has_key u e row' = true ->
  exists row,
    row ∈ db /\ has_key u e row = true
    /\ ce_start_time row' = ce_start_time row
    /\ (ce_status row' = ce_status row \/ ce_status row' = "cancelled")
    /\ (e' = e -> ce_status row' = "cancelled").
Proof.
  intros Hin Hk. apply markAsCancelled_rows in Hin as (row & Hrow & ->).
  exists row. destruct (has_key u e' row) eqn:Hk'.
  - rewrite has_key_cancel_row in Hk. repeat split; try done. by right.
  - repeat split; try done; [by left|].
    intros ->. congruence.
Qed.

(** Processing changes that do not write under a key leaves the rows under
    that key with their start, and with their status or cancelled. *)
Lemma process_trace now u e changes db :
  (forall g, added g ∈ changes \/ modified g ∈ changes -> g_id g <> e) ->
  forall row',
    row' ∈ processChanges now u changes db ->
    has_key u e row' = true ->
    exists row,
      row ∈ db /\ has_key u e row = true
      /\ ce_start_time row' = ce_start_time row
      /\ (ce_status row' = ce_status row \/ ce_status row' = "cancelled").
Proof.
  revert db. induction changes as [|c changes IH]; intros db Hfeed row' Hin Hk.
  { exists row'. split; [done|]. split; [done|]. split; [done | by left]. }
  assert (Hrest : forall g, added g ∈ changes \/ modified g ∈ changes -> g_id g <> e).
  { intros g [H|H]; apply Hfeed; [left | right]; by apply list_elem_of_further. }
  assert (Hsync : forall g, g_id g <> e ->
            row' ∈ processChanges now u changes (syncEvents now u [g] db) ->
            exists row,
              row ∈ db /\ has_key u e row = true
              /\ ce_start_time row' = ce_start_time row
              /\ (ce_status row' = ce_status row \/ ce_status row' = "cancelled")).
  { intros g Hne Hin'.
    destruct (IH _ Hrest row' Hin' Hk) as (row1 & H1 & Hk1 & Hrel).
    exists row1. split; [|done].
    unfold syncEvents in H1. simpl in H1.
    apply upsert_rows_other_key in H1; [done|]. simpl.
    apply has_key_true in Hk1 as [Hu He].
    unfold has_key. rewrite He.
    assert ((e =? g_id g)%string = false) as -> by (apply String.eqb_neq; congruence).
    apply andb_false_r. }
  destruct c as [g|g|d]; simpl in Hin.
  - apply (Hsync g); [|done]. apply Hfeed. left. apply list_elem_of_here.
  - apply (Hsync g); [|done]. apply Hfeed. right. apply list_elem_of_here.
  - assert (Hmark : exists row1,
              row1 ∈ markAsCancelled now u (ce_event_id d) db
              /\ has_key u e row1 = true
              /\ ce_start_time row' = ce_start_time row1
              /\ (ce_status row' = ce_status row1 \/ ce_status row' = "cancelled")).
    { destruct (markAsCancelled_returning now u (ce_event_id d) db).
      - by apply IH.
      - exists row'. split; [done|]. split; [done|]. split; [done | by left]. }
    destruct Hmark as (row1 & H1 & Hk1 & Hs1 & Hst1).
    destruct (markAsCancelled_trace now u e _ db row1 H1 Hk1)
      as (row & Hrow & Hkr & Hs & Hst & _).
    exists row. split; [done|]. split; [done|]. split; [congruence|].
    destruct Hst1 as [Hst1|Hst1]; [|by right].
    destruct Hst as [Hst|Hst]; [left | right]; congruence.
Qed.

(** Processing a change list with a [deleted] record whose event is not
    written by the list leaves every row of that event cancelled. *)
Lemma process_cancels now u changes db r :
  deleted r ∈ changes ->
  (forall g, added g ∈ changes \/ modified g ∈ changes -> g_id g <> ce_event_id r) ->
  (forall d, deleted d ∈ changes -> existsb (has_key u (ce_event_id d)) db = true) ->
  forall row',
    row' ∈ processChanges now u changes db ->
    has_key u (ce_event_id r) row' = true ->
    ce_status row' = "cancelled".
Proof.
  revert db. induction changes as [|c changes IH]; intros db Hdel Hfeed Hpres row' Hin Hk.
  { by apply elem_of_nil in Hdel. }
  assert (Hrest : forall g, added g ∈ changes \/ modified g ∈ changes ->
                            g_id g <> ce_event_id r).
  { intros g [H|H]; apply Hfeed; [left | right]; by apply list_elem_of_further. }
  assert (Hsync : forall g,
            deleted r ∈ changes ->
            row' ∈ processChanges now u changes (syncEvents now u [g] db) ->
            ce_status row' = "cancelled").
  { intros g Hdel' Hin'. apply (IH (syncEvents now u [g] db)); try done.
    intros d Hd. unfold syncEvents. simpl. apply upsert_existsb_mono.
    apply Hpres. by apply list_elem_of_further. }
  apply elem_of_cons in Hdel as [Hhead|Hdel].
  - subst c. simpl in Hin.
    assert (Hmark : exists row1,
              row1 ∈ markAsCancelled now u (ce_event_id r) db
              /\ has_key u (ce_event_id r) row1 = true
              /\ (ce_status row' = ce_status row1 \/ ce_status row' = "cancelled")).
    { destruct (markAsCancelled_returning now u (ce_event_id r) db).
      - destruct (process_trace now u (ce_event_id r) changes _ Hrest row' Hin Hk)
          as (row1 & H1 & Hk1 & _ & Hst). by exists row1.
      - exists row'. split; [done|]. split; [done | by left]. }
    destruct Hmark as (row1 & H1 & Hk1 & Hst1).
    destruct (markAsCancelled_trace now u _ _ db row1 H1 Hk1) as (_ & _ & _ & _ & _ & Hc).
    destruct Hst1 as [Hst1|Hst1]; [|done]. rewrite Hst1. by apply Hc.
  - destruct c as [g|g|d]; simpl in Hin.
    + by apply (Hsync g).
    + by apply (Hsync g).
    + pose proof (markAsCancelled_returning_present now u (ce_event_id d) db
                    (Hpres d (list_elem_of_here _ _))) as Hsome.
      destruct (markAsCancelled_returning now u (ce_event_id d) db); [|done].
      apply (IH (markAsCancelled now u (ce_event_id d) db)); try done.
      intros d' Hd'. rewrite markAsCancelled_existsb.
      apply Hpres. by apply list_elem_of_further.
Qed.

(** The rows of the [deleted] records are in the table. *)
Lemma deleted_records_stored now googleEvents db u d :
  deleted d ∈ checkForChanges now (Some googleEvents) db u ->
  existsb (has_key u (ce_event_id d)) db = true.
Proof.
  intros Hd. apply changes_records in Hd as [(g & _ & [?|?])|(s & Heq & Hs & _)];
    try discriminate.
  injection Heq as <-.
  apply findByUserIdAndDateRange_spec in Hs as (Hdb & Hu & _).
  apply existsb_has_key_elem with d; [done|]. by apply has_key_true.
Qed.

(** X29. A deletion is announced once. When a pass at [now'] reports a
    stored row as [deleted] after a pass at [now <= now'] whose fetch
    succeeded, either the feed of the earlier pass still listed the event of
    the row, or the row starts after the 24 hours that the earlier pass
    covered: a row that an earlier pass could report as deleted is not
    reported again. *)
Theorem deletion_announced_once
    (now now' : Z) (user : User) (items : option (list GoogleEvent))
    (fetched : option (list GoogleEvent)) (w : World) (row : CalendarEvent)
    (Hlater : now <= now')
    (Hdeleted :
       deleted row
       ∈ checkForChanges now' fetched
           (w_db (checkUserForChanges credentials post toLocaleTimeString
                    DEFAULT_WHATSAPP_RECIPIENT now user (Returns items) w))
           (u_id user)) :
  (exists g, g ∈ default [] items /\ g_id g = ce_event_id row)
  \/ now + 24 * 60 * 60 * 1000 <= ce_start_time row.
Proof.
  destruct fetched as [feed2|]; [|by apply elem_of_nil in Hdeleted].
  apply changes_records in Hdeleted as [(g & _ & [?|?])|(s & Heq & Hq & _)];
    try discriminate.
  injection Heq as <-.
  apply findByUserIdAndDateRange_spec in Hq as (Hdb & Hu & Hwin & Hst).
  rewrite pass_db in Hdb. simpl fetchEvents in Hdb.
  set (feed1 := default [] items) in *.
  set (u := u_id user) in *. set (db := w_db w) in *.
  destruct (Z_le_gt_dec (now + 24 * 60 * 60 * 1000) (ce_start_time row)) as [|Hin];
    [by right|].
  left.
  destruct (existsb (fun g => String.eqb (g_id g) (ce_event_id row)) feed1) eqn:Hex.
  { apply existsb_exists in Hex as (g & Hg & Heq). exists g.
    split; [by apply list_elem_of_In | by apply String.eqb_eq]. }
  exfalso.
  assert (Habs : forall g, g ∈ feed1 -> g_id g <> ce_event_id row).
  { intros g Hg Heq.
    assert (existsb (fun g => String.eqb (g_id g) (ce_event_id row)) feed1 = true);
      [|congruence].
    apply existsb_exists. exists g.
    split; [by apply list_elem_of_In | by apply String.eqb_eq]. }
  set (changes := checkForChanges now (Some feed1) db u) in *.
  assert (Hfeed : forall g, added g ∈ changes \/ modified g ∈ changes ->
                            g_id g <> ce_event_id row).
  { intros g [H|H];
      apply changes_records in H as [(g' & Hg' & [E|E])|(s' & E & _)];
      simplify_eq; by apply Habs. }
  assert (Hk : has_key u (ce_event_id row) row = true) by by apply has_key_true.
  destruct (process_trace now u (ce_event_id row) changes db Hfeed row Hdb Hk)
    as (r & Hr & Hkr & Hstart & Hstatus).
  apply has_key_true in Hkr as [Hur Her].
  destruct Hstatus as [Hstatus|Hstatus]; [|done].
  assert (Hstored : r ∈ findByUserIdAndDateRange db u now (now + 24 * 60 * 60 * 1000)).
  { apply findByUserIdAndDateRange_spec. repeat split; try done; try lia. congruence. }
  assert (Hdel : deleted r ∈ changes).
  { subst changes. rewrite checkForChanges_eq. cbv zeta.
    rewrite elem_of_app, !elem_of_concat_map. right. exists r. split; [done|].
    rewrite check_deleted_absent; [apply list_elem_of_here|].
    intros g Hg. rewrite Her. by apply Habs. }
  assert (Hcancelled : ce_status row = "cancelled").
  { apply (process_cancels now u changes db r Hdel); try done.
    - rewrite Her. exact Hfeed.
    - intros d Hd. by apply deleted_records_stored in Hd.
    - by rewrite Her. }
  done.
Qed.

(** Processing keeps the rows of an event started when every record that
    writes the event has started. *)
Lemma process_keeps_started now u e changes db :
  (forall g, added g ∈ changes \/ modified g ∈ changes -> g_id g = e ->
             Js.or_date (g_start_dateTime g) (g_start_date g) now < now) ->
  (forall row, row ∈ db -> has_key u e row = true -> ce_start_time row < now) ->
  forall row',
    row' ∈ processChanges now u changes db ->
    has_key u e row' = true ->
    ce_start_time row' < now.
Proof.
  revert db. induction changes as [|c changes IH]; intros db Hstarted Hdb row' Hin Hk.
  { by apply Hdb. }
  assert (Hrest : forall g, added g ∈ changes \/ modified g ∈ changes -> g_id g = e ->
                            Js.or_date (g_start_dateTime g) (g_start_date g) now < now).
  { intros g [H|H]; apply Hstarted; [left | right]; by apply list_elem_of_further. }
  assert (Hsync : forall g,
            (g_id g = e -> Js.or_date (g_start_dateTime g) (g_start_date g) now < now) ->
            row' ∈ processChanges now u changes (syncEvents now u [g] db) ->
            ce_start_time row' < now).
  { intros g Hg Hin'. apply (IH (syncEvents now u [g] db)); try done.
    intros row Hrow Hkrow. unfold syncEvents in Hrow. simpl in Hrow.
    destruct (has_key u (g_id g) row) eqn:Hkg.
    - destruct (upsert_rows_of_key now (eventData_of now u g) db row Hrow Hkg)
        as (hc & last & ->). simpl. apply Hg.
      apply has_key_true in Hkrow as [_ <-]. by apply has_key_true in Hkg as [_ <-].
    - apply Hdb; [|done]. by apply (upsert_rows_other_key now (eventData_of now u g)). }
  destruct c as [g|g|d]; simpl in Hin.
  - apply (Hsync g); [|done]. apply Hstarted. left. apply list_elem_of_here.
  - apply (Hsync g); [|done]. apply Hstarted. right. apply list_elem_of_here.
  - assert (Hmark : forall row, row ∈ markAsCancelled now u (ce_event_id d) db ->
              has_key u e row = true -> ce_start_time row < now).
    { intros row Hrow Hkrow.
      destruct (markAsCancelled_trace now u e _ db row Hrow Hkrow)
        as (row0 & H0 & Hk0 & -> & _). by apply Hdb. }
    destruct (markAsCancelled_returning now u (ce_event_id d) db).
    + by apply (IH (markAsCancelled now u (ce_event_id d) db)).
    + by apply Hmark.
Qed.

(** Processing a change list that writes an event, all of whose records
    have started, leaves the rows of the event started. *)
Lemma process_records_started now u g changes db :
  added g ∈ changes \/ modified g ∈ changes ->
  (forall g', added g' ∈ changes \/ modified g' ∈ changes -> g_id g' = g_id g ->
              Js.or_date (g_start_dateTime g') (g_start_date g') now < now) ->
  (forall d, deleted d ∈ changes -> existsb (has_key u (ce_event_id d)) db = true) ->
  forall row',
    row' ∈ processChanges now u changes db ->
    has_key u (g_id g) row' = true ->
    ce_start_time row' < now.
Proof.
  revert db. induction changes as [|c changes IH]; intros db Hrep Hstarted Hpres row' Hin Hk.
  { destruct Hrep as [H|H]; by apply elem_of_nil in H. }
  assert (Hrest : forall g', added g' ∈ changes \/ modified g' ∈ changes ->
                             g_id g' = g_id g ->
                             Js.or_date (g_start_dateTime g') (g_start_date g') now < now).
  { intros g' [H|H]; apply Hstarted; [left | right]; by apply list_elem_of_further. }
  assert (Hwrite : forall g0,
            (g_id g0 = g_id g ->
             Js.or_date (g_start_dateTime g0) (g_start_date g0) now < now) ->
            g0 = g \/ added g ∈ changes \/ modified g ∈ changes ->
            row' ∈ processChanges now u changes (syncEvents now u [g0] db) ->
            ce_start_time row' < now).
  { intros g0 Hg0 Hcase Hin'. destruct Hcase as [->|Hlater].
    - apply (process_keeps_started now u (g_id g) changes (syncEvents now u [g] db));
        try done.
      intros row Hrow Hkrow. unfold syncEvents in Hrow. simpl in Hrow.
      destruct (upsert_rows_of_key now (eventData_of now u g) db row Hrow Hkrow)
        as (hc & last & ->). simpl. by apply Hg0.
    - apply (IH (syncEvents now u [g0] db)); try done.
      intros d Hd. unfold syncEvents. simpl. apply upsert_existsb_mono.
      apply Hpres. by apply list_elem_of_further. }
  destruct c as [g0|g0|d]; simpl in Hin.
  - apply (Hwrite g0); [| |done].
    + apply Hstarted. left. apply list_elem_of_here.
    + destruct Hrep as [H|H]; apply elem_of_cons in H as [H|H]; simplify_eq; eauto.
  - apply (Hwrite g0); [| |done].
    + apply Hstarted. right. apply list_elem_of_here.
    + destruct Hrep as [H|H]; apply elem_of_cons in H as [H|H]; simplify_eq; eauto.
  - pose proof (markAsCancelled_returning_present now u (ce_event_id d) db
                  (Hpres d (list_elem_of_here _ _))) as Hsome.
    destruct (markAsCancelled_returning now u (ce_event_id d) db); [|done].
    apply (IH (markAsCancelled now u (ce_event_id d) db)); try done.
    + destruct Hrep as [H|H]; apply elem_of_cons in H as [H|H]; simplify_eq; eauto.
    + intros d' Hd'. rewrite markAsCancelled_existsb.
      apply Hpres. by apply list_elem_of_further.
Qed.

(** X30. An event that has already started is announced again. When a
    pass reports an event of the feed as [added] or [modified] and the event
    starts before the instant of the pass, as every event of the feed under
    its id does, the rows that the pass writes for it fall outside the 24
    hours that any later pass reads, so every later pass whose feed lists the
    event reports it as [added] once more. *)
Theorem started_event_announced_again
    (now now' : Z) (user : User) (googleEvents googleEvents' : list GoogleEvent)
    (w : World) (googleEvent : GoogleEvent)
    (Hreported :
       let changes := checkForChanges now (Some googleEvents) (w_db w) (u_id user) in
       added googleEvent ∈ changes \/ modified googleEvent ∈ changes)
    (Hstarted : forall g,
        g ∈ googleEvents ->
        g_id g = g_id googleEvent ->
        Js.or_date (g_start_dateTime g) (g_start_date g) now < now)
    (Hlater : now <= now')
    (Hlisted : googleEvent ∈ googleEvents') :
  added googleEvent
  ∈ checkForChanges now' (Some googleEvents')
      (w_db (checkUserForChanges credentials post toLocaleTimeString
               DEFAULT_WHATSAPP_RECIPIENT now user (Returns (Some googleEvents)) w))
      (u_id user).
Proof.
  cbv zeta in Hreported. rewrite pass_db. simpl fetchEvents.
  set (u := u_id user) in *. set (db := w_db w) in *.
  set (changes := checkForChanges now (Some googleEvents) db u) in *.
  assert (Hrows : forall row,
            row ∈ processChanges now u changes db ->
            has_key u (g_id googleEvent) row = true ->
            ce_start_time row < now).
  { apply process_records_started; [done| |].
    - intros g [H|H] Hid;
        apply changes_records in H as [(g' & Hg' & [E|E])|(s' & E & _)];
        simplify_eq; by apply Hstarted.
    - intros d Hd. by apply deleted_records_stored in Hd. }
  rewrite checkForChanges_eq. cbv zeta.
  rewrite elem_of_app, !elem_of_concat_map. left. exists googleEvent. split; [done|].
  rewrite check_event_unmatched; [apply list_elem_of_here|].
  apply find_none_of_all. intros s Hs.
  apply findByUserIdAndDateRange_spec in Hs as (Hdb & Hu & Hwin & _).
  apply String.eqb_neq. intros Hid.
  assert (ce_start_time s < now); [|lia].
  apply Hrows; [done|]. by apply has_key_true.
Qed.

End Passes.

(* ------------------------------------------------------------------------- *)
(** ** The further properties on the example data *)

Section FurtherExamples.

Import CalendarEventModel CalendarEventQueries CalendarService AutomationService.

#[local] Existing Instance migration_schema.

(** Inserting a second event into the example table. *)
Lemma store_keeps_keys_unique_witness :
  NoDup (keys (upsert 5 (eventData_of 5 1 started_event) [example_stored]))
  /\ length (upsert 5 (eventData_of 5 1 started_event) [example_stored]) = 2%nat.
Proof.
  assert (Hunique : NoDup (keys [example_stored])).
  { apply (bool_decide_unpack _). by vm_compute. }
  destruct (store_keeps_keys_unique 5 (eventData_of 5 1 started_event) [example_stored]
              Hunique) as (Hkeys & _ & Hlength & _).
  split; [exact Hkeys | exact Hlength].
Defined.

(** Inserting an event and deleting it again gives the example table back. *)
Lemma upsert_then_delete_witness :
  deleteByUserIdAndEventId
    (upsert 5 (eventData_of 5 1 started_event) [example_stored]) 1 "e5"
  = ([example_stored], true).
Proof.
  exact (upsert_then_delete 5 (eventData_of 5 1 started_event) [example_stored] eq_refl).
Defined.

(** The second user has no row under the event id of the first. *)
Lemma markAsCancelled_without_row_witness :
  processChanges 0 2 [deleted example_stored; deleted other_stored]
    [example_stored; other_stored]
  = [example_stored; other_stored].
Proof.
  exact (proj2 (proj2
    (markAsCancelled_without_row 0 2 example_stored [example_stored; other_stored] eq_refl))
    [deleted other_stored]).
Defined.

(** A pass of the first user on an empty feed leaves the row of the second. *)
Lemma pass_leaves_other_users_rows_witness :
  rows_of 2
    (w_db (checkUserForChanges example_credentials example_post example_time None
             0 example_user (Returns (Some [])) shared_world))
  = [other_stored].
Proof.
  refine (pass_leaves_other_users_rows example_credentials example_post example_time None
            0 example_user (Returns (Some [])) shared_world 2 _).
  simpl. lia.
Defined.

(** The sweep over the two users, seen from the first. *)
Lemma sweep_treats_users_separately_witness :
  rows_of 1
    (w_db (AutomationSweep.checkAllUsersForChanges example_credentials example_post
             example_time None 0 (Returns [example_user; other_user])
             (fun _ => Returns (Some [])) shared_world))
  = rows_of 1
      (w_db (checkUserForChanges example_credentials example_post example_time None
               0 example_user (Returns (Some [])) shared_world)).
Proof.
  assert (Hdistinct : NoDup (List.map u_id [example_user; other_user])).
  { apply (bool_decide_unpack _). by vm_compute. }
  refine (proj1
    (sweep_treats_users_separately example_credentials example_post example_time None
       0 [example_user; other_user] (fun _ => Returns (Some [])) shared_world "down"
       Hdistinct) example_user _).
  apply list_elem_of_here.
Defined.

(** Two spellings of one title. *)
Lemma categorizeEvent_ignores_case_witness :
  CalendarEventFactory.categorizeEvent "Team MEETING" (Some "Weekly Sync")
  = CalendarEventFactory.categorizeEvent "team meeting" (Some "weekly sync").
Proof.
  apply categorizeEvent_ignores_case; reflexivity.
Defined.

(** The comparison against the row that the sync of a titled event wrote. *)
Lemma contentChanged_after_sync_witness :
  exists row,
    upsert_returning 5 (eventData_of 5 1 started_event) [] = Some row
    /\ (contentChanged 9 row started_event = false
        <-> exists title, g_summary started_event = Some title /\ title <> "").
Proof.
  eexists. split; [reflexivity|].
  apply (contentChanged_after_sync 5 9 1 started_event []).
  - reflexivity.
  - left. by eexists.
  - left. by eexists.
Defined.

(** The block before the first event of the day with gaps. *)
Lemma free_blocks_avoid_events_witness :
  apart 0 {| fb_start := hm 8 0; fb_end := hm 9 0 |} (example_event "b" (hm 10 14) (hm 11 0)).
Proof.
  refine (free_blocks_avoid_events 0 (hm 8 0) (hm 23 59 + 59000) gaps_day _ _
            {| fb_start := hm 8 0; fb_end := hm 9 0 |}
            (example_event "b" (hm 10 14) (hm 11 0)) _ _).
  - unfold starts_in_order, gaps_day.
    repeat (apply SSorted_cons || apply SSorted_nil
            || apply Forall_cons_2 || apply Forall_nil_2);
      vm_compute; discriminate.
  - vm_compute. repeat split; discriminate.
  - vm_compute. apply list_elem_of_here.
  - unfold gaps_day. apply list_elem_of_further, list_elem_of_here.
Defined.

(** Starting the automation of all users on a fresh service. *)
Lemma startAllAutomations_one_timer_each_witness :
  length
    (active_timers
       (fst (AutomationSweep.startAllAutomations accept_all (Returns [example_user])
               (fun _ => Returns (Some example_user)) (run accept_all [])
               {| AutomationSweep.changeCheckInterval := None;
                  AutomationSweep.intervals := [] |}))
       1)
  = 1%nat.
Proof.
  refine (proj1
    (startAllAutomations_one_timer_each accept_all [] [example_user]
       (fun _ => Returns (Some example_user))
       {| AutomationSweep.changeCheckInterval := None; AutomationSweep.intervals := [] |}
       "down" _) example_user _).
  - intros user Hin. exists example_user. done.
  - apply list_elem_of_here.
Defined.

(** Two hours after a pass on an empty feed, the event that starts in 25
    hours has come into reach. *)
Lemma deletion_announced_once_witness :
  (exists g : GoogleEvent, g ∈ default [] None /\ g_id g = ce_event_id late_stored)
  \/ 0 + 24 * 60 * 60 * 1000 <= ce_start_time late_stored.
Proof.
  refine (deletion_announced_once example_credentials example_post example_time None
            0 7200000 example_user None (Some []) shared_world late_stored _ _).
  - lia.
  - vm_compute. apply list_elem_of_here.
Defined.

(** An event that began before the pass is reported as new by the next. *)
Lemma started_event_announced_again_witness :
  added started_event
  ∈ checkForChanges 200 (Some [started_event])
      (w_db (checkUserForChanges example_credentials example_post example_time None
               100 example_user (Returns (Some [started_event])) example_world))
      1.
Proof.
  refine (started_event_announced_again example_credentials example_post example_time None
            100 200 example_user [started_event] [started_event] example_world
            started_event _ _ _ _).
  - left. vm_compute. apply list_elem_of_here.
  - intros g Hin _. apply list_elem_of_singleton in Hin as ->. simpl. lia.
  - lia.
  - apply list_elem_of_here.
Defined.

End FurtherExamples.
